(** * process.py: converting the <pre> block of a chaptered text to a record

    A shallow embedding of [content-processing/process.py].  The script reads
    a file, unwraps the text of its first <pre> element with a regular
    expression, cuts it at "THE END", finds the chapters and their numbered
    lines with two more regular expressions, and dumps the result as JSON.

    Python strings are modelled as lists of characters ([text]); a character
    is a code point below 256.  On such characters the classes [\s] and [\d]
    of [re] and the white space of [str.strip] are the sets given by
    [is_space] and [is_digit] below. *)

From Stdlib Require Import String Ascii List Arith Bool Lia Sorted.
From Stdlib Require DecimalString.
Import ListNotations.

Local Open Scope list_scope.

(** ** Text *)

Definition text := list ascii.

(** A string literal of the source as a [text]. *)
Definition lit (x : string) : text := list_ascii_of_string x.

Definition nl : ascii := "010"%char.

(** [str.isspace] on one character: TAB, LF, VT, FF, CR, the separators
    0x1c-0x1f, the space, NEL (0x85) and the no-break space (0xa0). *)
Definition is_space (c : ascii) : bool :=
  let n := nat_of_ascii c in
  ((9 <=? n) && (n <=? 13)) || ((28 <=? n) && (n <=? 32))
  || (n =? 133) || (n =? 160).

(** [\d]: the decimal digits. *)
Definition is_digit (c : ascii) : bool :=
  let n := nat_of_ascii c in (48 <=? n) && (n <=? 57).

Fixpoint dropwhile (p : ascii -> bool) (s : text) : text :=
  match s with
  | [] => []
  | c :: s' => if p c then dropwhile p s' else s
  end.

Definition lstrip (s : text) : text := dropwhile is_space s.
Definition rstrip (s : text) : text := rev (dropwhile is_space (rev s)).

(** [str.strip()] *)
Definition strip (s : text) : text := rstrip (lstrip s).

Fixpoint starts_with (w s : text) : bool :=
  match w, s with
  | [], _ => true
  | _ :: _, [] => false
  | a :: w', b :: s' => Ascii.eqb a b && starts_with w' s'
  end.

(** [s.partition(sep)]: the text before the first occurrence of [sep], [sep]
    itself and the text after it; [s] and two empty texts when [sep] does not
    occur.  (Python refuses an empty [sep]; the script passes 'THE END' and
    '---'.) *)
Fixpoint partition (sep s : text) : text * text * text :=
  if starts_with sep s then ([], sep, skipn (length sep) s)
  else match s with
       | [] => ([], [], [])
       | c :: s' =>
           match partition sep s' with
           | (a, m, b) => (c :: a, m, b)
           end
       end.

(** [s.split(sep, 1)[-1]]: the text after the first occurrence of [sep],
    the whole of [s] when [sep] does not occur. *)
Definition split1_last (sep s : text) : text :=
  match partition sep s with
  | (_, [], _) => s
  | (_, _, b) => b
  end.

(** [s[a:b]] *)
Definition slice (s : text) (a b : nat) : text := firstn (b - a) (skipn a s).

(** The number of characters of the class [p] at the start of [t]. *)
Fixpoint span_len (p : ascii -> bool) (t : text) : nat :=
  match t with
  | [] => 0
  | c :: t' => if p c then S (span_len p t') else 0
  end.

(** ** Regular expressions

    The part of the pattern language of [re] that the script uses. *)

Inductive greed := Greedy | Lazy.

Inductive regex :=
| Eps                             (* the empty pattern *)
| Chr (c : ascii)                 (* a literal character *)
| Dot                             (* .  *)
| Cls (p : ascii -> bool)         (* a character class: \s, \d, [^>] *)
| Caret                           (* ^  *)
| EndZ                            (* \Z *)
| Seq (r1 r2 : regex)             (* r1 r2 *)
| Alt (r1 r2 : regex)             (* r1|r2 *)
| Star (g : greed) (r : regex)    (* r* and r*? *)
| Grp (n : nat) (r : regex)       (* (r), the capturing group number n *)
| Ahead (r : regex).              (* (?=r) *)

(** [r+] and [r+?] *)
Definition Plus (g : greed) (r : regex) : regex := Seq r (Star g r).

(** A literal word. *)
Fixpoint Word (w : text) : regex :=
  match w with
  | [] => Eps
  | [c] => Chr c
  | c :: w' => Seq (Chr c) (Word w')
  end.

(** [r1|r2|...|rn] *)
Fixpoint Alts (r : regex) (rs : list regex) : regex :=
  match rs with
  | [] => r
  | r' :: rs' => Alt r (Alts r' rs')
  end.

Record flags := { multiline : bool; dotall : bool }.

(** The state of the matcher: the position in the subject and the spans of
    the groups closed so far, the latest first. *)
Record mstate := { pos : nat; caps : list (nat * (nat * nat)) }.

Definition mv (st : mstate) (q : nat) : mstate :=
  {| pos := q; caps := caps st |}.

Definition close_group (n a : nat) (st : mstate) : mstate :=
  {| pos := pos st; caps := (n, (a, pos st)) :: caps st |}.

(** The loop of a repetition.  [body] gives the ways one more iteration can
    match; an iteration that consumes nothing is cut, as [re] does.  [n]
    bounds the characters left, so at 0 no further iteration is possible. *)
Fixpoint star_loop (body : mstate -> list mstate) (g : greed) (n : nat)
    (st : mstate) : list mstate :=
  match n with
  | 0 => [st]
  | S n' =>
      let more :=
        flat_map (star_loop body g n')
                 (filter (fun st' => pos st <? pos st') (body st)) in
      match g with
      | Greedy => more ++ [st]
      | Lazy => st :: more
      end
  end.

Section Matcher.

Variable fl : flags.
Variable s : text.

Definition at_line_start (p : nat) : bool :=
  match p with
  | 0 => true
  | S p' => multiline fl &&
            match nth_error s p' with
            | Some c => Ascii.eqb c nl
            | None => false
            end
  end.

Definition one_char (p : ascii -> bool) (st : mstate) : list mstate :=
  match nth_error s (pos st) with
  | Some c => if p c then [mv st (S (pos st))] else []
  | None => []
  end.

(** [ends r st]: the states in which a match of [r] begun in [st] can end,
    in the order in which the backtracking matcher of [re] tries them.  The
    match that [re] reports is the first one. *)
Fixpoint ends (r : regex) (st : mstate) : list mstate :=
  match r with
  | Eps => [st]
  | Chr c => one_char (Ascii.eqb c) st
  | Dot => one_char (fun c => dotall fl || negb (Ascii.eqb c nl)) st
  | Cls p => one_char p st
  | Caret => if at_line_start (pos st) then [st] else []
  | EndZ => if pos st =? length s then [st] else []
  | Seq r1 r2 => flat_map (ends r2) (ends r1 st)
  | Alt r1 r2 => ends r1 st ++ ends r2 st
  | Star g r' => star_loop (ends r') g (length s - pos st) st
  | Grp n r' => map (close_group n (pos st)) (ends r' st)
  | Ahead r' =>
      match ends r' st with
      | [] => []
      | st' :: _ => [{| pos := pos st; caps := caps st' |}]
      end
  end.

(** [r] matches exactly one character, of the class [p]. *)
Definition charlike (r : regex) (p : ascii -> bool) : Prop :=
  forall st, ends r st = one_char p st.

(** A match object: where the match starts, where it ends, its groups. *)
Record rmatch := { m_start : nat; m_end : nat; m_caps : list (nat * (nat * nat)) }.

Definition match_of (p : nat) (st : mstate) : rmatch :=
  {| m_start := p; m_end := pos st; m_caps := caps st |}.

Definition start_state (p : nat) : mstate := {| pos := p; caps := [] |}.

(** [pattern.match] at position [p]. *)
Definition match_at (r : regex) (p : nat) : option rmatch :=
  option_map (match_of p) (hd_error (ends r (start_state p))).

(** The same, refusing an empty match ([must_advance] of the scanner). *)
Definition match_at_nonempty (r : regex) (p : nat) : option rmatch :=
  option_map (match_of p)
    (hd_error (filter (fun st => p <? pos st) (ends r (start_state p)))).

(** [pattern.search]: the match at the leftmost position that has one.
    [n] counts the positions still to try, [p] is the next one. *)
Fixpoint search_from (r : regex) (n p : nat) : option rmatch :=
  match match_at r p with
  | Some m => Some m
  | None => match n with
            | 0 => None
            | S n' => search_from r n' (S p)
            end
  end.

Definition search (r : regex) : option rmatch := search_from r (length s) 0.

(** [pattern.finditer] and [pattern.findall]: the successive matches, left
    to right, without overlap.  The loop visits the positions [p], [p+1],
    ... up to the end of the subject; those before [resume], the end of the
    last match, are skipped.  Right after an empty match the scanner looks at
    the same position for a match that is not empty ([must_advance]). *)
Fixpoint finditer_from (r : regex) (n p resume : nat) : list rmatch :=
  let next resume' :=
    match n with
    | 0 => []
    | S n' => finditer_from r n' (S p) resume'
    end in
  if p <? resume then next resume
  else
    match match_at r p with
    | None => next resume
    | Some m =>
        if p <? m_end m then m :: next (m_end m)
        else match match_at_nonempty r p with
             | Some m' => m :: m' :: next (m_end m')
             | None => m :: next resume
             end
    end.

Definition finditer (r : regex) : list rmatch := finditer_from r (length s) 0 0.

(** [m.group(n)]; [None] when the group did not take part in the match. *)
Fixpoint span_of (n : nat) (cs : list (nat * (nat * nat))) : option (nat * nat) :=
  match cs with
  | [] => None
  | (k, ab) :: cs' => if k =? n then Some ab else span_of n cs'
  end.

Definition group (m : rmatch) (n : nat) : option text :=
  option_map (fun ab => slice s (fst ab) (snd ab)) (span_of n (m_caps m)).

(** A group as the script uses it; every group of its patterns takes part
    in every match. *)
Definition group_text (m : rmatch) (n : nat) : text :=
  match group m n with
  | Some t => t
  | None => []
  end.

(** A pattern whose matches are never empty. *)
Definition advancing (r : regex) : Prop :=
  forall p m, match_at r p = Some m -> p < m_end m.

(** The matches of a scan: each is the match at its start, and starts at or
    after the end of the one before. *)
Fixpoint chain (r : regex) (lo : nat) (ms : list rmatch) : Prop :=
  match ms with
  | [] => True
  | m :: ms' =>
      lo <= m_start m /\ m_start m < m_end m
      /\ match_at r (m_start m) = Some m
      /\ chain r (m_end m) ms'
  end.

End Matcher.


(** ** The script *)

(** [\s] and [\d] *)
Definition space : regex := Cls is_space.
Definition digit : regex := Cls is_digit.

(** [[^>]] *)
Definition not_gt (c : ascii) : bool := negb (Ascii.eqb c ">"%char).

Definition DOTALL : flags := {| multiline := false; dotall := true |}.
Definition MULTILINE : flags := {| multiline := true; dotall := false |}.
Definition MULTILINE_DOTALL : flags := {| multiline := true; dotall := true |}.

(** [r'<pre[^>]*>(.*?)</pre>'], used with [re.DOTALL]. *)
Definition pre_regex : regex :=
  Seq (Word (lit "<pre"))
 (Seq (Star Greedy (Cls not_gt))
 (Seq (Chr ">")
 (Seq (Grp 1 (Star Lazy Dot))
      (Word (lit "</pre>"))))).

(** The labels of the chapters, in the order of the alternation. *)
Definition numerals : list text :=
  map lit ["I"; "II"; "III"; "IV"; "V"; "VI"; "VII"; "VIII"; "IX"; "X";
           "XI"; "XII"; "XIII"]%string.

(** [I|II|III|IV|V|VI|VII|VIII|IX|X|XI|XII|XIII] *)
Definition numeral_alt : regex :=
  Alts (Word (lit "I")) (map Word (tl numerals)).

(** [chapter_regex], compiled with [re.MULTILINE]:
    [^(I|...|XIII)\.\s+(.*?)\n((?:.|\n)*?)(?=^(?:I|...|XIII)\.|\Z)] *)
Definition chapter_regex : regex :=
  Seq Caret
 (Seq (Grp 1 numeral_alt)
 (Seq (Chr ".")
 (Seq (Plus Greedy space)
 (Seq (Grp 2 (Star Lazy Dot))
 (Seq (Chr nl)
 (Seq (Grp 3 (Star Lazy (Alt Dot (Chr nl))))
      (Ahead (Alt (Seq Caret (Seq numeral_alt (Chr "."))) EndZ)))))))).

(** The pattern of the numbered lines, used with [re.MULTILINE | re.DOTALL]:
    [^\s*\d+\.\s+(.*?)(?=\n\s*\d+\.|\n\s*I|II|III|IV|V|VI|VII|VIII|IX|X|XI|XII|XIII\.\s|\Z)].
    The alternation of the lookahead has the fifteen branches listed here. *)
Definition line_stop : regex :=
  Alts (Seq (Chr nl) (Seq (Star Greedy space) (Seq (Plus Greedy digit) (Chr "."))))
       [ Seq (Chr nl) (Seq (Star Greedy space) (Chr "I"));
         Word (lit "II"); Word (lit "III"); Word (lit "IV"); Word (lit "V");
         Word (lit "VI"); Word (lit "VII"); Word (lit "VIII"); Word (lit "IX");
         Word (lit "X"); Word (lit "XI"); Word (lit "XII");
         Seq (Word (lit "XIII")) (Seq (Chr ".") space);
         EndZ ].

Definition line_regex : regex :=
  Seq Caret
 (Seq (Star Greedy space)
 (Seq (Plus Greedy digit)
 (Seq (Chr ".")
 (Seq (Plus Greedy space)
 (Seq (Grp 1 (Star Lazy Dot))
      (Ahead line_stop)))))).

(** The failures of reading the payload.  [SourceUnavailable] is the
    [FileNotFoundError] of [open]; [EnvelopeNotFound] is the
    [ValueError("No <pre> tag found in the file: ...")] and [EmptyPayload]
    the [ValueError("Empty <pre> tag in the file: ...")].  The script prints
    the error and calls [quit()] on each of them. *)
Inductive error := SourceUnavailable | EnvelopeNotFound | EmptyPayload.

Inductive result (A : Type) :=
| Ok (a : A)
| Raise (e : error).
Arguments Ok {A} a.
Arguments Raise {A} e.

(** The search for the <pre> element and the two checks on it. *)
Definition read_pre (html_content : text) : result text :=
  match search DOTALL html_content pre_regex with
  | None => Raise EnvelopeNotFound
  | Some pre_match =>
      let full_text := strip (group_text html_content pre_match 1) in
      match full_text with
      | [] => Raise EmptyPayload
      | _ :: _ => Ok full_text
      end
  end.

(** Step 1: [main_content, _, footer = map(str.strip, full_text.partition('THE END'))] *)
Definition split_document (full_text : text) : text * text :=
  match partition (lit "THE END") full_text with
  | (a, _, b) => (strip a, strip b)
  end.

(** Step 2: [copyright_info = footer.split('---', 1)[-1].strip()] *)
Definition copyright_of (footer : text) : text :=
  strip (split1_last (lit "---") footer).

Record chapter := {
  chapter_number : text;
  chapter_title : text;
  content : list text
}.

(** [re.findall] of the pattern of the numbered lines: the pattern has one
    group, so the result is the text of that group for each match. *)
Definition find_lines (content_block : text) : list text :=
  map (fun m => group_text content_block m 1)
      (finditer MULTILINE_DOTALL content_block line_regex).

(** The body of the loop over the matches of [chapter_regex]. *)
Definition chapter_of (main_content : text) (m : rmatch) : chapter :=
  let roman_numeral := group_text main_content m 1 in
  let title := group_text main_content m 2 in
  let content_block := group_text main_content m 3 in
  let lines := find_lines content_block in
  {| chapter_number := roman_numeral;
     chapter_title := strip title;
     content := map strip lines |}.

(** Step 4 *)
Definition find_chapters (main_content : text) : list chapter :=
  map (chapter_of main_content) (finditer MULTILINE main_content chapter_regex).

Record meta_info := {
  name : text;            (* "name" *)
  by_ : text;             (* "by" *)
  translated_by : text    (* "translated-by" *)
}.

Record document := {
  meta : meta_info;
  chapters : list chapter;
  copyright : text
}.

Definition the_meta : meta_info :=
  {| name := lit "Art of War"; by_ := lit "Sun Tzu";
     translated_by := lit "Lionel Giles" |}.

(** Steps 1 to 5: from the text of the <pre> element to [processed_data]. *)
Definition parse_text (full_text : text) : document :=
  let (main_content, footer) := split_document full_text in
  let copyright_info := copyright_of footer in
  {| meta := the_meta;
     chapters := find_chapters main_content;
     copyright := copyright_info |}.

(** What the script can see of the file system: the text of the files it
    can read, and whether a path can be written. *)
Record world := {
  files : string -> option text;
  writable : string -> bool
}.

(** How a run ends: with [quit()] after an error, with [processed_data]
    dumped to the output file, or with the message of the failed write. *)
Inductive outcome :=
| Aborted (e : error)
| Written (path : string) (data : document)
| WriteFailure.

Definition read_payload (w : world) (input_path : string) : result text :=
  match files w input_path with
  | None => Raise SourceUnavailable
  | Some html_content => read_pre html_content
  end.

Definition process_document (w : world) (input_path output_path : string) : outcome :=
  match read_payload w input_path with
  | Raise e => Aborted e
  | Ok full_text =>
      let processed_data := parse_text full_text in
      if writable w output_path then Written output_path processed_data
      else WriteFailure
  end.

Definition NL : string := String nl EmptyString.

Definition scenario1 : text :=
  lit ("I. A" ++ NL ++ " 1. x" ++ NL ++ " 2. y" ++ NL ++ NL ++ "II. B" ++ NL
       ++ " 1. z" ++ NL ++ NL ++ "THE END" ++ NL ++ "---" ++ NL ++ "C 2025")%string.


(** ** Notions used in the statements *)

(** [sep] occurs in [s] at the index [i]. *)
Definition occurs_at (sep s : text) (i : nat) : Prop :=
  exists a b, s = a ++ sep ++ b /\ length a = i.

(** [sep] occurs in [a ++ sep ++ b] for the first time after [a]. *)
Definition first_occurrence (sep s a b : text) : Prop :=
  s = a ++ sep ++ b /\ forall i, i < length a -> ~ occurs_at sep s i.

Definition absent (sep s : text) : Prop := forall i, ~ occurs_at sep s i.

(** A line that begins with one of the numerals and a period starts at [p]
    (what the lookahead of [chapter_regex] looks for). *)
Definition numeral_line (body : text) (p : nat) : bool :=
  at_line_start MULTILINE body p
  && existsb (fun w => starts_with (w ++ ["."%char]) (skipn p body)) numerals.

(** A chapter-start line starts at [p]: one of the numerals, a period and a
    white-space character, at the start of a line. *)
Definition chapter_start (body : text) (p : nat) : bool :=
  at_line_start MULTILINE body p
  && existsb (fun w =>
                starts_with (w ++ ["."%char]) (skipn p body)
                && match nth_error body (p + length w + 1) with
                   | Some c => is_space c
                   | None => false
                   end) numerals.

(** The number of chapter-start lines of [body]. *)
Definition count_chapter_starts (body : text) : nat :=
  length (filter (chapter_start body) (seq 0 (S (length body)))).

(** The chapter-start line at [p] has a title: for the numeral [w] that
    stands there, the rest of the line after the period is not blank and ends
    with a newline. *)
Definition titled (body : text) (p : nat) : bool :=
  forallb (fun w =>
             implb (starts_with (w ++ ["."%char]) (skipn p body))
                   (let a := p + length w + 1 in
                    let k := span_len (fun c => negb (Ascii.eqb c nl)) (skipn a body) in
                    negb (forallb is_space (slice body a (a + k)))
                    && match nth_error body (a + k) with
                       | Some _ => true
                       | None => false
                       end)) numerals.

(** The documented pattern: every chapter-start line of the body has a
    title and a newline after it. *)
Definition well_formed_body (body : text) : bool :=
  forallb (fun p => implb (chapter_start body p) (titled body p))
          (seq 0 (S (length body))).

(** Where the content block of a chapter stops: at a line that begins with a
    numeral and a period, or at the end of the body. *)
Definition content_stop (body : text) (j : nat) : bool :=
  numeral_line body j || (j =? length body).

Definition not_nl (c : ascii) : bool := negb (Ascii.eqb c nl).

(** The parts of the match of [chapter_regex] that starts at [p]: the numeral
    [w], the white space up to [p2], the title up to the newline at [q], the
    content block up to [e]. *)
Record chapter_span (body : text) (p : nat) (w : text) (p2 q e : nat) : Prop := {
  cs_line : at_line_start MULTILINE body p = true;
  cs_numeral : In w numerals;
  cs_label : slice body p (p + length w) = w;
  cs_dot : nth_error body (p + length w) = Some "."%char;
  cs_space_len : p + length w + 1 < p2;
  cs_space : forallb is_space (slice body (p + length w + 1) p2) = true;
  cs_title_len : p2 <= q;
  cs_title : forallb not_nl (slice body p2 q) = true;
  cs_newline : nth_error body q = Some nl;
  cs_content : S q <= e <= length body;
  cs_stop : content_stop body e = true;
  cs_first : forall j, S q <= j < e -> content_stop body j = false
}.

(** The text has an opening delimiter, "<pre", characters other than ">"
    and ">", and after it the closing delimiter "</pre>". *)
Definition has_pre (html : text) : Prop :=
  exists a attr b c,
    html = a ++ lit "<pre" ++ attr ++ [">"%char] ++ b ++ lit "</pre>" ++ c
    /\ forallb not_gt attr = true.

(** A pattern without capturing groups. *)
Fixpoint group_free (r : regex) : bool :=
  match r with
  | Grp _ _ => false
  | Seq r1 r2 | Alt r1 r2 => group_free r1 && group_free r2
  | Star _ r' | Ahead r' => group_free r'
  | _ => true
  end.

(** At [j] there is a newline, then white space, then a number and a period:
    the next numbered line, as the lookahead of the pattern of the numbered
    lines sees it (its first branch). *)
Definition numbered_line_next (block : text) (j : nat) : bool :=
  match nth_error block j with
  | Some c =>
      Ascii.eqb c nl
      && (let t := dropwhile is_space (skipn (S j) block) in
          (1 <=? span_len is_digit t)
          && starts_with ["."%char] (skipn (span_len is_digit t) t))
  | None => false
  end.

(** The parts of the match of the pattern of the numbered lines that starts
    at [p]: white space up to [d1], the number up to [d2], the period, white
    space up to [a], and the text of the entry up to [e]. *)
Record line_span (block : text) (p d1 d2 a e : nat) : Prop := {
  ls_line : at_line_start MULTILINE_DOTALL block p = true;
  ls_indent_len : p <= d1;
  ls_indent : forallb is_space (slice block p d1) = true;
  ls_number_len : d1 < d2;
  ls_number : forallb is_digit (slice block d1 d2) = true;
  ls_dot : nth_error block d2 = Some "."%char;
  ls_space_len : S d2 < a;
  ls_space : forallb is_space (slice block (S d2) a) = true;
  ls_text : a <= e <= length block;
  ls_no_next : forall j, a <= j < e -> numbered_line_next block j = false;
  ls_no_V : forall j, a <= j < e -> nth_error block j <> Some "V"%char;
  ls_no_X : forall j, a <= j < e -> nth_error block j <> Some "X"%char
}.

(** The lookahead of the pattern of the numbered lines with its numerals
    grouped, [(?=\n\s*\d+\.|\n\s*(?:I|...|XIII)\.\s|\Z)]: the stops that the
    comment in the script names (the next numbered line, the next chapter, the
    end).  This is not the pattern of the script; it serves to show what the
    missing group changes. *)
Definition line_stop_grouped : regex :=
  Alts (Seq (Chr nl) (Seq (Star Greedy space) (Seq (Plus Greedy digit) (Chr "."))))
       [ Seq (Chr nl) (Seq (Star Greedy space)
                         (Seq numeral_alt (Seq (Chr ".") space)));
         EndZ ].

Definition line_regex_grouped : regex :=
  Seq Caret
 (Seq (Star Greedy space)
 (Seq (Plus Greedy digit)
 (Seq (Chr ".")
 (Seq (Plus Greedy space)
 (Seq (Grp 1 (Star Lazy Dot))
      (Ahead line_stop_grouped)))))).

Definition find_lines_grouped (content_block : text) : list text :=
  map (fun m => group_text content_block m 1)
      (finditer MULTILINE_DOTALL content_block line_regex_grouped).

(** The marker of the numbered line [i]: its decimal number, a period and a
    space. *)
Definition line_marker (i : nat) : text :=
  lit (DecimalString.NilEmpty.string_of_uint (Nat.to_uint i)) ++ lit ". ".

(** A content block made of the given entries: one line for each, with the
    markers 1., 2., ... put back. *)
Definition reinsert_markers (entries : list text) : text :=
  concat (map (fun ie => line_marker (fst ie) ++ snd ie ++ [nl])
              (combine (seq 1 (length entries)) entries)).

(** ** Inputs of the examples *)

Definition body_two_starts : text :=
  lit "I. A" ++ [nl] ++ lit " 1. x" ++ [nl] ++ lit "II. B".

Definition body_blank_title : text :=
  lit "I. " ++ [nl] ++ lit "II. B" ++ [nl] ++ lit "foo".

Definition body_initials : text :=
  lit "I. A" ++ [nl] ++ lit "1. x" ++ [nl] ++ lit "V.S" ++ [nl] ++ lit "2. y".

Definition payload_with_footer : text := lit "a THE END x---b ".

Definition html_scenario1 : text :=
  lit "<html><pre class='t'>" ++ [nl] ++ scenario1 ++ [nl] ++ lit "</pre></html>".

(** A file system with one readable file, ["orig.html"]. *)
Definition one_file (html : text) (can_write : bool) : world :=
  {| files := fun path => if String.eqb path "orig.html" then Some html else None;
     writable := fun _ => can_write |}.

Definition block_with_V : text := lit " 1. a V b".

Definition body_with_V : text := lit "I. A" ++ [nl] ++ block_with_V.

(** An input file whose <pre> element holds [payload]. *)
Definition html_of (payload : text) : text :=
  lit "<pre>" ++ payload ++ lit "</pre>".

Definition block_with_X : text := lit " 1. X" ++ [nl] ++ lit " 2. foo".

Definition body_with_X : text := lit "I. A" ++ [nl] ++ block_with_X.

(** ** The rest of the script *)

(** [dummy_content] of [create_dummy_file]: the triple-quoted text, which
    starts and ends with a newline. *)
Definition dummy_content : text :=
  [nl] ++ lit "I. The Journey Begins" ++
  [nl] ++ lit "  1. The old map was discovered in a dusty attic." ++
  [nl] ++ lit "  2. A secret was hidden within its faded lines." ++
  [nl] ++
  [nl] ++ lit "II. Into the Woods" ++
  [nl] ++ lit "  1. The path was overgrown and treacherous." ++
  [nl] ++
  [nl] ++ lit "XIII. The Treasure" ++
  [nl] ++ lit "  1. After a long search, the chest was unearthed." ++
  [nl] ++ lit "  2. It was filled not with gold, but with ancient books." ++
  [nl] ++
  [nl] ++ lit "THE END" ++
  [nl] ++ lit "-----------------------" ++
  [nl] ++ lit "Copyright 2025, The Adventure Company. All Rights Reserved." ++
  [nl].

(** [open(path, 'w')] and [f.write(t)]: the file at [path] now holds [t];
    [None] when the path cannot be written (the exception of [open]). *)
Definition write_text (w : world) (path : string) (t : text) : option world :=
  if writable w path
  then Some {| files := fun p => if String.eqb p path then Some t else files w p;
               writable := writable w |}
  else None.

(** [create_dummy_file(path)] writes [dummy_content.strip()]; the exception
    of a failed [open] is not caught. *)
Definition create_dummy_file (w : world) (path : string) : option world :=
  write_text w path (strip dummy_content).

(** The paths of the [__main__] block and its call. *)
Definition input_file : string := "orig.html".
Definition output_file : string := "aow.json".

Definition main (w : world) : outcome :=
  process_document w input_file output_file.

(** A separator line: [n] hyphens. *)
Definition hyphens (n : nat) : text := repeat "-"%char n.

(** Stretches of a text, each given by its first position and the position
    after its last: none is empty, they come in order, and none starts before
    [lo] or before the end of the one before it. *)
Fixpoint spans_from (lo : nat) (spans : list (nat * nat)) : Prop :=
  match spans with
  | [] => True
  | ab :: rest => lo <= fst ab /\ fst ab < snd ab /\ spans_from (snd ab) rest
  end.

(** The period at [j] has a digit right before it. *)
Definition digit_before (block : text) (j : nat) : bool :=
  match j with
  | 0 => false
  | S i => match nth_error block i with
           | Some c => is_digit c
           | None => false
           end
  end.

(** An entry that can be put back into a content block and found again: it
    is not empty, has no white space at either end, is a single line, and
    contains no "V", no "X" and no "II". *)
Definition plain_entry (e : text) : Prop :=
  e <> [] /\ strip e = e /\ ~ In nl e
  /\ ~ In "V"%char e /\ ~ In "X"%char e /\ absent (lit "II") e.

(** A content block written out from numbers and entries: for each pair the
    digits of the number, a period, a space, the entry and a newline. *)
Definition numbered_block (l : list (text * text)) : text :=
  concat (map (fun de => fst de ++ lit ". " ++ snd de ++ [nl]) l).

(** A line of such a block: the number has a digit and only digits, and the
    entry is a plain one. *)
Definition numbered_line (de : text * text) : Prop :=
  fst de <> [] /\ forallb is_digit (fst de) = true /\ plain_entry (snd de).

(** A numbered line starts at [p]: [p] is the start of a line, and what
    follows is white space, a number, a period and a white-space character
    (the part of the pattern of the numbered lines before its group). *)
Definition marker_at (block : text) (p : nat) : bool :=
  at_line_start MULTILINE_DOTALL block p
  && (let t := dropwhile is_space (skipn p block) in
      let n := span_len is_digit t in
      (1 <=? n)
      && starts_with ["."%char] (skipn n t)
      && (1 <=? span_len is_space (skipn (S n) t))).

(** A numbered line as it is written: indentation, the digits of the
    number, a period, a gap and the entry. *)
Record line_src := {
  l_indent : text;
  l_number : text;
  l_gap : text;
  l_entry : text
}.

Definition line_text (x : line_src) : text :=
  l_indent x ++ l_number x ++ "."%char :: l_gap x ++ l_entry x.

(** White space that stays on its line. *)
Definition gap_ok (g : text) : Prop :=
  g <> [] /\ forallb is_space g = true /\ ~ In nl g.

Definition line_ok (x : line_src) : Prop :=
  forallb is_space (l_indent x) = true
  /\ l_number x <> [] /\ forallb is_digit (l_number x) = true
  /\ gap_ok (l_gap x)
  /\ plain_entry (l_entry x).

(** The lines with a newline between one and the next, and [tail] after
    the last. *)
Fixpoint lines_text (l : list line_src) (tail : text) : text :=
  match l with
  | [] => tail
  | x :: l' =>
      line_text x ++ match l' with
                     | [] => tail
                     | _ :: _ => nl :: lines_text l' tail
                     end
  end.

(** A chapter as it is written: the numeral, a period, a gap, the title, a
    newline, the numbered lines, and blank lines after them. *)
Record chapter_src := {
  c_numeral : text;
  c_gap : text;
  c_title : text;
  c_lines : list line_src;
  c_blank : text
}.

Definition title_ok (t : text) : Prop :=
  t <> [] /\ strip t = t /\ ~ In nl t.

(** White space that ends its line, if there is any of it. *)
Definition blank_ok (b : text) : Prop :=
  forallb is_space b = true /\ (b = [] \/ exists b', b = b' ++ [nl]).

Definition chapter_ok (c : chapter_src) : Prop :=
  In (c_numeral c) numerals /\ gap_ok (c_gap c) /\ title_ok (c_title c)
  /\ Forall line_ok (c_lines c) /\ blank_ok (c_blank c).

Definition chapter_head (c : chapter_src) : text :=
  c_numeral c ++ "."%char :: c_gap c ++ c_title c ++ [nl].

(** A chapter that has another one after it: each of its lines ends with a
    newline, and blank lines may follow. *)
Definition chapter_text (c : chapter_src) : text :=
  chapter_head c
  ++ concat (map (fun x => line_text x ++ [nl]) (c_lines c)) ++ c_blank c.

(** The last chapter of a body: nothing after its last line. *)
Definition last_chapter_text (c : chapter_src) : text :=
  chapter_head c ++ lines_text (c_lines c) [].

Definition body_text (cs : list chapter_src) (last : chapter_src) : text :=
  concat (map chapter_text cs) ++ last_chapter_text last.

(** The chapter that the script is to make of it. *)
Definition parsed_chapter (c : chapter_src) : chapter :=
  {| chapter_number := c_numeral c;
     chapter_title := c_title c;
     content := map l_entry (c_lines c) |}.

(** Every character of [t] that begins a line is a white-space character
    or a digit; [after_nl] tells whether [t] itself begins a line. *)
Fixpoint line_heads (after_nl : bool) (t : text) : bool :=
  match t with
  | [] => true
  | c :: t' =>
      (if after_nl then is_space c || is_digit c else true)
      && line_heads (Ascii.eqb c nl) t'
  end.

(** The sample text of [create_dummy_file], chapter by chapter. *)
Definition sample_line (n e : string) : line_src :=
  {| l_indent := lit "  "; l_number := lit n; l_gap := lit " ";
     l_entry := lit e |}.

Definition sample_chapters : list chapter_src :=
  [ {| c_numeral := lit "I"; c_gap := lit " ";
       c_title := lit "The Journey Begins";
       c_lines :=
         [ sample_line "1" "The old map was discovered in a dusty attic.";
           sample_line "2" "A secret was hidden within its faded lines." ];
       c_blank := [nl] |};
    {| c_numeral := lit "II"; c_gap := lit " ";
       c_title := lit "Into the Woods";
       c_lines := [ sample_line "1" "The path was overgrown and treacherous." ];
       c_blank := [nl] |} ].

Definition sample_last : chapter_src :=
  {| c_numeral := lit "XIII"; c_gap := lit " ";
     c_title := lit "The Treasure";
     c_lines :=
       [ sample_line "1" "After a long search, the chest was unearthed.";
         sample_line "2" "It was filled not with gold, but with ancient books." ];
     c_blank := [] |}.

Definition sample_footer : text :=
  [nl] ++ hyphens 23 ++ [nl]
  ++ lit "Copyright 2025, The Adventure Company. All Rights Reserved.".

(** ** The segmenter as its contract words it *)

(** The end of the line that [j] is in: the position of the first newline at
    or after [j], or the end of the body. *)
Definition line_end (body : text) (j : nat) : nat :=
  j + span_len not_nl (skipn j body).

(** The numeral of the list that stands at [p] with a period right after
    it. *)
Definition label_at (body : text) (p : nat) : text :=
  match find (fun w => starts_with (w ++ ["."%char]) (skipn p body)) numerals with
  | Some w => w
  | None => []
  end.

(** The chapter-start line at [p] has a title: the rest of its line after
    the period is not blank. *)
Definition has_title (body : text) (p : nat) : bool :=
  let a := p + length (label_at body p) + 1 in
  negb (forallb is_space (slice body a (line_end body a))).

(** Every chapter-start line of the body has a title. *)
Definition titles_not_blank (body : text) : bool :=
  forallb (fun p => implb (chapter_start body p) (has_title body p))
          (seq 0 (S (length body))).

(** Every line of the body that begins with a numeral and a period is a
    chapter-start line: white space follows the period. *)
Definition numeral_lines_spaced (body : text) : bool :=
  forallb (fun p => implb (numeral_line body p) (chapter_start body p))
          (seq 0 (S (length body))).

(** The line that starts at [p] ends with a newline. *)
Definition ends_with_newline (body : text) (p : nat) : bool :=
  line_end body p <? length body.

(** The chapter-start lines that end with a newline, in the order of the
    body. *)
Definition chapter_lines (body : text) : list nat :=
  filter (fun p => chapter_start body p && ends_with_newline body p)
         (seq 0 (S (length body))).

(** The first chapter-start line at or after [j], or the end of the body. *)
Definition next_start (body : text) (j : nat) : nat :=
  match find (chapter_start body) (seq j (length body - j)) with
  | Some e => e
  | None => length body
  end.

(** The chapter of the chapter-start line at [p]: its numeral, the stripped
    rest of its line, and the entries of the block that runs from the next
    line to the next chapter-start line or the end of the body. *)
Definition chapter_at (body : text) (p : nat) : chapter :=
  let w := label_at body p in
  let a := p + length w + 1 in
  let n := line_end body a in
  {| chapter_number := w;
     chapter_title := strip (slice body a n);
     content := map strip (find_lines (slice body (S n) (next_start body (S n)))) |}.

(** Where the matches of [chapter_regex] start, in the order in which the
    loop of the script visits them. *)
Definition chapter_positions (body : text) : list nat :=
  map m_start (finditer MULTILINE body chapter_regex).

(** What the contract of the segmenter asks for. *)
Definition segmenter_spec (body : text) : list chapter :=
  map (chapter_at body) (chapter_lines body).

(** The numbered line at [p] has an entry on its line: the rest of the line
    after the period of its marker is not blank. *)
Definition marker_has_text (block : text) (p : nat) : bool :=
  let t := dropwhile is_space (skipn p block) in
  let r := skipn (S (span_len is_digit t)) t in
  negb (forallb is_space (firstn (span_len not_nl r) r)).

(** No numbered line of the block has an empty entry. *)
Definition no_empty_entries (block : text) : bool :=
  forallb (fun p => implb (marker_at block p) (marker_has_text block p))
          (seq 0 (S (length block))).

(** A body in which the numeral [I] stands twice, out of sequence. *)
Definition body_repeated : text :=
  lit "II. A" ++ [nl] ++ lit " 1. x" ++ [nl] ++ lit "I. B" ++ [nl]
  ++ lit " 1. y" ++ [nl] ++ lit "I. C" ++ [nl] ++ lit " 1. z" ++ [nl].

(** A block whose second numbered line has no text. *)
Definition block_empty_entry : text :=
  lit "1. a" ++ [nl] ++ lit "2. " ++ [nl] ++ lit "3. c".
(** * Properties *)

Local Arguments Ascii.eqb : simpl never.

(** ** Lists *)

Lemma nth_error_skipn_cons (A : Type) (l : list A) (i : nat) (x : A) :
  nth_error l i = Some x -> skipn i l = x :: skipn (S i) l.
Proof.
  revert i; induction l as [|y l IH]; intros [|i] H; simpl in *; try discriminate.
  - now inversion H.
  - now apply IH.
Qed.

Lemma skipn_nil_ge (A : Type) (l : list A) (i : nat) :
  length l <= i -> skipn i l = [].
Proof. intros H. now apply skipn_all2. Qed.

Lemma nth_error_skipn_hd (A : Type) (l : list A) (i : nat) :
  nth_error l i = hd_error (skipn i l).
Proof.
  revert i; induction l as [|y l IH]; intros [|i]; simpl; auto.
Qed.

Lemma skipn_cons_inv (A : Type) (l t : list A) (i : nat) (x : A) :
  skipn i l = x :: t -> nth_error l i = Some x /\ t = skipn (S i) l.
Proof.
  intros E. split.
  - now rewrite nth_error_skipn_hd, E.
  - change (S i) with (1 + i). now rewrite <- skipn_skipn, E.
Qed.

(** ** Text *)

Lemma dropwhile_all p (s : text) :
  forallb p s = true -> dropwhile p s = [].
Proof.
  induction s as [|c s IH]; simpl; auto.
  intros H. apply andb_prop in H as [Hc Hs]. rewrite Hc. auto.
Qed.

Lemma dropwhile_app_all p (w x : text) :
  forallb p w = true -> dropwhile p (w ++ x) = dropwhile p x.
Proof.
  induction w as [|c w IH]; simpl; auto.
  intros H. apply andb_prop in H as [Hc Hw]. rewrite Hc. auto.
Qed.

Lemma dropwhile_head p (s : text) :
  match dropwhile p s with
  | [] => True
  | c :: _ => p c = false
  end.
Proof.
  induction s as [|c s IH]; simpl; auto.
  destruct (p c) eqn:E; auto.
Qed.

Lemma dropwhile_fix p (s : text) :
  match s with [] => True | c :: _ => p c = false end ->
  dropwhile p s = s.
Proof. destruct s as [|c s]; simpl; auto. now intros ->. Qed.

Lemma dropwhile_idem p (s : text) :
  dropwhile p (dropwhile p s) = dropwhile p s.
Proof. apply dropwhile_fix, dropwhile_head. Qed.

(** What [dropwhile] removes is a prefix of characters of the class. *)
Lemma dropwhile_split p (s : text) :
  exists w, s = w ++ dropwhile p s /\ forallb p w = true.
Proof.
  induction s as [|c s (w & Hw & Hp)]; simpl.
  - now exists [].
  - destruct (p c) eqn:E.
    + exists (c :: w). simpl. rewrite E. split; auto. now f_equal.
    + now exists [].
Qed.

Lemma rstrip_split (s : text) :
  exists w, s = rstrip s ++ w /\ forallb is_space w = true.
Proof.
  unfold rstrip.
  destruct (dropwhile_split is_space (rev s)) as (w & Hw & Hp).
  exists (rev w). split.
  - rewrite <- rev_app_distr, <- Hw. now rewrite rev_involutive.
  - rewrite forallb_forall in *. intros c Hc. apply Hp. now apply in_rev.
Qed.

(** [strip] removes white space at both ends and nothing else. *)
Lemma strip_split (s : text) :
  exists l r, s = l ++ strip s ++ r
              /\ forallb is_space l = true /\ forallb is_space r = true.
Proof.
  unfold strip, lstrip.
  destruct (dropwhile_split is_space s) as (l & Hl & Hpl).
  destruct (rstrip_split (dropwhile is_space s)) as (r & Hr & Hpr).
  exists l, r. repeat split; auto. now rewrite <- Hr.
Qed.

Lemma rstrip_idem (s : text) : rstrip (rstrip s) = rstrip s.
Proof. unfold rstrip. now rewrite rev_involutive, dropwhile_idem. Qed.

Lemma strip_idem (s : text) : strip (strip s) = strip s.
Proof.
  unfold strip at 1. unfold lstrip at 1.
  rewrite dropwhile_fix.
  - unfold strip. apply rstrip_idem.
  - unfold strip.
    destruct (rstrip_split (lstrip s)) as (w & Hw & _).
    destruct (rstrip (lstrip s)) as [|c t] eqn:E; auto.
    pose proof (dropwhile_head is_space s) as Hh.
    unfold lstrip in Hw. rewrite Hw in Hh. exact Hh.
Qed.

Lemma strip_blank (s : text) : forallb is_space s = true -> strip s = [].
Proof.
  intros H. unfold strip, lstrip. now rewrite dropwhile_all.
Qed.

Lemma strip_app_blank_l (w s : text) :
  forallb is_space w = true -> strip (w ++ s) = strip s.
Proof.
  intros H. unfold strip, lstrip. now rewrite dropwhile_app_all.
Qed.

(** The stripped text neither starts nor ends with white space. *)
Lemma strip_head (s : text) :
  match strip s with [] => True | c :: _ => is_space c = false end.
Proof.
  rewrite <- strip_idem. unfold strip at 1. unfold lstrip.
  destruct (rstrip_split (dropwhile is_space (strip s))) as (w & Hw & _).
  pose proof (dropwhile_head is_space (strip s)) as Hh.
  rewrite Hw in Hh.
  destruct (rstrip (dropwhile is_space (strip s))); auto.
Qed.

Lemma strip_last (s : text) :
  match rev (strip s) with [] => True | c :: _ => is_space c = false end.
Proof.
  unfold strip, rstrip. rewrite rev_involutive. apply dropwhile_head.
Qed.

Lemma starts_with_iff (w t : text) :
  starts_with w t = true <-> exists b, t = w ++ b.
Proof.
  revert t; induction w as [|a w IH]; intros t; simpl.
  - split; eauto.
  - destruct t as [|c t].
    + split; [discriminate | intros (b & Hb); discriminate].
    + rewrite andb_true_iff, Ascii.eqb_eq, IH. split.
      * intros (-> & b & ->). eauto.
      * intros (b & Hb). inversion Hb; subst. eauto.
Qed.

Lemma starts_with_app (w b : text) : starts_with w (w ++ b) = true.
Proof. apply starts_with_iff. eauto. Qed.

Lemma occurs_at_iff (sep s : text) (i : nat) :
  i <= length s ->
  (starts_with sep (skipn i s) = true <-> occurs_at sep s i).
Proof.
  intros Hi. rewrite starts_with_iff. split.
  - intros (b & Hb). exists (firstn i s), b. split.
    + now rewrite <- Hb, firstn_skipn.
    + rewrite length_firstn. lia.
  - intros (a & b & -> & <-). exists b.
    now rewrite skipn_app, skipn_all, Nat.sub_diag.
Qed.

Lemma partition_here (sep s : text) :
  starts_with sep s = true ->
  partition sep s = ([], sep, skipn (length sep) s).
Proof. destruct s; simpl; now intros ->. Qed.

Lemma partition_next (sep s : text) (c : ascii) :
  starts_with sep (c :: s) = false ->
  partition sep (c :: s)
  = match partition sep s with (a, m, b) => (c :: a, m, b) end.
Proof. simpl. now intros ->. Qed.

Lemma partition_found (sep a b : text) :
  sep <> [] ->
  (forall i, i < length a -> ~ occurs_at sep (a ++ sep ++ b) i) ->
  partition sep (a ++ sep ++ b) = (a, sep, b).
Proof.
  intros Hsep. induction a as [|c a IH]; intros Hfirst.
  - change ([] ++ sep ++ b) with (sep ++ b).
    rewrite (partition_here sep (sep ++ b) (starts_with_app sep b)).
    now rewrite skipn_app, skipn_all, Nat.sub_diag.
  - change ((c :: a) ++ sep ++ b) with (c :: (a ++ sep ++ b)).
    rewrite partition_next, IH; auto.
    + intros i Hi (a' & b' & Heq & Hlen).
      apply (Hfirst (S i)); [simpl; lia|].
      exists (c :: a'), b'. simpl. split; congruence.
    + destruct (starts_with sep (c :: a ++ sep ++ b)) eqn:E; auto.
      exfalso. apply (Hfirst 0); [simpl; lia|].
      apply (occurs_at_iff sep ((c :: a) ++ sep ++ b) 0); [simpl; lia | exact E].
Qed.

Lemma partition_absent (sep s : text) :
  sep <> [] ->
  (forall i, ~ occurs_at sep s i) ->
  partition sep s = (s, [], []).
Proof.
  intros Hsep. induction s as [|c s IH]; intros Habs.
  - simpl. destruct sep; [congruence | reflexivity].
  - rewrite partition_next, IH; auto.
    + intros i (a' & b' & Heq & Hlen). apply (Habs (S i)).
      exists (c :: a'), b'. simpl. split; congruence.
    + destruct (starts_with sep (c :: s)) eqn:E; auto.
      exfalso. apply (Habs 0).
      apply (occurs_at_iff sep (c :: s) 0); [simpl; lia | exact E].
Qed.

Lemma split_document_found (payload a b : text) :
  first_occurrence (lit "THE END") payload a b ->
  split_document payload = (strip a, strip b).
Proof.
  intros [-> Hfirst]. unfold split_document.
  rewrite partition_found; auto. discriminate.
Qed.

Lemma split_document_absent (payload : text) :
  absent (lit "THE END") payload ->
  split_document payload = (strip payload, []).
Proof.
  intros Habs. unfold split_document.
  rewrite partition_absent; auto. discriminate.
Qed.

Lemma copyright_of_found (footer a b : text) :
  first_occurrence (lit "---") footer a b ->
  copyright_of footer = strip b.
Proof.
  intros [-> Hfirst]. unfold copyright_of, split1_last.
  rewrite partition_found; auto. discriminate.
Qed.

Lemma copyright_of_absent (footer : text) :
  absent (lit "---") footer ->
  copyright_of footer = strip footer.
Proof.
  intros Habs. unfold copyright_of, split1_last.
  rewrite partition_absent; auto. discriminate.
Qed.

(** Both parts of [split_document] are stripped texts. *)
Lemma split_document_stripped (payload : text) :
  strip (fst (split_document payload)) = fst (split_document payload)
  /\ strip (snd (split_document payload)) = snd (split_document payload).
Proof.
  unfold split_document.
  destruct (partition (lit "THE END") payload) as [[a m] b]; simpl.
  split; apply strip_idem.
Qed.

(** The payload that [read_pre] hands on is stripped and not empty. *)
Lemma read_pre_stripped (html full_text : text) :
  read_pre html = Ok full_text ->
  strip full_text = full_text /\ full_text <> [].
Proof.
  unfold read_pre.
  destruct (search DOTALL html pre_regex) as [m|]; [|discriminate].
  destruct (strip (group_text html m 1)) as [|c t] eqn:E; [discriminate|].
  intros H. inversion H; subst. rewrite <- E. split.
  - apply strip_idem.
  - rewrite E. discriminate.
Qed.

(** ** The matcher *)

Lemma hd_error_flat_map (A B : Type) (f : A -> list B) (l : list A) (y : B) :
  hd_error (flat_map f l) = Some y ->
  exists l1 x l2, l = l1 ++ x :: l2
                  /\ (forall z, In z l1 -> f z = [])
                  /\ hd_error (f x) = Some y.
Proof.
  induction l as [|a l IH]; simpl; [discriminate|].
  destruct (f a) as [|b t] eqn:E; simpl.
  - intros H. destruct (IH H) as (l1 & x & l2 & -> & Hz & Hx).
    exists (a :: l1), x, l2. repeat split; auto.
    intros z [<-|Hin]; auto.
  - intros H. exists [], a, l. rewrite E. repeat split; auto.
    intros z [].
Qed.

(** The first success over an interval of positions. *)
Lemma hd_error_flat_map_seq (B : Type) (f : nat -> list B) (n a : nat) (y : B) :
  hd_error (flat_map f (seq a n)) = Some y ->
  exists i, i < n /\ hd_error (f (a + i)) = Some y
            /\ forall j, j < i -> f (a + j) = [].
Proof.
  revert a; induction n as [|n IH]; intros a; simpl; [discriminate|].
  destruct (f a) as [|b t] eqn:E; simpl.
  - intros H. destruct (IH _ H) as (i & Hi & Hy & Hj).
    exists (S i). repeat split; [lia | now rewrite Nat.add_succ_r |].
    intros [|j] Hlt; [now rewrite Nat.add_0_r|].
    rewrite Nat.add_succ_r. apply Hj. lia.
  - intros H. exists 0. rewrite Nat.add_0_r, E. repeat split; [lia | auto |].
    intros j Hj; lia.
Qed.

Lemma span_len_le p (t : text) (k : nat) :
  k <= span_len p t <-> k <= length t /\ forallb p (firstn k t) = true.
Proof.
  revert k; induction t as [|c t IH]; intros k; simpl.
  - split.
    + intros H. assert (k = 0) by lia. subst. auto.
    + intros [H _]. lia.
  - destruct k as [|k]; simpl.
    + split; [split; [lia | reflexivity] | lia].
    + destruct (p c); simpl.
      * rewrite <- Nat.succ_le_mono, IH, <- Nat.succ_le_mono. tauto.
      * split; [lia | intros [_ H]; discriminate].
Qed.

Lemma span_len_length p (t : text) : span_len p t <= length t.
Proof. now apply (span_len_le p t (span_len p t)). Qed.

(** The character after the span, if any, is not of the class. *)
Lemma span_len_stop p (t : text) (c : ascii) :
  nth_error t (span_len p t) = Some c -> p c = false.
Proof.
  induction t as [|x t IH]; simpl; [discriminate|].
  destruct (p x) eqn:E; simpl; auto.
  intros H. now inversion H; subst.
Qed.

Lemma ltb_succ (n : nat) : (n <? S n) = true.
Proof. apply Nat.ltb_lt. lia. Qed.

Section MatcherFacts.

Variable fl : flags.
Variable s : text.

Implicit Types (st : mstate) (r : regex) (p : ascii -> bool).

Lemma mv_pos st : mv st (pos st) = st.
Proof. now destruct st. Qed.

Lemma one_char_skipn p st :
  one_char s p st
  = match skipn (pos st) s with
    | c :: _ => if p c then [mv st (S (pos st))] else []
    | [] => []
    end.
Proof.
  unfold one_char. rewrite nth_error_skipn_hd.
  now destruct (skipn (pos st) s).
Qed.

Lemma in_one_char p st st' :
  In st' (one_char s p st)
  <-> exists c, nth_error s (pos st) = Some c /\ p c = true
                /\ st' = mv st (S (pos st)).
Proof.
  unfold one_char. destruct (nth_error s (pos st)) as [c|].
  - destruct (p c) eqn:E; simpl.
    + split.
      * intros [<-|[]]. eauto.
      * intros (c' & _ & _ & ->). now left.
    + split; [intros [] | intros (c' & H & Hp & _)].
      inversion H; subst. congruence.
  - split; [intros [] | intros (c' & H & _)]. discriminate.
Qed.

Lemma charlike_Cls p : charlike fl s (Cls p) p.
Proof. intros st. reflexivity. Qed.

Lemma charlike_Dot :
  charlike fl s Dot (fun c => dotall fl || negb (Ascii.eqb c nl)).
Proof. intros st. reflexivity. Qed.

(** Without [re.DOTALL], [(?:.|\n)] matches any character, in one way. *)
Lemma charlike_Dot_or_nl :
  dotall fl = false -> charlike fl s (Alt Dot (Chr nl)) (fun _ => true).
Proof.
  intros Hd st. simpl. rewrite Hd. rewrite !one_char_skipn.
  destruct (skipn (pos st) s) as [|c t]; auto.
  rewrite (Ascii.eqb_sym nl c).
  destruct (Ascii.eqb c nl); reflexivity.
Qed.

Lemma star_loop_lazy body p (n : nat) st :
  (forall st, body st = one_char s p st) ->
  n = length s - pos st ->
  star_loop body Lazy n st
  = map (mv st) (seq (pos st) (S (span_len p (skipn (pos st) s)))).
Proof.
  intros Hb. revert st. induction n as [|n IH]; intros st Hn.
  - rewrite skipn_nil_ge by lia. simpl. now rewrite (mv_pos st).
  - simpl star_loop. rewrite Hb, one_char_skipn.
    destruct (skipn (pos st) s) as [|c t] eqn:E.
    + apply (f_equal (@length _)) in E. rewrite length_skipn in E. simpl in E. lia.
    + assert (Et : t = skipn (S (pos st)) s).
      { change (S (pos st)) with (1 + pos st).
        rewrite <- skipn_skipn, E. reflexivity. }
      simpl span_len. destruct (p c).
      * cbn [filter pos mv]. rewrite ltb_succ. cbn [flat_map].
        rewrite app_nil_r, IH by (simpl; lia).
        cbn [pos mv]. rewrite <- Et.
        cbn [seq map]. rewrite (mv_pos st). reflexivity.
      * simpl. now rewrite (mv_pos st).
Qed.

Lemma star_loop_greedy body p (n : nat) st :
  (forall st, body st = one_char s p st) ->
  n = length s - pos st ->
  star_loop body Greedy n st
  = map (mv st) (rev (seq (pos st) (S (span_len p (skipn (pos st) s))))).
Proof.
  intros Hb. revert st. induction n as [|n IH]; intros st Hn.
  - rewrite skipn_nil_ge by lia. simpl. now rewrite (mv_pos st).
  - simpl star_loop. rewrite Hb, one_char_skipn.
    destruct (skipn (pos st) s) as [|c t] eqn:E.
    + apply (f_equal (@length _)) in E. rewrite length_skipn in E. simpl in E. lia.
    + assert (Et : t = skipn (S (pos st)) s).
      { change (S (pos st)) with (1 + pos st).
        rewrite <- skipn_skipn, E. reflexivity. }
      simpl span_len. destruct (p c).
      * cbn [filter pos mv]. rewrite ltb_succ. cbn [flat_map].
        rewrite app_nil_r, IH by (simpl; lia).
        cbn [pos mv]. rewrite <- Et.
        cbn [seq rev]. rewrite !map_app. cbn [map].
        rewrite (mv_pos st). reflexivity.
      * simpl. now rewrite (mv_pos st).
Qed.

Lemma ends_Star_lazy r p st :
  charlike fl s r p ->
  ends fl s (Star Lazy r) st
  = map (mv st) (seq (pos st) (S (span_len p (skipn (pos st) s)))).
Proof. intros H. simpl. now apply star_loop_lazy. Qed.

Lemma ends_Star_greedy r p st :
  charlike fl s r p ->
  ends fl s (Star Greedy r) st
  = map (mv st) (rev (seq (pos st) (S (span_len p (skipn (pos st) s))))).
Proof. intros H. simpl. now apply star_loop_greedy. Qed.

Lemma in_Seq r1 r2 st st' :
  In st' (ends fl s (Seq r1 r2) st)
  <-> exists x, In x (ends fl s r1 st) /\ In st' (ends fl s r2 x).
Proof. simpl. apply in_flat_map. Qed.

Lemma in_Alt r1 r2 st st' :
  In st' (ends fl s (Alt r1 r2) st)
  <-> In st' (ends fl s r1 st) \/ In st' (ends fl s r2 st).
Proof. simpl. apply in_app_iff. Qed.

Lemma in_Caret st st' :
  In st' (ends fl s Caret st) <-> at_line_start fl s (pos st) = true /\ st' = st.
Proof.
  simpl. destruct (at_line_start fl s (pos st)); simpl.
  - split; [intros [<-|[]]; auto | intros [_ ->]; auto].
  - split; [intros [] | intros [H _]; discriminate].
Qed.

Lemma in_EndZ st st' :
  In st' (ends fl s EndZ st) <-> pos st = length s /\ st' = st.
Proof.
  simpl. destruct (Nat.eqb_spec (pos st) (length s)); simpl.
  - split; [intros [<-|[]]; auto | intros [_ ->]; auto].
  - split; [intros [] | intros [H _]; contradiction].
Qed.

Lemma in_Grp n r st st' :
  In st' (ends fl s (Grp n r) st)
  <-> exists x, In x (ends fl s r st) /\ st' = close_group n (pos st) x.
Proof.
  simpl. rewrite in_map_iff. split; intros (x & H1 & H2); eauto.
Qed.

Lemma in_Chr c st st' :
  In st' (ends fl s (Chr c) st)
  <-> nth_error s (pos st) = Some c /\ st' = mv st (S (pos st)).
Proof.
  simpl. rewrite in_one_char. split.
  - intros (c' & H & Hc & ->). apply Ascii.eqb_eq in Hc. subst. auto.
  - intros (H & ->). exists c. rewrite Ascii.eqb_refl. auto.
Qed.

Lemma in_charlike r p st st' :
  charlike fl s r p ->
  (In st' (ends fl s r st)
   <-> exists c, nth_error s (pos st) = Some c /\ p c = true
                 /\ st' = mv st (S (pos st))).
Proof. intros H. rewrite H. apply in_one_char. Qed.

Lemma in_Star g r p st st' :
  charlike fl s r p ->
  (In st' (ends fl s (Star g r) st)
   <-> exists k, k <= span_len p (skipn (pos st) s) /\ st' = mv st (pos st + k)).
Proof.
  intros H. destruct g.
  - rewrite (ends_Star_greedy r p st H), in_map_iff. split.
    + intros (q & <- & Hq). rewrite <- in_rev, in_seq in Hq.
      exists (q - pos st). split; [lia | f_equal; lia].
    + intros (k & Hk & ->). exists (pos st + k). split; auto.
      rewrite <- in_rev, in_seq. lia.
  - rewrite (ends_Star_lazy r p st H), in_map_iff. split.
    + intros (q & <- & Hq). apply in_seq in Hq.
      exists (q - pos st). split; [lia | f_equal; lia].
    + intros (k & Hk & ->). exists (pos st + k). split; auto.
      apply in_seq. lia.
Qed.

Lemma in_Plus g r p st st' :
  charlike fl s r p ->
  (In st' (ends fl s (Plus g r) st)
   <-> exists k, 1 <= k <= span_len p (skipn (pos st) s)
                 /\ st' = mv st (pos st + k)).
Proof.
  intros H. unfold Plus. rewrite in_Seq. split.
  - intros (x & Hx & Hst). apply (in_charlike r p _ _ H) in Hx as (c & Hc & Hp & ->).
    apply (in_Star g r p _ _ H) in Hst as (k & Hk & ->). cbn [pos mv] in *.
    rewrite (nth_error_skipn_cons _ _ _ _ Hc). cbn [span_len]. rewrite Hp.
    exists (S k). split; [lia | unfold mv; cbn [caps]; f_equal; lia].
  - intros (k & Hk & ->).
    destruct (skipn (pos st) s) as [|c t] eqn:E; [simpl in Hk; lia|].
    simpl in Hk. destruct (p c) eqn:Hp; [|lia].
    destruct (skipn_cons_inv _ _ _ _ _ E) as [Hc ->].
    exists (mv st (S (pos st))). split.
    + apply (in_charlike r p _ _ H). eauto.
    + apply (in_Star g r p _ _ H). exists (k - 1). cbn [pos mv].
      split; [lia | unfold mv; cbn [caps]; f_equal; lia].
Qed.

Lemma in_Ahead r st st' :
  In st' (ends fl s (Ahead r) st)
  <-> exists x, hd_error (ends fl s r st) = Some x
                /\ st' = {| pos := pos st; caps := caps x |}.
Proof.
  simpl. destruct (ends fl s r st) as [|x l]; simpl.
  - split; [intros [] | intros (x & H & _); discriminate].
  - split.
    + intros [<-|[]]. eauto.
    + intros (y & Hy & ->). inversion Hy. auto.
Qed.

Lemma ends_Ahead_nil r st :
  ends fl s (Ahead r) st = [] <-> ends fl s r st = [].
Proof.
  simpl. destruct (ends fl s r st); split; auto; discriminate.
Qed.

Lemma ends_Word (w : text) st :
  w <> [] ->
  ends fl s (Word w) st
  = if starts_with w (skipn (pos st) s)
    then [mv st (pos st + length w)] else [].
Proof.
  revert st. induction w as [|c w IH]; intros st Hw; [congruence|].
  destruct w as [|c' w].
  - cbn [Word ends]. rewrite one_char_skipn.
    destruct (skipn (pos st) s) as [|x t]; simpl; auto.
    rewrite andb_true_r, Nat.add_1_r. reflexivity.
  - change (Word (c :: c' :: w)) with (Seq (Chr c) (Word (c' :: w))).
    cbn [ends]. rewrite one_char_skipn.
    destruct (skipn (pos st) s) as [|x t] eqn:E; auto.
    change (starts_with (c :: c' :: w) (x :: t))
      with (Ascii.eqb c x && starts_with (c' :: w) t).
    destruct (Ascii.eqb c x); auto.
    cbn [flat_map andb]. rewrite app_nil_r, IH by discriminate.
    cbn [pos mv].
    destruct (skipn_cons_inv _ _ _ _ _ E) as [_ <-].
    destruct (starts_with (c' :: w) t); auto.
    unfold mv; cbn [caps length]. do 2 f_equal. lia.
Qed.

Lemma in_Word (w : text) st st' :
  w <> [] ->
  (In st' (ends fl s (Word w) st)
   <-> starts_with w (skipn (pos st) s) = true
       /\ st' = mv st (pos st + length w)).
Proof.
  intros Hw. rewrite ends_Word by auto.
  destruct (starts_with w (skipn (pos st) s)); simpl.
  - split; [intros [<-|[]]; auto | intros [_ ->]; auto].
  - split; [intros [] | intros [H _]; discriminate].
Qed.

(** An alternation of words matches one of the words. *)
Lemma in_Alts_Words (w0 : text) (ws : list text) st st' :
  Forall (fun w => w <> []) (w0 :: ws) ->
  (In st' (ends fl s (Alts (Word w0) (map Word ws)) st)
   <-> exists w, In w (w0 :: ws)
                 /\ starts_with w (skipn (pos st) s) = true
                 /\ st' = mv st (pos st + length w)).
Proof.
  revert w0. induction ws as [|w1 ws IH]; intros w0 Hall.
  - inversion Hall; subst. cbn [map Alts]. rewrite in_Word by auto. split.
    + intros [G1 G2]. exists w0. simpl. auto.
    + intros (w & [<-|[]] & G1 & G2). auto.
  - inversion Hall; subst. cbn [map Alts]. rewrite in_Alt, in_Word, IH by auto.
    split.
    + intros [[G1 G2] | (w & Hin & G1 & G2)].
      * exists w0. simpl. auto.
      * exists w. split; [now right | auto].
    + intros (w & [<-|Hin] & G1 & G2); [left; auto | right; eauto].
Qed.

(** *** Searching and scanning *)

Lemma search_from_sound r (n p : nat) (m : rmatch) :
  search_from fl s r n p = Some m ->
  exists q, p <= q <= p + n /\ match_at fl s r q = Some m.
Proof.
  revert p. induction n as [|n IH]; intros p; simpl.
  - destruct (match_at fl s r p) eqn:E; [|discriminate].
    intros H; inversion H; subst. exists p. split; [lia | auto].
  - destruct (match_at fl s r p) eqn:E.
    + intros H; inversion H; subst. exists p. split; [lia | auto].
    + intros H. destruct (IH _ H) as (q & Hq & Hm). exists q. split; [lia | auto].
Qed.

Lemma search_from_first r (n p k : nat) (m : rmatch) :
  k <= n ->
  (forall j, j < k -> match_at fl s r (p + j) = None) ->
  match_at fl s r (p + k) = Some m ->
  search_from fl s r n p = Some m.
Proof.
  revert p k. induction n as [|n IH]; intros p k Hk Hnone Hm.
  - assert (k = 0) by lia. subst. rewrite Nat.add_0_r in Hm. simpl. now rewrite Hm.
  - destruct k as [|k].
    + rewrite Nat.add_0_r in Hm. simpl. now rewrite Hm.
    + simpl. rewrite <- (Nat.add_0_r p) at 1. rewrite Hnone by lia.
      apply (IH (S p) k); [lia | |].
      * intros j Hj. rewrite Nat.add_succ_comm. apply Hnone. lia.
      * now rewrite Nat.add_succ_comm.
Qed.

Lemma chain_weaken r (lo lo' : nat) ms :
  lo' <= lo -> chain fl s r lo ms -> chain fl s r lo' ms.
Proof. destruct ms; simpl; auto. intros H (H1 & H2); split; [lia | auto]. Qed.

Lemma match_at_start r (p : nat) (m : rmatch) :
  match_at fl s r p = Some m -> m_start m = p.
Proof.
  unfold match_at. destruct (hd_error _); simpl; [|discriminate].
  intros H; inversion H; reflexivity.
Qed.

Lemma finditer_from_chain r (n p resume : nat) :
  advancing fl s r ->
  chain fl s r (Nat.max p resume) (finditer_from fl s r n p resume).
Proof.
  intros Hadv. revert p resume. induction n as [|n IH]; intros p resume.
  - simpl. destruct (Nat.ltb_spec p resume); simpl; auto.
    destruct (match_at fl s r p) as [m|] eqn:E; simpl; auto.
    pose proof (Hadv _ _ E) as Hlt. pose proof (match_at_start _ _ _ E) as Hs.
    apply Nat.ltb_lt in Hlt as Hlt'. rewrite Hlt'. simpl.
    rewrite Hs. repeat split; auto; lia.
  - simpl. destruct (Nat.ltb_spec p resume).
    + apply chain_weaken with (Nat.max (S p) resume); [lia | apply IH].
    + destruct (match_at fl s r p) as [m|] eqn:E.
      * pose proof (Hadv _ _ E) as Hlt. pose proof (match_at_start _ _ _ E) as Hs.
        apply Nat.ltb_lt in Hlt as Hlt'. rewrite Hlt'. simpl.
        rewrite Hs. repeat split; auto; try lia.
        apply chain_weaken with (Nat.max (S p) (m_end m)); [lia | apply IH].
      * apply chain_weaken with (Nat.max (S p) resume); [lia | apply IH].
Qed.

Lemma finditer_chain r : advancing fl s r -> chain fl s r 0 (finditer fl s r).
Proof. intros H. apply (finditer_from_chain r (length s) 0 0 H). Qed.

Lemma chain_in r (lo : nat) ms (m : rmatch) :
  chain fl s r lo ms -> In m ms ->
  lo <= m_start m /\ m_start m < m_end m /\ match_at fl s r (m_start m) = Some m.
Proof.
  revert lo. induction ms as [|x ms IH]; intros lo Hc []; simpl in Hc.
  - subst. tauto.
  - destruct Hc as (H1 & H2 & H3 & H4).
    destruct (IH _ H4 H) as (G1 & G2 & G3). repeat split; auto. lia.
Qed.

(** The starts of the matches of a scan increase strictly. *)
Lemma chain_sorted r (lo : nat) ms :
  chain fl s r lo ms -> StronglySorted lt (map m_start ms).
Proof.
  revert lo. induction ms as [|x ms IH]; intros lo Hc; simpl.
  - constructor.
  - destruct Hc as (H1 & H2 & H3 & H4). constructor; [eauto|].
    apply Forall_forall. intros q Hq. apply in_map_iff in Hq as (m & <- & Hm).
    destruct (chain_in _ _ _ _ H4 Hm) as (G1 & _). lia.
Qed.

End MatcherFacts.

(** ** The chapters *)

Lemma hd_Seq fl s r1 r2 st y :
  hd_error (ends fl s (Seq r1 r2) st) = Some y ->
  exists x, In x (ends fl s r1 st) /\ hd_error (ends fl s r2 x) = Some y.
Proof.
  simpl. intros H.
  destruct (hd_error_flat_map _ _ _ _ _ H) as (l1 & x & l2 & E & _ & Hx).
  exists x. split; auto. rewrite E. apply in_elt.
Qed.

Lemma hd_error_In (A : Type) (l : list A) (y : A) :
  hd_error l = Some y -> In y l.
Proof. destruct l; simpl; [discriminate|]. intros H; inversion H. now left. Qed.

Lemma starts_with_app_l (w v t : text) :
  starts_with (w ++ v) t
  = starts_with w t && starts_with v (skipn (length w) t).
Proof.
  revert t. induction w as [|a w IH]; intros t; simpl.
  - reflexivity.
  - destruct t as [|b t]; simpl.
    + reflexivity.
    + rewrite IH. now rewrite andb_assoc.
Qed.

Lemma starts_with_firstn (w t : text) :
  starts_with w t = true -> firstn (length w) t = w.
Proof.
  intros H. apply starts_with_iff in H as (b & ->).
  now rewrite firstn_app, firstn_all, Nat.sub_diag, firstn_0, app_nil_r.
Qed.

Lemma starts_with_one (c : ascii) (s : text) (j : nat) :
  starts_with [c] (skipn j s) = true <-> nth_error s j = Some c.
Proof.
  rewrite nth_error_skipn_hd. destruct (skipn j s) as [|x t]; simpl.
  - split; discriminate.
  - rewrite andb_true_r, Ascii.eqb_eq. split; [intros ->; auto | congruence].
Qed.

Lemma slice_starts_with (s w : text) (p : nat) :
  starts_with w (skipn p s) = true -> slice s p (p + length w) = w.
Proof.
  intros H. unfold slice. rewrite Nat.add_comm, Nat.add_sub.
  now apply starts_with_firstn.
Qed.

Lemma span_slice p (s : text) (a b : nat) :
  b - a <= span_len p (skipn a s) -> forallb p (slice s a b) = true.
Proof. intros H. unfold slice. now apply span_len_le in H. Qed.

Lemma numerals_not_nil : Forall (fun w : text => w <> []) numerals.
Proof. repeat constructor; discriminate. Qed.

Lemma in_numeral_alt fl s st st' :
  In st' (ends fl s numeral_alt st)
  <-> exists w, In w numerals
                /\ starts_with w (skipn (pos st) s) = true
                /\ st' = mv st (pos st + length w).
Proof. apply (in_Alts_Words fl s (lit "I") (tl numerals)), numerals_not_nil. Qed.

(** The lookahead of [chapter_regex] succeeds exactly at the stops. *)
Lemma chapter_lookahead s st :
  (exists x, In x (ends MULTILINE s
                     (Alt (Seq Caret (Seq numeral_alt (Chr ".")))
                     EndZ) st))
  <-> content_stop s (pos st) = true.
Proof.
  unfold content_stop, numeral_line.
  rewrite orb_true_iff, andb_true_iff, existsb_exists, Nat.eqb_eq. split.
  - intros (x & Hx). apply in_Alt in Hx as [Hx|Hx].
    + left. apply in_Seq in Hx as (x1 & H1 & Hx).
      apply in_Caret in H1 as [Hl ->].
      apply in_Seq in Hx as (x2 & H2 & Hx).
      apply in_numeral_alt in H2 as (w & Hw & Hs & ->).
      apply in_Chr in Hx as [Hd _]. cbn [pos mv] in Hd.
      split; auto. exists w. split; auto.
      rewrite starts_with_app_l, Hs, skipn_skipn, (Nat.add_comm (length w)).
      now apply starts_with_one.
    + right. now apply in_EndZ in Hx as [He _].
  - intros [[Hl (w & Hw & Hs)] | He].
    + rewrite starts_with_app_l, andb_true_iff, skipn_skipn,
        (Nat.add_comm (length w)), starts_with_one in Hs.
      destruct Hs as [Hs Hd].
      exists (mv (mv st (pos st + length w)) (S (pos st + length w))).
      apply in_Alt; left. apply in_Seq. exists st. split.
      { apply in_Caret. auto. }
      apply in_Seq. exists (mv st (pos st + length w)). split.
      { apply in_numeral_alt. exists w. auto. }
      apply in_Chr. auto.
    + exists st. apply in_Alt; right. apply in_EndZ. auto.
Qed.

Lemma chapter_lookahead_caps s st x :
  In x (ends MULTILINE s
          (Alt (Seq Caret (Seq numeral_alt (Chr "."))) EndZ) st) ->
  caps x = caps st.
Proof.
  intros Hx. apply in_Alt in Hx as [Hx|Hx].
  - apply in_Seq in Hx as (x1 & H1 & Hx).
    apply in_Caret in H1 as [Hl ->].
    apply in_Seq in Hx as (x2 & H2 & Hx).
    apply in_numeral_alt in H2 as (w & Hw & Hs & ->).
    now apply in_Chr in Hx as [_ ->].
  - now apply in_EndZ in Hx as [_ ->].
Qed.

Lemma flat_map_map (A B C : Type) (f : B -> list C) (g : A -> B) (l : list A) :
  flat_map f (map g l) = flat_map (fun x => f (g x)) l.
Proof. induction l as [|a l IH]; simpl; [|rewrite IH]; reflexivity. Qed.

(** A lazy group takes the shortest text after which the rest of the
    pattern [K] matches. *)
Lemma hd_lazy_group fl s n r p K x y :
  charlike fl s r p ->
  hd_error (ends fl s (Seq (Grp n (Star Lazy r)) K) x) = Some y ->
  exists i, i <= span_len p (skipn (pos x) s)
    /\ hd_error (ends fl s K (close_group n (pos x) (mv x (pos x + i)))) = Some y
    /\ forall j, j < i ->
         ends fl s K (close_group n (pos x) (mv x (pos x + j))) = [].
Proof.
  intros Hc H.
  change (ends fl s (Seq (Grp n (Star Lazy r)) K) x)
    with (flat_map (ends fl s K)
            (map (close_group n (pos x)) (ends fl s (Star Lazy r) x))) in H.
  rewrite (ends_Star_lazy fl s r p x Hc), !flat_map_map in H.
  apply hd_error_flat_map_seq in H as (i & Hi & Hy & Hj).
  exists i. repeat split; auto. lia.
Qed.

Lemma chapter_match s p st' :
  hd_error (ends MULTILINE s chapter_regex (start_state p)) = Some st' ->
  exists w p2 q e,
    chapter_span s p w p2 q e
    /\ st' = {| pos := e;
                caps := [(3, (S q, e)); (2, (p2, q)); (1, (p, p + length w))] |}.
Proof.
  unfold chapter_regex. intros H.
  apply hd_Seq in H as (x1 & H1 & H). apply in_Caret in H1 as [Hl ->].
  apply hd_Seq in H as (x2 & H2 & H).
  apply in_Grp in H2 as (x & H2 & ->).
  apply in_numeral_alt in H2 as (w & Hw & Hs & ->).
  apply hd_Seq in H as (x3 & H3 & H). apply in_Chr in H3 as [Hd ->].
  apply hd_Seq in H as (x4 & H4 & H).
  apply (in_Plus MULTILINE s Greedy space is_space) in H4 as (k & Hk & ->);
    [|apply charlike_Cls].
  apply hd_Seq in H as (x5 & H5 & H).
  apply in_Grp in H5 as (x & H5 & ->).
  apply (in_Star MULTILINE s Lazy Dot _ _ _ (charlike_Dot MULTILINE s)) in H5
    as (k2 & Hk2 & ->).
  apply hd_Seq in H as (x6 & H6 & H). apply in_Chr in H6 as [Hn ->].
  apply (hd_lazy_group MULTILINE s 3 _ (fun _ => true)) in H
    as (i & Hi & Hy & Hj); [|now apply charlike_Dot_or_nl].
  cbn [pos caps mv close_group start_state] in *.
  set (p1 := p + length w) in *.
  set (p2 := S p1 + k) in *.
  set (q := p2 + k2) in *.
  assert (Hq : q < length s) by (apply nth_error_Some; congruence).
  assert (He : S q + i <= length s).
  { pose proof (span_len_length (fun _ => true) (skipn (S q) s)) as Hlen.
    rewrite length_skipn in Hlen. lia. }
  apply hd_error_In in Hy as Hy'. apply in_Ahead in Hy' as (x & Hx & ->).
  apply hd_error_In in Hx.
  rewrite (chapter_lookahead_caps _ _ _ Hx).
  cbn [pos caps mv close_group].
  exists w, p2, q, (S q + i). split; [|reflexivity].
  split; auto.
  - now apply slice_starts_with.
  - unfold p2, p1. lia.
  - apply span_slice. replace (p + length w + 1) with (S p1) by (unfold p1; lia).
    unfold p2. lia.
  - unfold q. lia.
  - apply span_slice. unfold q. rewrite Nat.add_comm, Nat.add_sub. exact Hk2.
  - lia.
  - exact (proj1 (chapter_lookahead s _) (ex_intro _ x Hx)).
  - intros j Hjr.
    specialize (Hj (j - S q) ltac:(lia)).
    replace (S q + (j - S q)) with j in Hj by lia.
    apply (proj1 (ends_Ahead_nil _ _ _ _)) in Hj.
    destruct (content_stop s j) eqn:Es; auto.
    match type of Hj with
    | ends _ _ _ ?st = [] =>
        destruct (proj2 (chapter_lookahead s st) Es) as (z & Hz)
    end.
    rewrite Hj in Hz. destruct Hz.
Qed.

Lemma nth_error_slice (s : text) (a b i : nat) :
  i < b - a -> nth_error (slice s a b) i = nth_error s (a + i).
Proof.
  intros H. unfold slice. rewrite nth_error_firstn.
  apply Nat.ltb_lt in H. rewrite H. apply nth_error_skipn.
Qed.

Lemma forallb_slice p (s : text) (a b : nat) :
  forallb p (slice s a b) = true ->
  forall j c, a <= j < b -> nth_error s j = Some c -> p c = true.
Proof.
  intros H j c Hj Hc. rewrite forallb_forall in H. apply H.
  apply nth_error_In with (j - a).
  rewrite nth_error_slice by lia. now replace (a + (j - a)) with j by lia.
Qed.

Lemma slice_head p (s : text) (a b : nat) :
  forallb p (slice s a b) = true -> a < b -> b <= length s ->
  exists c, nth_error s a = Some c /\ p c = true.
Proof.
  intros H Hab Hb.
  destruct (nth_error s a) as [c|] eqn:E.
  - exists c. split; auto. apply (forallb_slice p s a b H a c); [lia | auto].
  - apply nth_error_None in E. lia.
Qed.

Lemma firstn_plus (A : Type) (n m : nat) (l : list A) :
  firstn (n + m) l = firstn n l ++ firstn m (skipn n l).
Proof.
  revert l. induction n as [|n IH]; intros l; simpl; auto.
  destruct l as [|x l]; simpl.
  - now rewrite firstn_nil.
  - now rewrite IH.
Qed.

Lemma slice_app (s : text) (a b c : nat) :
  a <= b <= c -> slice s a c = slice s a b ++ slice s b c.
Proof.
  intros H. unfold slice.
  replace (c - a) with ((b - a) + (c - b)) by lia.
  rewrite firstn_plus, skipn_skipn.
  now replace (b - a + a) with b by lia.
Qed.

Lemma forallb_false_ex p (l : text) :
  forallb p l = false -> exists i c, nth_error l i = Some c /\ p c = false.
Proof.
  induction l as [|x l IH]; simpl; [discriminate|].
  destruct (p x) eqn:E; simpl.
  - intros H. destruct (IH H) as (i & c & Hi & Hc). now exists (S i), c.
  - intros _. now exists 0, x.
Qed.

(** *** What a match of [chapter_regex] is *)

Lemma match_at_inv fl s r p m :
  match_at fl s r p = Some m ->
  exists st, hd_error (ends fl s r (start_state p)) = Some st
             /\ m = match_of p st.
Proof.
  unfold match_at. destruct (hd_error _) as [st|]; simpl; [|discriminate].
  intros H; inversion H. eauto.
Qed.

Lemma chapter_regex_advancing s : advancing MULTILINE s chapter_regex.
Proof.
  intros p m H. apply match_at_inv in H as (st & H & ->).
  apply chapter_match in H as (w & p2 & q & e & Hspan & ->).
  destruct Hspan. simpl. lia.
Qed.

Lemma chapter_of_span s p w p2 q e :
  chapter_span s p w p2 q e ->
  chapter_of s
    (match_of p {| pos := e;
                   caps := [(3, (S q, e)); (2, (p2, q)); (1, (p, p + length w))] |})
  = {| chapter_number := w;
       chapter_title := strip (slice s p2 q);
       content := map strip (find_lines (slice s (S q) e)) |}.
Proof.
  intros H. unfold chapter_of, group_text, group. simpl.
  now rewrite (cs_label _ _ _ _ _ _ H).
Qed.

Lemma chapter_span_start s p w p2 q e :
  chapter_span s p w p2 q e -> chapter_start s p = true.
Proof.
  intros H. destruct H. unfold chapter_start.
  rewrite cs_line0. cbn [andb]. apply existsb_exists. exists w. split; auto.
  assert (Hq : q < length s) by (apply nth_error_Some; congruence).
  destruct (slice_head _ _ _ _ cs_space0) as (c & Hc & Hsp); [lia | lia |].
  rewrite Hc, Hsp, andb_true_r.
  rewrite starts_with_app_l, skipn_skipn, (Nat.add_comm (length w)).
  apply andb_true_iff. split.
  - apply starts_with_iff. exists (skipn (length w) (skipn p s)).
    assert (Hw : firstn (length w) (skipn p s) = w).
    { unfold slice in cs_label0.
      now rewrite Nat.add_comm, Nat.add_sub in cs_label0. }
    transitivity (firstn (length w) (skipn p s) ++ skipn (length w) (skipn p s)).
    + symmetry. apply firstn_skipn.
    + now rewrite Hw.
  - now apply starts_with_one.
Qed.

(** The matches of the scan for chapters, as spans of the body. *)
Lemma chapter_matches s m :
  In m (finditer MULTILINE s chapter_regex) ->
  exists w p2 q e,
    chapter_span s (m_start m) w p2 q e
    /\ m = match_of (m_start m)
             {| pos := e;
                caps := [(3, (S q, e)); (2, (p2, q));
                         (1, (m_start m, m_start m + length w))] |}.
Proof.
  intros Hin.
  pose proof (finditer_chain MULTILINE s _ (chapter_regex_advancing s)) as Hc.
  destruct (chain_in _ _ _ _ _ _ Hc Hin) as (_ & _ & Hm).
  apply match_at_inv in Hm as (st & H & Heq).
  apply chapter_match in H as (w & p2 & q & e & Hspan & ->).
  exists w, p2, q, e. split; auto.
Qed.

Lemma StronglySorted_lt_NoDup (l : list nat) : StronglySorted lt l -> NoDup l.
Proof.
  induction 1 as [|a l Hs IH Hall]; constructor; auto.
  intros Hin. rewrite Forall_forall in Hall. specialize (Hall _ Hin). lia.
Qed.

Lemma Forall2_map_same (A B C : Type) (R : B -> C -> Prop)
    (f : A -> B) (g : A -> C) (l : list A) :
  (forall x, In x l -> R (f x) (g x)) -> Forall2 R (map f l) (map g l).
Proof.
  induction l as [|a l IH]; intros H; simpl; constructor.
  - apply H. now left.
  - apply IH. intros x Hx. apply H. now right.
Qed.

Lemma find_chapters_In body ch :
  In ch (find_chapters body) ->
  exists p w p2 q e,
    chapter_span body p w p2 q e
    /\ ch = {| chapter_number := w;
               chapter_title := strip (slice body p2 q);
               content := map strip (find_lines (slice body (S q) e)) |}.
Proof.
  unfold find_chapters. intros H. apply in_map_iff in H as (m & <- & Hm).
  apply chapter_matches in Hm as (w & p2 & q & e & Hspan & ->).
  exists (m_start m), w, p2, q, e. split; auto.
  now apply chapter_of_span.
Qed.

(** In a chapter whose title line is not blank after the period, the title
    ends with that line. *)
Lemma chapter_span_title_line body p w p2 q e n :
  chapter_span body p w p2 q e ->
  p + length w < n ->
  nth_error body n = Some nl ->
  forallb not_nl (slice body (p + length w + 1) n) = true ->
  forallb is_space (slice body (p + length w + 1) n) = false ->
  q = n /\ strip (slice body p2 q) = strip (slice body (p + length w + 1) n).
Proof.
  intros Hspan Hn Hnl Hline Hblank. destruct Hspan.
  set (a := p + length w + 1) in *.
  apply forallb_false_ex in Hblank as (i & c & Hi & Hc).
  assert (Hlen : i < n - a).
  { unfold slice in Hi.
    assert (Hs : nth_error (firstn (n - a) (skipn a body)) i <> None) by congruence.
    apply nth_error_Some in Hs. rewrite length_firstn in Hs. lia. }
  rewrite nth_error_slice in Hi by exact Hlen.
  assert (Hp2 : p2 <= a + i).
  { destruct (Nat.le_gt_cases p2 (a + i)) as [|Hlt]; auto.
    rewrite (forallb_slice _ _ _ _ cs_space0 (a + i) c) in Hc;
      [discriminate | lia | auto]. }
  assert (Hq : q = n).
  { destruct (Nat.lt_trichotomy q n) as [Hlt|[Heq|Hgt]]; auto.
    - pose proof (forallb_slice _ _ _ _ Hline q nl ltac:(lia) cs_newline0) as Hx.
      unfold not_nl in Hx. now rewrite Ascii.eqb_refl in Hx.
    - pose proof (forallb_slice _ _ _ _ cs_title0 n nl ltac:(lia) Hnl) as Hx.
      unfold not_nl in Hx. now rewrite Ascii.eqb_refl in Hx. }
  split; auto. subst q.
  rewrite (slice_app body a p2 n) by lia.
  now rewrite strip_app_blank_l.
Qed.

(** C10.  A chapter-start line that is the last line of the body and has no
    newline after it is not emitted as a chapter: every match of
    [chapter_regex] contains a newline after its start, so no match starts in
    a last line without newline, and a body without any newline has no
    chapters. *)
Theorem final_line_needs_newline (body : text) :
  (forall m, In m (finditer MULTILINE body chapter_regex) ->
     exists q, m_start m < q < m_end m /\ nth_error body q = Some nl)
  /\ (forall pre line, body = pre ++ line -> ~ In nl line ->
      forall m, In m (finditer MULTILINE body chapter_regex) ->
        m_start m < length pre)
  /\ (~ In nl body -> find_chapters body = []).
Proof.
  assert (H1 : forall m, In m (finditer MULTILINE body chapter_regex) ->
     exists q, m_start m < q < m_end m /\ nth_error body q = Some nl).
  { intros m Hm.
    apply chapter_matches in Hm as (w & p2 & q & e & Hspan & ->).
    destruct Hspan. exists q. simpl. split; auto. lia. }
  split; [exact H1 | split].
  - intros pre line -> Hline m Hm.
    destruct (H1 m Hm) as (q & Hq & Hnl).
    destruct (Nat.lt_ge_cases (m_start m) (length pre)) as [|Hge]; auto.
    exfalso. apply Hline. rewrite nth_error_app2 in Hnl by lia.
    eapply nth_error_In, Hnl.
  - intros Hbody. unfold find_chapters.
    destruct (finditer MULTILINE body chapter_regex) as [|m ms] eqn:E; auto.
    exfalso. destruct (H1 m) as (q & _ & Hnl).
    + now left.
    + apply Hbody. eapply nth_error_In, Hnl.
Qed.

Lemma final_line_needs_newline_witness :
  find_chapters (lit "I. A") = []
  /\ forall m,
       In m (finditer MULTILINE (lit "I. A" ++ [nl] ++ lit "II. B") chapter_regex) ->
       m_start m < 5.
Proof.
  split.
  - apply (final_line_needs_newline (lit "I. A")).
    simpl. intros [H|[H|[H|[H|[]]]]]; discriminate.
  - apply (proj1 (proj2 (final_line_needs_newline
                           (lit "I. A" ++ [nl] ++ lit "II. B")))
             (lit "I. A" ++ [nl]) (lit "II. B")).
    + reflexivity.
    + simpl. intros [H|[H|[H|[H|[H|[]]]]]]; discriminate.
Defined.

(** *** Which chapter-start lines start a chapter *)

Lemma span_len_true (t : text) : span_len (fun _ => true) t = length t.
Proof. induction t as [|c t IH]; simpl; auto. Qed.

Lemma In_hd_error (A : Type) (l : list A) (x : A) :
  In x l -> exists y, hd_error l = Some y.
Proof. destruct l as [|y l]; [intros [] | intros _; now exists y]. Qed.

(** Every position of the scan that has a match lies in an emitted match. *)
Lemma finditer_from_covers fl s r (n p0 resume p : nat) (m' : rmatch) :
  advancing fl s r ->
  p0 <= p <= p0 + n -> resume <= p ->
  match_at fl s r p = Some m' ->
  exists m, In m (finditer_from fl s r n p0 resume)
            /\ m_start m <= p < m_end m.
Proof.
  intros Hadv. revert p0 resume. induction n as [|n IH]; intros p0 resume Hp Hr Hm.
  - assert (p = p0) by lia. subst p0. simpl.
    destruct (Nat.ltb_spec p resume); [lia|].
    rewrite Hm. pose proof (Hadv _ _ Hm) as Hlt.
    pose proof (match_at_start _ _ _ _ _ Hm) as Hs.
    apply Nat.ltb_lt in Hlt as Hlt'. rewrite Hlt'.
    exists m'. split; [now left | lia].
  - simpl. destruct (Nat.ltb_spec p0 resume).
    + apply IH; auto. lia.
    + destruct (match_at fl s r p0) as [m|] eqn:E.
      * pose proof (Hadv _ _ E) as Hlt.
        pose proof (match_at_start _ _ _ _ _ E) as Hs.
        apply Nat.ltb_lt in Hlt as Hlt'. rewrite Hlt'.
        destruct (Nat.lt_ge_cases p (m_end m)) as [Hin|Hout].
        -- exists m. split; [now left | lia].
        -- destruct (IH (S p0) (m_end m)) as (m1 & Hm1 & Hc); auto; [lia|].
           exists m1. split; [now right | auto].
      * assert (p <> p0) by congruence.
        apply IH; auto. lia.
Qed.

(** A chapter-start line with a newline after its first white-space
    character is matched by [chapter_regex]. *)
Lemma chapter_regex_complete s p w n :
  at_line_start MULTILINE s p = true ->
  In w numerals ->
  starts_with (w ++ ["."%char]) (skipn p s) = true ->
  (exists c, nth_error s (p + length w + 1) = Some c /\ is_space c = true) ->
  p + length w + 2 <= n ->
  nth_error s n = Some nl ->
  exists m, match_at MULTILINE s chapter_regex p = Some m.
Proof.
  intros Hl Hw Hs (c & Hc & Hsp) Hn Hnl.
  rewrite starts_with_app_l, andb_true_iff, skipn_skipn,
    (Nat.add_comm (length w)), starts_with_one in Hs.
  destruct Hs as [Hs Hd].
  set (p1 := p + length w) in *.
  replace (p1 + 1) with (S p1) in Hc by lia.
  assert (Hlen : n < length s) by (apply nth_error_Some; congruence).
  set (run := span_len is_space (skipn (S p1) s)).
  assert (Hrun : 1 <= run).
  { unfold run. rewrite (nth_error_skipn_cons _ _ _ _ Hc). simpl. rewrite Hsp. lia. }
  (* the white space and the title *)
  assert (Hpq : exists p2 q,
             S p1 < p2 /\ p2 - S p1 <= run /\ p2 <= q
             /\ q - p2 <= span_len not_nl (skipn p2 s)
             /\ nth_error s q = Some nl).
  { destruct (Nat.lt_ge_cases n (S p1 + run)) as [Hin|Hout].
    - exists n, n. repeat split; try lia. exact Hnl.
    - set (p2 := S p1 + run).
      set (k2 := span_len not_nl (skipn p2 s)).
      assert (Hk2 : p2 + k2 <= n).
      { destruct (Nat.le_gt_cases (p2 + k2) n) as [|Hgt]; auto. exfalso.
        assert (Hle : S n - p2 <= span_len not_nl (skipn p2 s)) by (fold k2; lia).
        apply span_slice in Hle.
        pose proof (forallb_slice _ _ _ _ Hle n nl ltac:(lia) Hnl) as Hx.
        unfold not_nl in Hx. now rewrite Ascii.eqb_refl in Hx. }
      exists p2, (p2 + k2). repeat split; try (unfold p2; lia).
      + fold k2. lia.
      + destruct (nth_error s (p2 + k2)) as [x|] eqn:Ex.
        * rewrite <- nth_error_skipn in Ex. apply span_len_stop in Ex.
          unfold not_nl in Ex. apply negb_false_iff, Ascii.eqb_eq in Ex.
          now subst.
        * apply nth_error_None in Ex. lia. }
  destruct Hpq as (p2 & q & Hp2 & Hp2r & Hq & Hqr & Hqnl).
  assert (Hqlen : q < length s) by (apply nth_error_Some; congruence).
  set (st1 := close_group 1 p (mv (start_state p) p1)).
  set (st4 := mv (mv st1 (S p1)) p2).
  set (st5 := close_group 2 p2 (mv st4 q)).
  set (st7 := close_group 3 (S q) (mv (mv st5 (S q)) (length s))).
  assert (Hmem : In st7 (ends MULTILINE s chapter_regex (start_state p))).
  { unfold chapter_regex.
    apply in_Seq. exists (start_state p). split; [now apply in_Caret|].
    apply in_Seq. exists st1. split.
    { apply in_Grp. exists (mv (start_state p) p1). split; auto.
      apply in_numeral_alt. exists w. auto. }
    apply in_Seq. exists (mv st1 (S p1)). split; [now apply in_Chr|].
    apply in_Seq. exists st4. split.
    { apply (in_Plus MULTILINE s Greedy space is_space); [apply charlike_Cls|].
      exists (p2 - S p1). cbn [pos mv]. fold run. split; [lia|].
      unfold st4, mv. cbn [caps]. f_equal. lia. }
    apply in_Seq. exists st5. split.
    { apply in_Grp. exists (mv st4 q). split; auto.
      apply (in_Star MULTILINE s Lazy Dot _ _ _ (charlike_Dot MULTILINE s)).
      exists (q - p2). cbn [pos mv st4]. split; [exact Hqr|].
      unfold mv. cbn [caps]. f_equal. lia. }
    apply in_Seq. exists (mv st5 (S q)). split; [now apply in_Chr|].
    apply in_Seq. exists st7. split.
    { apply in_Grp. exists (mv (mv st5 (S q)) (length s)). split; auto.
      apply (in_Star MULTILINE s Lazy _ (fun _ => true));
        [now apply charlike_Dot_or_nl|].
      exists (length s - S q). cbn [pos mv].
      rewrite span_len_true, length_skipn. split; [lia|].
      unfold mv. cbn [caps]. f_equal. lia. }
    apply in_Ahead.
    assert (Hin : In st7 (ends MULTILINE s
                     (Alt (Seq Caret (Seq numeral_alt (Chr "."))) EndZ) st7)).
    { apply in_Alt. right. now apply in_EndZ. }
    destruct (In_hd_error _ _ _ Hin) as (y & Hy).
    exists y. split; auto.
    apply hd_error_In in Hy. rewrite (chapter_lookahead_caps _ _ _ Hy).
    reflexivity. }
  unfold match_at. destruct (In_hd_error _ _ _ Hmem) as (y & ->).
  simpl. eauto.
Qed.

(** *** Counting the chapters *)

Lemma chapter_span_label s p w p2 q e :
  chapter_span s p w p2 q e ->
  starts_with (w ++ ["."%char]) (skipn p s) = true.
Proof.
  intros H. destruct H.
  rewrite starts_with_app_l, skipn_skipn, (Nat.add_comm (length w)).
  apply andb_true_iff. split.
  - apply starts_with_iff. exists (skipn (length w) (skipn p s)).
    assert (Hw : firstn (length w) (skipn p s) = w).
    { unfold slice in cs_label0.
      now rewrite Nat.add_comm, Nat.add_sub in cs_label0. }
    transitivity (firstn (length w) (skipn p s) ++ skipn (length w) (skipn p s)).
    + symmetry. apply firstn_skipn.
    + now rewrite Hw.
  - now apply starts_with_one.
Qed.

Lemma titled_spec body p w :
  titled body p = true ->
  In w numerals ->
  starts_with (w ++ ["."%char]) (skipn p body) = true ->
  exists n,
    p + length w + 1 < n
    /\ nth_error body n = Some nl
    /\ forallb not_nl (slice body (p + length w + 1) n) = true
    /\ forallb is_space (slice body (p + length w + 1) n) = false.
Proof.
  unfold titled. intros Ht Hw Hs. rewrite forallb_forall in Ht.
  specialize (Ht w Hw). rewrite Hs in Ht. cbn [implb] in Ht. cbv zeta in Ht.
  fold not_nl in Ht.
  set (a := p + length w + 1) in *.
  set (k := span_len not_nl (skipn a body)) in *.
  apply andb_prop in Ht as [Hblank Hc]. apply negb_true_iff in Hblank.
  destruct (nth_error body (a + k)) as [c|] eqn:E; [|discriminate].
  assert (c = nl).
  { rewrite <- nth_error_skipn in E. apply span_len_stop in E.
    unfold not_nl in E. now apply negb_false_iff, Ascii.eqb_eq in E. }
  subst c. exists (a + k). repeat split; auto.
  - destruct k; [|lia]. rewrite Nat.add_0_r in Hblank.
    unfold slice in Hblank. rewrite Nat.sub_diag in Hblank. discriminate.
  - apply span_slice. rewrite Nat.add_comm, Nat.add_sub. fold k. lia.
Qed.

Lemma numerals_no_nl w : In w numerals -> ~ In nl w.
Proof.
  assert (H : forallb (forallb not_nl) numerals = true) by reflexivity.
  rewrite forallb_forall in H. intros Hw Hin.
  specialize (H w Hw). rewrite forallb_forall in H.
  specialize (H nl Hin). discriminate.
Qed.

(** In a well-formed body every chapter-start line starts a chapter. *)
Lemma chapter_start_emitted body p :
  well_formed_body body = true ->
  chapter_start body p = true ->
  p <= length body ->
  In p (map m_start (finditer MULTILINE body chapter_regex)).
Proof.
  intros Hwf Hstart Hlen.
  assert (Htitled : forall x, chapter_start body x = true -> x <= length body ->
                              titled body x = true).
  { intros x Hx Hxl. unfold well_formed_body in Hwf.
    rewrite forallb_forall in Hwf.
    specialize (Hwf x ltac:(apply in_seq; lia)). now rewrite Hx in Hwf. }
  pose proof Hstart as Hs0. unfold chapter_start in Hs0.
  apply andb_prop in Hs0 as [Hl Hex].
  apply existsb_exists in Hex as (w & Hw & Hws).
  apply andb_prop in Hws as [Hs Hsp].
  destruct (nth_error body (p + length w + 1)) as [c|] eqn:Ec; [|discriminate].
  destruct (titled_spec body p w (Htitled p Hstart Hlen) Hw Hs)
    as (n & Hn & Hnl & Hline & Hblank).
  destruct (chapter_regex_complete body p w n Hl Hw Hs) as (m' & Hm'); eauto; [lia|].
  destruct (finditer_from_covers MULTILINE body chapter_regex
              (length body) 0 0 p m' (chapter_regex_advancing body))
    as (m & Hm & Hcov); auto; [lia | lia |].
  fold (finditer MULTILINE body chapter_regex) in Hm.
  apply in_map_iff. exists m. split; auto.
  destruct (Nat.eq_dec (m_start m) p) as [|Hne]; auto. exfalso.
  apply chapter_matches in Hm as (w' & p2 & q & e & Hspan & Heq).
  assert (He : m_end m = e) by (rewrite Heq; reflexivity).
  rewrite He in Hcov. clear He Heq.
  set (p' := m_start m) in *.
  (* the line start [p] lies in the title part of the match *)
  assert (Hpq : p <= q).
  { destruct (Nat.le_gt_cases p q) as [|Hgt]; auto. exfalso.
    pose proof (cs_first _ _ _ _ _ _ Hspan p ltac:(lia)) as Hns.
    unfold content_stop, numeral_line in Hns.
    apply orb_false_iff in Hns as [Hns _].
    rewrite Hl in Hns. cbn [andb] in Hns.
    assert (Hex : existsb (fun w0 => starts_with (w0 ++ ["."%char]) (skipn p body))
                    numerals = true).
    { apply existsb_exists. exists w. auto. }
    congruence. }
  (* that part is the rest of the line of [p'] *)
  assert (Hq : q < length body).
  { apply nth_error_Some. rewrite (cs_newline _ _ _ _ _ _ Hspan). discriminate. }
  assert (Hp' : titled body p' = true).
  { apply Htitled; [eapply chapter_span_start; eauto | lia]. }
  destruct (titled_spec body p' w' Hp' (cs_numeral _ _ _ _ _ _ Hspan)
              (chapter_span_label _ _ _ _ _ _ Hspan))
    as (n' & Hn' & Hnl' & Hline' & Hblank').
  destruct (chapter_span_title_line body p' w' p2 q e n' Hspan) as [Hqn _];
    auto; [lia|]. subst n'.
  destruct p as [|p0]; [lia|].
  unfold at_line_start in Hl. cbn [multiline MULTILINE andb] in Hl.
  destruct (nth_error body p0) as [x|] eqn:Ex; [|discriminate].
  apply Ascii.eqb_eq in Hl. subst x.
  destruct (Nat.lt_ge_cases p0 (p' + length w')) as [Hin|Hout].
  - apply (numerals_no_nl w' (cs_numeral _ _ _ _ _ _ Hspan)).
    rewrite <- (cs_label _ _ _ _ _ _ Hspan).
    apply nth_error_In with (p0 - p').
    rewrite nth_error_slice by lia.
    now replace (p' + (p0 - p')) with p0 by lia.
  - destruct (Nat.eq_dec p0 (p' + length w')) as [->|Hne'].
    + rewrite (cs_dot _ _ _ _ _ _ Hspan) in Ex. discriminate.
    + pose proof (forallb_slice _ _ _ _ Hline' p0 nl ltac:(lia) Ex) as Hx.
      unfold not_nl in Hx. now rewrite Ascii.eqb_refl in Hx.
Qed.

(** The claim C3 fails on a body whose last chapter-start line has no newline
    after it: two chapter-start lines, one chapter. *)
Lemma chapter_count_counterexample :
  count_chapter_starts body_two_starts = 2
  /\ length (find_chapters body_two_starts) = 1
  /\ length (find_chapters body_two_starts)
     <> count_chapter_starts body_two_starts.
Proof. vm_compute. repeat split; discriminate. Qed.

(** ** The document *)

Lemma absent_check (sep s : text) :
  forallb (fun i => negb (starts_with sep (skipn i s))) (seq 0 (S (length s))) = true ->
  absent sep s.
Proof.
  intros H i Hocc. rewrite forallb_forall in H.
  assert (Hi : i <= length s).
  { destruct Hocc as (a & b & -> & <-). rewrite length_app. lia. }
  apply occurs_at_iff in Hocc; auto.
  assert (Hin : In i (seq 0 (S (length s)))) by (apply in_seq; lia).
  specialize (H i Hin). rewrite Hocc in H. discriminate.
Qed.

Lemma first_occurrence_check (sep a b : text) :
  forallb (fun i => negb (starts_with sep (skipn i (a ++ sep ++ b))))
          (seq 0 (length a)) = true ->
  first_occurrence sep (a ++ sep ++ b) a b.
Proof.
  intros H. split; auto. intros i Hi Hocc. rewrite forallb_forall in H.
  apply occurs_at_iff in Hocc; [|rewrite length_app; lia].
  assert (Hin : In i (seq 0 (length a))) by (apply in_seq; lia).
  specialize (H i Hin). rewrite Hocc in H. discriminate.
Qed.

(** C5.  The payload is cut at the first 'THE END' into the stripped text
    before it and the stripped text after it; without 'THE END' the body is
    the whole (stripped) payload and the footer is empty.  The copyright is
    the stripped text after the first '---' of the footer, and the footer
    itself when it has no '---'.  The splitter is a total function: it has a
    body and a footer for every payload. *)
Theorem document_splitter (payload : text) :
  let body := fst (split_document payload) in
  let footer := snd (split_document payload) in
  split_document payload = (body, footer)
  /\ (forall a b, first_occurrence (lit "THE END") payload a b ->
                  body = strip a /\ footer = strip b)
  /\ (absent (lit "THE END") payload ->
      body = strip payload /\ footer = []
      /\ (strip payload = payload -> body = payload))
  /\ (forall a b, first_occurrence (lit "---") footer a b ->
                  copyright_of footer = strip b)
  /\ (absent (lit "---") footer -> copyright_of footer = footer)
  /\ copyright (parse_text payload) = copyright_of footer
  /\ (forall html, read_pre html = Ok payload -> strip payload = payload).
Proof.
  cbv zeta. split; [|split; [|split; [|split; [|split; [|split]]]]].
  - now destruct (split_document payload).
  - intros a b H. rewrite (split_document_found _ _ _ H). auto.
  - intros H. rewrite (split_document_absent _ H). simpl. auto.
  - intros a b H. now apply (copyright_of_found _ a b).
  - intros H. rewrite copyright_of_absent by auto.
    apply split_document_stripped.
  - unfold parse_text. now destruct (split_document payload).
  - intros html H. now apply read_pre_stripped in H.
Qed.

Lemma document_splitter_witness :
  (fst (split_document payload_with_footer) = lit "a"
   /\ snd (split_document payload_with_footer) = lit "x---b")
  /\ copyright_of (snd (split_document payload_with_footer)) = lit "b"
  /\ (fst (split_document (lit "abc")) = lit "abc"
      /\ snd (split_document (lit "abc")) = []
      /\ (strip (lit "abc") = lit "abc" -> fst (split_document (lit "abc")) = lit "abc"))
  /\ copyright_of (snd (split_document (lit "abc")))
     = snd (split_document (lit "abc")).
Proof.
  split; [|split; [|split]].
  - apply (proj1 (proj2 (document_splitter payload_with_footer))
             (lit "a ") (lit " x---b ")).
    apply (first_occurrence_check (lit "THE END") (lit "a ") (lit " x---b ")).
    reflexivity.
  - apply (proj1 (proj2 (proj2 (proj2 (document_splitter payload_with_footer))))
             (lit "x") (lit "b")).
    apply (first_occurrence_check (lit "---") (lit "x") (lit "b")).
    reflexivity.
  - apply (proj1 (proj2 (proj2 (document_splitter (lit "abc"))))).
    apply absent_check. reflexivity.
  - apply (proj1 (proj2 (proj2 (proj2 (proj2 (document_splitter (lit "abc"))))))).
    apply absent_check. reflexivity.
Defined.

(** C6.  Scenario 1: the payload gives the two chapters I "A" with the lines
    x and y and II "B" with the line z, and the copyright "C 2025"; the same
    record is dumped when the payload comes in a <pre> element of the input
    file. *)
Theorem scenario1_parsed :
  parse_text scenario1
  = {| meta := the_meta;
       chapters :=
         [ {| chapter_number := lit "I"; chapter_title := lit "A";
              content := [lit "x"; lit "y"] |};
           {| chapter_number := lit "II"; chapter_title := lit "B";
              content := [lit "z"] |} ];
       copyright := lit "C 2025" |}
  /\ process_document (one_file html_scenario1 true) "orig.html" "aow.json"
     = Written "aow.json" (parse_text scenario1).
Proof. split; vm_compute; reflexivity. Qed.

(** ** The <pre> element *)

Lemma skipn_split (s : text) (i : nat) (w : text) :
  starts_with w (skipn i s) = true ->
  skipn i s = w ++ skipn (i + length w) s.
Proof.
  intros H. apply starts_with_iff in H as (b & Hb).
  rewrite Nat.add_comm, <- skipn_skipn, Hb.
  now rewrite skipn_app, skipn_all, Nat.sub_diag.
Qed.

Lemma skipn_firstn_split (s : text) (i k : nat) :
  skipn i s = slice s i (i + k) ++ skipn (i + k) s.
Proof.
  unfold slice. rewrite Nat.add_comm, Nat.add_sub, <- skipn_skipn.
  symmetry. apply firstn_skipn.
Qed.

(** A match of [pre_regex] shows the two delimiters. *)
Lemma pre_regex_sound html p st :
  In st (ends DOTALL html pre_regex (start_state p)) -> has_pre html.
Proof.
  unfold pre_regex. intros H.
  apply in_Seq in H as (x1 & H1 & H).
  apply in_Word in H1 as [Hopen ->]; [|discriminate].
  apply in_Seq in H as (x2 & H2 & H).
  apply (in_Star DOTALL html Greedy (Cls not_gt) not_gt) in H2 as (k & Hk & ->);
    [|apply charlike_Cls].
  apply in_Seq in H as (x3 & H3 & H). apply in_Chr in H3 as [Hgt ->].
  apply in_Seq in H as (x4 & H4 & H).
  apply in_Grp in H4 as (x & H4 & ->).
  apply (in_Star DOTALL html Lazy Dot _ _ _ (charlike_Dot DOTALL html)) in H4
    as (k2 & Hk2 & ->).
  apply in_Word in H as [Hclose _]; [|discriminate].
  cbn [pos caps mv close_group start_state length lit list_ascii_of_string] in *.
  set (p1 := p + 4) in *.
  exists (firstn p html), (slice html p1 (p1 + k)),
    (slice html (S (p1 + k)) (S (p1 + k) + k2)),
    (skipn (S (p1 + k) + k2 + 6) html).
  split.
  - rewrite <- (firstn_skipn p html) at 1. f_equal.
    rewrite (skipn_split _ _ _ Hopen). f_equal.
    cbn [length]. fold p1.
    rewrite (skipn_firstn_split html p1 k). f_equal.
    rewrite (nth_error_skipn_cons _ _ _ _ Hgt). cbn [app]. f_equal.
    rewrite (skipn_firstn_split html (S (p1 + k)) k2). f_equal.
    exact (skipn_split _ _ _ Hclose).
  - apply span_slice. now rewrite Nat.add_comm, Nat.add_sub.
Qed.

Lemma search_sound fl s r m :
  search fl s r = Some m ->
  exists p st, In st (ends fl s r (start_state p)).
Proof.
  unfold search. intros H.
  apply search_from_sound in H as (q & _ & H).
  apply match_at_inv in H as (st & H & _).
  exists q, st. now apply hd_error_In.
Qed.

Lemma read_pre_not_found html :
  ~ has_pre html -> read_pre html = Raise EnvelopeNotFound.
Proof.
  intros Hno. unfold read_pre.
  destruct (search DOTALL html pre_regex) as [m|] eqn:E; auto.
  exfalso. apply Hno.
  apply search_sound in E as (p & st & H).
  eapply pre_regex_sound; eauto.
Qed.

Lemma hd_error_app_l (A : Type) (l l' : list A) (y : A) :
  hd_error l = Some y -> hd_error (l ++ l') = Some y.
Proof. destruct l; simpl; auto. discriminate. Qed.

Lemma hd_error_flat_map_seq_first (B : Type) (f : nat -> list B)
    (n a i : nat) (y : B) :
  i < n ->
  (forall j, j < i -> f (a + j) = []) ->
  hd_error (f (a + i)) = Some y ->
  hd_error (flat_map f (seq a n)) = Some y.
Proof.
  revert a i. induction n as [|n IH]; intros a i Hi Hnil Hy; [lia|].
  simpl. destruct i as [|i].
  - rewrite Nat.add_0_r in Hy. now apply hd_error_app_l.
  - rewrite <- (Nat.add_0_r a) at 1. rewrite Hnil by lia. simpl.
    apply (IH (S a) i); [lia | |].
    + intros j Hj. rewrite Nat.add_succ_comm. apply Hnil. lia.
    + now rewrite Nat.add_succ_comm.
Qed.

Lemma hd_Seq_first fl s r1 r2 st x l y :
  ends fl s r1 st = x :: l ->
  hd_error (ends fl s r2 x) = Some y ->
  hd_error (ends fl s (Seq r1 r2) st) = Some y.
Proof.
  intros H1 H2. simpl. rewrite H1. simpl. now apply hd_error_app_l.
Qed.

Lemma ends_Seq_nil fl s r1 r2 st :
  ends fl s r1 st = [] -> ends fl s (Seq r1 r2) st = [].
Proof. intros H. simpl. now rewrite H. Qed.

(** A greedy repetition first tries the longest run. *)
Lemma ends_Star_greedy_head fl s r p st :
  charlike fl s r p ->
  exists l,
    ends fl s (Star Greedy r) st
    = mv st (pos st + span_len p (skipn (pos st) s)) :: l.
Proof.
  intros H. rewrite (ends_Star_greedy fl s r p st H).
  rewrite seq_S, rev_app_distr. simpl. eauto.
Qed.

Lemma ends_Chr_here fl s c st :
  nth_error s (pos st) = Some c ->
  ends fl s (Chr c) st = [mv st (S (pos st))].
Proof.
  intros H. simpl. unfold one_char. now rewrite H, Ascii.eqb_refl.
Qed.

(** The converse of [hd_lazy_group]. *)
Lemma hd_lazy_group_first fl s n r p K x y i :
  charlike fl s r p ->
  i <= span_len p (skipn (pos x) s) ->
  (forall j, j < i ->
     ends fl s K (close_group n (pos x) (mv x (pos x + j))) = []) ->
  hd_error (ends fl s K (close_group n (pos x) (mv x (pos x + i)))) = Some y ->
  hd_error (ends fl s (Seq (Grp n (Star Lazy r)) K) x) = Some y.
Proof.
  intros Hc Hi Hnil Hy.
  change (ends fl s (Seq (Grp n (Star Lazy r)) K) x)
    with (flat_map (ends fl s K)
            (map (close_group n (pos x)) (ends fl s (Star Lazy r) x))).
  rewrite (ends_Star_lazy fl s r p x Hc), !flat_map_map.
  apply hd_error_flat_map_seq_first with i; auto. lia.
Qed.

Lemma span_len_app_stop p (w t : text) (c : ascii) :
  forallb p w = true -> p c = false -> span_len p (w ++ c :: t) = length w.
Proof.
  intros Hw Hc. induction w as [|x w IH]; simpl.
  - now rewrite Hc.
  - simpl in Hw. apply andb_prop in Hw as [Hx Hw]. rewrite Hx. now rewrite IH.
Qed.

Lemma skipn_app_exact (a t : text) (n : nat) :
  n = length a -> skipn n (a ++ t) = t.
Proof. intros ->. now rewrite skipn_app, skipn_all, Nat.sub_diag. Qed.

(** The first match of [pre_regex] at the first "<pre": the group is the
    text from the first ">" to the first "</pre>" after it. *)
Lemma pre_regex_first (a attr b c : text) :
  let html := a ++ lit "<pre" ++ attr ++ [">"%char] ++ b ++ lit "</pre>" ++ c in
  let x := length a + 4 + length attr + 1 in
  forallb not_gt attr = true ->
  (forall j, j < length b ->
     starts_with (lit "</pre>") (skipn j (b ++ lit "</pre>" ++ c)) = false) ->
  hd_error (ends DOTALL html pre_regex (start_state (length a)))
  = Some {| pos := x + length b + 6; caps := [(1, (x, x + length b))] |}.
Proof.
  intros html x Hattr Hb.
  assert (S0 : skipn (length a) html
               = lit "<pre" ++ attr ++ [">"%char] ++ b ++ lit "</pre>" ++ c).
  { unfold html. now apply skipn_app_exact. }
  assert (S1 : skipn (length a + 4) html
               = attr ++ [">"%char] ++ b ++ lit "</pre>" ++ c).
  { rewrite Nat.add_comm, <- skipn_skipn, S0. reflexivity. }
  assert (S2 : skipn (length a + 4 + length attr) html
               = [">"%char] ++ b ++ lit "</pre>" ++ c).
  { rewrite Nat.add_comm, <- skipn_skipn, S1. now apply skipn_app_exact. }
  assert (S3 : forall j, skipn (x + j) html = skipn j (b ++ lit "</pre>" ++ c)).
  { intros j. unfold x.
    rewrite (Nat.add_comm _ j), <- skipn_skipn.
    rewrite (Nat.add_comm _ 1), <- skipn_skipn, S2. reflexivity. }
  unfold pre_regex.
  eapply hd_Seq_first.
  { rewrite ends_Word by discriminate. cbn [pos start_state].
    rewrite S0, starts_with_app. reflexivity. }
  destruct (ends_Star_greedy_head DOTALL html (Cls not_gt) not_gt
              (mv (start_state (length a)) (length a + length (lit "<pre")))
              (charlike_Cls DOTALL html not_gt)) as (l & Hl).
  eapply hd_Seq_first; [exact Hl|]. clear Hl l.
  cbn [pos mv start_state caps]. change (length (lit "<pre")) with 4.
  rewrite S1. cbn [app]. rewrite span_len_app_stop by auto.
  eapply hd_Seq_first.
  { apply ends_Chr_here. cbn [pos mv].
    rewrite nth_error_skipn_hd, S2. reflexivity. }
  unfold mv, start_state. cbn [pos caps].
  replace (S (length a + 4 + length attr)) with x by (unfold x; lia).
  apply (hd_lazy_group_first DOTALL html 1 Dot
           (fun c => dotall DOTALL || negb (Ascii.eqb c nl))
           (Word (lit "</pre>")) _ _ (length b)).
  - apply charlike_Dot.
  - cbn [pos]. rewrite <- (Nat.add_0_r x), S3. simpl skipn.
    replace (span_len _ _) with (length (b ++ lit "</pre>" ++ c)).
    + rewrite length_app. lia.
    + symmetry. apply span_len_true.
  - intros j Hj. cbn [pos]. rewrite ends_Word by discriminate.
    cbn [pos close_group mv]. now rewrite S3, Hb.
  - cbn [pos]. rewrite ends_Word by discriminate.
    cbn [pos close_group mv caps]. rewrite S3.
    rewrite skipn_app_exact by reflexivity.
    rewrite starts_with_app. reflexivity.
Qed.

Lemma slice_app_exact (a b t : text) (x : nat) :
  x = length a -> slice (a ++ b ++ t) x (x + length b) = b.
Proof.
  intros ->. unfold slice. rewrite Nat.add_comm, Nat.add_sub.
  rewrite skipn_app_exact by reflexivity.
  now rewrite firstn_app, firstn_all, Nat.sub_diag, firstn_0, app_nil_r.
Qed.

(** On a text with a <pre> element, [read_pre] gives the stripped text
    between the first ">" after the first "<pre" and the first "</pre>" after
    it, or fails when that text is blank. *)
Lemma read_pre_enclosed (html a attr b c : text) :
  first_occurrence (lit "<pre") html a
    (attr ++ [">"%char] ++ b ++ lit "</pre>" ++ c) ->
  forallb not_gt attr = true ->
  (forall j, j < length b -> ~ occurs_at (lit "</pre>") (b ++ lit "</pre>" ++ c) j) ->
  read_pre html
  = match strip b with
    | [] => Raise EmptyPayload
    | _ :: _ => Ok (strip b)
    end.
Proof.
  intros [Heq Hfirst] Hattr Hb.
  set (x := length a + 4 + length attr + 1).
  assert (Hm : search DOTALL html pre_regex
               = Some (match_of (length a)
                         {| pos := x + length b + 6;
                            caps := [(1, (x, x + length b))] |})).
  { unfold search. apply search_from_first with (length a).
    - rewrite Heq, length_app. lia.
    - intros j Hj. simpl. unfold match_at, pre_regex.
      rewrite ends_Seq_nil; auto.
      rewrite ends_Word by discriminate. cbn [pos start_state].
      destruct (starts_with (lit "<pre") (skipn j html)) eqn:E; auto.
      exfalso. apply (Hfirst j Hj).
      apply occurs_at_iff; auto. rewrite Heq, length_app. lia.
    - simpl. unfold match_at. rewrite Heq.
      rewrite pre_regex_first; auto.
      intros j Hj.
      destruct (starts_with (lit "</pre>") (skipn j (b ++ lit "</pre>" ++ c))) eqn:E; auto.
      exfalso. apply (Hb j Hj).
      apply occurs_at_iff; auto. rewrite length_app. lia. }
  unfold read_pre. rewrite Hm.
  assert (Hg : group_text html
                 (match_of (length a)
                    {| pos := x + length b + 6;
                       caps := [(1, (x, x + length b))] |}) 1 = b).
  { unfold group_text, group. simpl. rewrite Heq.
    replace (a ++ lit "<pre" ++ attr ++ [">"%char] ++ b ++ lit "</pre>" ++ c)
      with ((a ++ lit "<pre" ++ attr ++ [">"%char]) ++ b ++ lit "</pre>" ++ c)
      by (now rewrite <- !app_assoc).
    apply slice_app_exact. unfold x. rewrite !length_app. simpl. lia. }
  rewrite Hg. reflexivity.
Qed.

Lemma blank_has_no_close (b t : text) (j : nat) :
  forallb is_space b = true -> j < length b ->
  ~ occurs_at (lit "</pre>") (b ++ t) j.
Proof.
  intros Hb Hj Hocc.
  apply occurs_at_iff in Hocc; [|rewrite length_app; lia].
  destruct (nth_error b j) as [c|] eqn:E; [|apply nth_error_None in E; lia].
  assert (Hc : nth_error (b ++ t) j = Some c) by (rewrite nth_error_app1; auto).
  rewrite (nth_error_skipn_cons _ _ _ _ Hc) in Hocc.
  simpl in Hocc. apply andb_prop in Hocc as [Hlt _].
  apply Ascii.eqb_eq in Hlt. subst c.
  rewrite forallb_forall in Hb.
  specialize (Hb _ (nth_error_In _ _ E)). discriminate.
Qed.

Lemma has_pre_occurs html : has_pre html -> ~ absent (lit "<pre") html.
Proof.
  intros (a & attr & b & c & -> & _) Habs.
  apply (Habs (length a)). now exists a, (attr ++ [">"%char] ++ b ++ lit "</pre>" ++ c).
Qed.

(** C4.  A text without the pair of delimiters makes the run fail with
    [EnvelopeNotFound]; a text whose first <pre> element encloses only white
    space makes it fail with [EmptyPayload].  In both cases the run is
    aborted: no record is produced or dumped. *)
Theorem envelope_errors (w : world) (input_path output_path : string)
    (html : text) :
  files w input_path = Some html ->
  (~ has_pre html ->
     read_pre html = Raise EnvelopeNotFound
     /\ process_document w input_path output_path = Aborted EnvelopeNotFound)
  /\ (forall a attr b c,
        first_occurrence (lit "<pre") html a
          (attr ++ [">"%char] ++ b ++ lit "</pre>" ++ c) ->
        forallb not_gt attr = true ->
        forallb is_space b = true ->
        read_pre html = Raise EmptyPayload
        /\ process_document w input_path output_path = Aborted EmptyPayload).
Proof.
  intros Hfile. unfold process_document, read_payload. rewrite Hfile. split.
  - intros Hno. now rewrite (read_pre_not_found _ Hno).
  - intros a attr b c Hfirst Hattr Hblank.
    rewrite (read_pre_enclosed html a attr b c Hfirst Hattr).
    + now rewrite (strip_blank _ Hblank).
    + intros j Hj. now apply blank_has_no_close.
Qed.

Lemma envelope_errors_witness :
  (read_pre (lit "no envelope") = Raise EnvelopeNotFound
   /\ process_document (one_file (lit "no envelope") true) "orig.html" "aow.json"
      = Aborted EnvelopeNotFound)
  /\ (read_pre (lit "<p><pre id=x>  </pre>") = Raise EmptyPayload
      /\ process_document (one_file (lit "<p><pre id=x>  </pre>") true)
           "orig.html" "aow.json"
         = Aborted EmptyPayload).
Proof.
  split.
  - apply (envelope_errors (one_file (lit "no envelope") true)
             "orig.html" "aow.json" (lit "no envelope")).
    + reflexivity.
    + intros H. apply (has_pre_occurs _ H). apply absent_check. reflexivity.
  - apply (proj2 (envelope_errors (one_file (lit "<p><pre id=x>  </pre>") true)
                    "orig.html" "aow.json" (lit "<p><pre id=x>  </pre>")
                    eq_refl)
             (lit "<p>") (lit " id=x") (lit "  ") []).
    + apply (first_occurrence_check (lit "<pre") (lit "<p>")
               (lit " id=x" ++ [">"%char] ++ lit "  " ++ lit "</pre>" ++ [])).
      reflexivity.
    + reflexivity.
    + reflexivity.
Defined.

(** ** The matches of the pattern of the numbered lines *)

Lemma star_loop_caps body g (n : nat) :
  (forall st x, In x (body st) -> caps x = caps st) ->
  forall st x, In x (star_loop body g n st) -> caps x = caps st.
Proof.
  intros Hb. induction n as [|n IH]; intros st x; simpl.
  - intros [<-|[]]. reflexivity.
  - assert (Hmore : In x (flat_map (star_loop body g n)
                            (filter (fun st' => pos st <? pos st') (body st))) ->
                    caps x = caps st).
    { intros H. apply in_flat_map in H as (y & Hy & Hx).
      apply filter_In in Hy as [Hy _].
      rewrite (IH _ _ Hx). now apply Hb. }
    destruct g.
    + intros H. apply in_app_iff in H as [H|[<-|[]]]; auto.
    + intros [<-|H]; auto.
Qed.

(** A pattern without groups leaves the groups of the state as they are. *)
Lemma group_free_caps fl s r :
  group_free r = true ->
  forall st x, In x (ends fl s r st) -> caps x = caps st.
Proof.
  induction r as [| c | | p | | | r1 IH1 r2 IH2 | r1 IH1 r2 IH2
                 | g r IH | n r IH | r IH]; intros Hg st x; simpl in *.
  - intros [<-|[]]. reflexivity.
  - intros H. now apply in_one_char in H as (c' & _ & _ & ->).
  - intros H. now apply in_one_char in H as (c' & _ & _ & ->).
  - intros H. now apply in_one_char in H as (c' & _ & _ & ->).
  - destruct (at_line_start fl s (pos st)); [intros [<-|[]]; auto | intros []].
  - destruct (pos st =? length s); [intros [<-|[]]; auto | intros []].
  - apply andb_prop in Hg as [G1 G2]. intros H.
    apply in_flat_map in H as (y & Hy & Hx).
    rewrite (IH2 G2 _ _ Hx). now apply IH1.
  - apply andb_prop in Hg as [G1 G2]. intros H.
    apply in_app_iff in H as [H|H]; [now apply IH1 | now apply IH2].
  - apply star_loop_caps. intros st0 y. now apply IH.
  - discriminate.
  - destruct (ends fl s r st) as [|y l] eqn:E; [intros []|].
    intros [<-|[]]. simpl. apply IH; auto. rewrite E. now left.
Qed.

Lemma in_Alts fl s r rs st x :
  In x (ends fl s (Alts r rs) st)
  <-> exists r', In r' (r :: rs) /\ In x (ends fl s r' st).
Proof.
  revert r. induction rs as [|r1 rs IH]; intros r.
  - simpl. split; [eauto | intros (r' & [<-|[]] & H); auto].
  - cbn [Alts]. rewrite in_Alt, IH. split.
    + intros [H | (r' & Hr & H)].
      * exists r. split; [now left | auto].
      * exists r'. split; [now right | auto].
    + intros (r' & [<-|Hr] & H); [now left | right; eauto].
Qed.

Lemma dropwhile_span p (t : text) :
  dropwhile p t = skipn (span_len p t) t.
Proof.
  induction t as [|c t IH]; simpl; auto.
  destruct (p c); simpl; auto.
Qed.

(** The lookahead of the pattern succeeds in front of the next numbered
    line and in front of every "V" and every "X". *)
Lemma line_stop_next s st :
  numbered_line_next s (pos st) = true ->
  exists x, In x (ends MULTILINE_DOTALL s line_stop st).
Proof.
  unfold numbered_line_next.
  destruct (nth_error s (pos st)) as [c|] eqn:Ec; [|discriminate].
  intros H. apply andb_prop in H as [Hc H]. apply Ascii.eqb_eq in Hc. subst c.
  cbv zeta in H. rewrite dropwhile_span, skipn_skipn in H.
  set (k := span_len is_space (skipn (S (pos st)) s)) in *.
  set (d := span_len is_digit (skipn (k + S (pos st)) s)) in *.
  apply andb_prop in H as [Hd Hdot]. apply Nat.leb_le in Hd.
  rewrite skipn_skipn in Hdot. apply starts_with_one in Hdot.
  exists (mv st (S (d + (k + S (pos st))))).
  apply in_Alts. eexists. split; [now left|].
  apply in_Seq. exists (mv st (S (pos st))). split; [now apply in_Chr|].
  apply in_Seq. exists (mv st (k + S (pos st))). split.
  { apply (in_Star MULTILINE_DOTALL s Greedy space is_space); [apply charlike_Cls|].
    exists k. cbn [pos mv]. fold k. split; [lia|].
    unfold mv; cbn [caps]. f_equal. lia. }
  apply in_Seq. exists (mv st (d + (k + S (pos st)))). split.
  { apply (in_Plus MULTILINE_DOTALL s Greedy digit is_digit); [apply charlike_Cls|].
    exists d. cbn [pos mv]. fold d. split; [lia|].
    unfold mv; cbn [caps]. f_equal. lia. }
  apply in_Chr. cbn [pos mv]. auto.
Qed.

Lemma line_stop_V s st :
  nth_error s (pos st) = Some "V"%char ->
  exists x, In x (ends MULTILINE_DOTALL s line_stop st).
Proof.
  intros H. exists (mv st (pos st + 1)).
  apply in_Alts. exists (Word (lit "V")). split.
  - simpl. tauto.
  - apply in_Word; [discriminate|]. split; auto.
    now apply (starts_with_one "V"%char).
Qed.

Lemma line_stop_X s st :
  nth_error s (pos st) = Some "X"%char ->
  exists x, In x (ends MULTILINE_DOTALL s line_stop st).
Proof.
  intros H. exists (mv st (pos st + 1)).
  apply in_Alts. exists (Word (lit "X")). split.
  - simpl. tauto.
  - apply in_Word; [discriminate|]. split; auto.
    now apply (starts_with_one "X"%char).
Qed.

Lemma line_match s p st' :
  hd_error (ends MULTILINE_DOTALL s line_regex (start_state p)) = Some st' ->
  exists d1 d2 a e,
    line_span s p d1 d2 a e
    /\ st' = {| pos := e; caps := [(1, (a, e))] |}.
Proof.
  unfold line_regex. intros H.
  apply hd_Seq in H as (x1 & H1 & H). apply in_Caret in H1 as [Hl ->].
  apply hd_Seq in H as (x2 & H2 & H).
  apply (in_Star MULTILINE_DOTALL s Greedy space is_space) in H2
    as (k0 & Hk0 & ->); [|apply charlike_Cls].
  apply hd_Seq in H as (x3 & H3 & H).
  apply (in_Plus MULTILINE_DOTALL s Greedy digit is_digit) in H3
    as (k1 & Hk1 & ->); [|apply charlike_Cls].
  apply hd_Seq in H as (x4 & H4 & H). apply in_Chr in H4 as [Hd ->].
  apply hd_Seq in H as (x5 & H5 & H).
  apply (in_Plus MULTILINE_DOTALL s Greedy space is_space) in H5
    as (k2 & Hk2 & ->); [|apply charlike_Cls].
  apply (hd_lazy_group MULTILINE_DOTALL s 1 Dot _ _ _ _
           (charlike_Dot MULTILINE_DOTALL s)) in H as (i & Hi & Hy & Hj).
  cbn [pos caps mv close_group start_state] in *.
  set (d1 := p + k0) in *.
  set (d2 := d1 + k1) in *.
  set (a := S d2 + k2) in *.
  assert (Hd2 : d2 < length s) by (apply nth_error_Some; congruence).
  assert (Ha : a <= length s).
  { pose proof (span_len_length is_space (skipn (S d2) s)) as Hlen.
    rewrite length_skipn in Hlen. lia. }
  assert (He : a + i <= length s).
  { pose proof (span_len_length
                  (fun c => dotall MULTILINE_DOTALL || negb (Ascii.eqb c nl))
                  (skipn a s)) as Hlen.
    rewrite length_skipn in Hlen. lia. }
  apply hd_error_In in Hy. apply in_Ahead in Hy as (x & Hx & ->).
  apply hd_error_In in Hx.
  rewrite (group_free_caps _ _ line_stop eq_refl _ _ Hx).
  cbn [pos caps].
  assert (Hnone : forall j, a <= j < a + i ->
            ends MULTILINE_DOTALL s line_stop
              {| pos := j; caps := [(1, (a, j))] |} = []).
  { intros j Hjr.
    specialize (Hj (j - a) ltac:(lia)).
    replace (a + (j - a)) with j in Hj by lia.
    now apply (proj1 (ends_Ahead_nil _ _ _ _)) in Hj. }
  exists d1, d2, a, (a + i). split; [|reflexivity].
  split; auto.
  - unfold d1. lia.
  - apply span_slice. unfold d1. now rewrite Nat.add_comm, Nat.add_sub.
  - unfold d2. lia.
  - apply span_slice. unfold d2. rewrite Nat.add_comm, Nat.add_sub. lia.
  - unfold a. lia.
  - apply span_slice. unfold a. 
    replace (S d2 + k2 - S d2) with k2 by lia. lia.
  - lia.
  - intros j Hjr. destruct (numbered_line_next s j) eqn:E; auto. exfalso.
    destruct (line_stop_next s {| pos := j; caps := [(1, (a, j))] |} E)
      as (y & Hy).
    rewrite (Hnone j Hjr) in Hy. destruct Hy.
  - intros j Hjr E.
    destruct (line_stop_V s {| pos := j; caps := [(1, (a, j))] |} E)
      as (y & Hy).
    rewrite (Hnone j Hjr) in Hy. destruct Hy.
  - intros j Hjr E.
    destruct (line_stop_X s {| pos := j; caps := [(1, (a, j))] |} E)
      as (y & Hy).
    rewrite (Hnone j Hjr) in Hy. destruct Hy.
Qed.

Lemma line_regex_advancing s : advancing MULTILINE_DOTALL s line_regex.
Proof.
  intros p m H. apply match_at_inv in H as (st & H & ->).
  apply line_match in H as (d1 & d2 & a & e & Hspan & ->).
  destruct Hspan. simpl. lia.
Qed.

(** The texts that [find_lines] returns, as spans of the block. *)
Lemma find_lines_In block raw :
  In raw (find_lines block) ->
  exists p d1 d2 a e,
    line_span block p d1 d2 a e /\ raw = slice block a e.
Proof.
  unfold find_lines. intros H. apply in_map_iff in H as (m & <- & Hm).
  pose proof (finditer_chain MULTILINE_DOTALL block _ (line_regex_advancing block))
    as Hc.
  destruct (chain_in _ _ _ _ _ _ Hc Hm) as (_ & _ & Hat).
  apply match_at_inv in Hat as (st & H & ->).
  apply line_match in H as (d1 & d2 & a & e & Hspan & ->).
  exists (m_start m), d1, d2, a, e. split; auto.
Qed.

Lemma In_slice (s : text) (a b : nat) (c : ascii) :
  In c (slice s a b) -> exists j, a <= j < b /\ nth_error s j = Some c.
Proof.
  intros H. apply In_nth_error in H as (i & Hi).
  assert (Hlt : i < b - a).
  { assert (Hs : nth_error (slice s a b) i <> None) by congruence.
    apply nth_error_Some in Hs. unfold slice in Hs.
    rewrite length_firstn in Hs. lia. }
  rewrite nth_error_slice in Hi by auto.
  exists (a + i). split; [lia | auto].
Qed.

Lemma In_strip (s : text) (c : ascii) : In c (strip s) -> In c s.
Proof.
  intros H. destruct (strip_split s) as (l & r & E & _).
  rewrite E. apply in_app_iff. right. apply in_app_iff. now left.
Qed.

(** No text that [find_lines] returns contains a "V" or an "X". *)
Lemma find_lines_no_V_X block raw :
  In raw (find_lines block) ->
  ~ In "V"%char raw /\ ~ In "X"%char raw.
Proof.
  intros H. apply find_lines_In in H as (p & d1 & d2 & a & e & Hspan & ->).
  split; intros Hin; apply In_slice in Hin as (j & Hj & Hc).
  - exact (ls_no_V _ _ _ _ _ _ Hspan j Hj Hc).
  - exact (ls_no_X _ _ _ _ _ _ Hspan j Hj Hc).
Qed.

(** ** The numbered lines *)

(** The titles and the lines of the chapters are stripped texts: they
    neither start nor end with white space, and stripping changes nothing
    inside (see [strip_split]). *)
Lemma chapter_texts_stripped body ch :
  In ch (find_chapters body) ->
  strip (chapter_title ch) = chapter_title ch
  /\ forall e, In e (content ch) ->
       strip e = e
       /\ match e with [] => True | c :: _ => is_space c = false end
       /\ match rev e with [] => True | c :: _ => is_space c = false end.
Proof.
  intros H. apply find_chapters_In in H as (p & w & p2 & q & e0 & _ & ->).
  simpl. split; [apply strip_idem|].
  intros e He. apply in_map_iff in He as (raw & <- & _).
  split; [apply strip_idem | split; [apply strip_head | apply strip_last]].
Qed.

(** C1, where the code departs from the claim.  In the block whose only
    numbered line is "a V b", with no other numbered line or chapter after
    it, the lookahead of the pattern succeeds in front of the "V" (its branch
    [V]) and the entry is cut there; with the numerals of the lookahead
    grouped the entry is the whole line, as the claim has it.  In general no
    entry of any chapter contains a "V" or an "X": the text of a numbered
    line is cut in front of the first of them. *)
Theorem line_cut_at_capital_V :
  find_lines block_with_V = [lit "a "]
  /\ process_document (one_file (html_of body_with_V) true) "orig.html" "aow.json"
     = Written "aow.json"
         {| meta := the_meta;
            chapters :=
              [ {| chapter_number := lit "I"; chapter_title := lit "A";
                   content := [lit "a"] |} ];
            copyright := [] |}
  /\ find_lines_grouped block_with_V = [lit "a V b"]
  /\ (forall body ch e,
        In ch (find_chapters body) -> In e (content ch) ->
        ~ In "V"%char e /\ ~ In "X"%char e).
Proof.
  split; [|split; [|split]]; try (vm_compute; reflexivity).
  intros body ch e Hch He.
  apply find_chapters_In in Hch as (p & w & p2 & q & e0 & _ & ->).
  simpl in He. apply in_map_iff in He as (raw & <- & Hraw).
  apply find_lines_no_V_X in Hraw as [HV HX].
  split; intros Hin; apply In_strip in Hin; auto.
Qed.

Lemma line_cut_at_capital_V_witness :
  ~ In "V"%char (lit "a") /\ ~ In "X"%char (lit "a").
Proof.
  apply (proj2 (proj2 (proj2 line_cut_at_capital_V)) body_with_V
           {| chapter_number := lit "I"; chapter_title := lit "A";
              content := [lit "a"] |} (lit "a")).
  - vm_compute. now left.
  - now left.
Defined.

(** C7, at an input on which the code departs from the claim.  The first
    numbered line of the chapter, "X", is cut in front of its "X" and gives an
    empty entry; with the markers put back the block reads "1. ", "2. foo",
    and the white space after the first marker runs up to the second one, so
    that the block has the single entry "2. foo".  With the numerals of the
    lookahead grouped the entries are "X" and "foo", and they come back. *)
Theorem round_trip_breaks_on_empty_entry :
  process_document (one_file (html_of body_with_X) true) "orig.html" "aow.json"
  = Written "aow.json"
      {| meta := the_meta;
         chapters :=
           [ {| chapter_number := lit "I"; chapter_title := lit "A";
                content := [[]; lit "foo"] |} ];
         copyright := [] |}
  /\ reinsert_markers [[]; lit "foo"]
     = lit "1. " ++ [nl] ++ lit "2. foo" ++ [nl]
  /\ map strip (find_lines (reinsert_markers [[]; lit "foo"]))
     = [lit "2. foo"]
  /\ map strip (find_lines_grouped block_with_X) = [lit "X"; lit "foo"]
  /\ map strip (find_lines_grouped
                  (reinsert_markers [lit "X"; lit "foo"]))
     = [lit "X"; lit "foo"].
Proof. repeat split; vm_compute; reflexivity. Qed.

(** * Further properties of the script *)

(** ** The end marker and the separator *)

Lemma partition_concat (sep s a m b : text) :
  partition sep s = (a, m, b) -> s = a ++ m ++ b.
Proof.
  revert a m b. induction s as [|c s IH]; intros a m b.
  - destruct sep as [|x sep]; simpl; intros H; inversion H; reflexivity.
  - destruct (starts_with sep (c :: s)) eqn:E.
    + rewrite (partition_here _ _ E). intros H. inversion H; subst.
      apply starts_with_iff in E as (t & E). rewrite E at 1. simpl. f_equal.
      rewrite E. now rewrite skipn_app, skipn_all, Nat.sub_diag.
    + rewrite (partition_next _ _ _ E).
      destruct (partition sep s) as [[a' m'] b'] eqn:P.
      intros H. inversion H; subst. simpl. f_equal. now apply IH.
Qed.

Lemma occurs_at_bound (sep s : text) (i : nat) :
  occurs_at sep s i -> i + length sep <= length s.
Proof.
  intros (a & b & -> & <-). rewrite !length_app. lia.
Qed.

Lemma occurs_at_infix (sep l t r : text) (i : nat) :
  occurs_at sep t i -> occurs_at sep (l ++ t ++ r) (length l + i).
Proof.
  intros (a & b & -> & <-). exists (l ++ a), (b ++ r). split.
  - now rewrite <- !app_assoc.
  - now rewrite length_app.
Qed.

Lemma absent_strip (sep s : text) : absent sep s -> absent sep (strip s).
Proof.
  intros H i Hocc. destruct (strip_split s) as (l & r & E & _).
  apply (H (length l + i)). rewrite E. now apply occurs_at_infix.
Qed.

(** The text that [partition] puts before the separator does not contain
    the separator. *)
Lemma partition_before_absent (sep s : text) :
  sep <> [] -> absent sep (fst (fst (partition sep s))).
Proof.
  intros Hsep. induction s as [|c s IH].
  - intros i Hocc. apply occurs_at_bound in Hocc.
    destruct sep as [|x sep]; [congruence|]. simpl in Hocc. lia.
  - destruct (starts_with sep (c :: s)) eqn:E.
    + rewrite (partition_here _ _ E). simpl.
      intros i Hocc. apply occurs_at_bound in Hocc.
      destruct sep as [|x sep]; [congruence|]. simpl in Hocc. lia.
    + rewrite (partition_next _ _ _ E).
      destruct (partition sep s) as [[a m] b] eqn:P. simpl in *.
      intros [|i] Hocc.
      * destruct Hocc as (x & y & Hxy & Hlen).
        destruct x; [|discriminate]. simpl in Hxy.
        pose proof (partition_concat _ _ _ _ _ P) as Hs.
        assert (Hst : starts_with sep (c :: s) = true).
        { apply starts_with_iff. exists (y ++ m ++ b).
          rewrite Hs, app_comm_cons, Hxy. now rewrite <- app_assoc. }
        congruence.
      * apply (IH i). destruct Hocc as (x & y & Hxy & Hlen).
        destruct x as [|c' x]; [discriminate|].
        inversion Hxy; subst. exists x, y.
        split; [reflexivity | simpl in Hlen; congruence].
Qed.

(** X1.  The body that [split_document] returns never contains
    'THE END', whatever the payload; splitting the body again gives the body
    itself and an empty footer, and parsing it gives the same chapters. *)
Theorem body_without_end_marker (payload : text) :
  let body := fst (split_document payload) in
  absent (lit "THE END") body
  /\ split_document body = (body, [])
  /\ chapters (parse_text body) = chapters (parse_text payload)
  /\ copyright (parse_text body) = [].
Proof.
  cbv zeta.
  assert (Habs : absent (lit "THE END") (fst (split_document payload))).
  { unfold split_document.
    pose proof (partition_before_absent (lit "THE END") payload) as H.
    destruct (partition (lit "THE END") payload) as [[a m] b]. simpl in *.
    apply absent_strip, H. discriminate. }
  assert (Hsplit : split_document (fst (split_document payload))
                   = (fst (split_document payload), [])).
  { rewrite (split_document_absent _ Habs). f_equal.
    apply split_document_stripped. }
  split; [exact Habs | split; [exact Hsplit | split]].
  - unfold parse_text at 1. rewrite Hsplit. simpl.
    unfold parse_text. now destruct (split_document payload).
  - unfold parse_text. rewrite Hsplit. reflexivity.
Qed.

Lemma hyphens_split (n : nat) :
  3 <= n -> hyphens n = lit "---" ++ hyphens (n - 3).
Proof.
  intros H. unfold hyphens.
  replace n with (3 + (n - 3)) at 1 by lia.
  now rewrite repeat_app.
Qed.

(** X2.  When the footer starts with a separator line of [n]
    hyphens, [n >= 3], only the first three are taken as the separator: the
    copyright starts with the other [n - 3] hyphens. *)
Theorem copyright_keeps_extra_hyphens (n : nat) (rest : text) :
  3 <= n ->
  copyright_of (hyphens n ++ rest) = strip (hyphens (n - 3) ++ rest).
Proof.
  intros H. unfold copyright_of, split1_last.
  rewrite (hyphens_split n H), <- app_assoc.
  rewrite partition_here by apply starts_with_app.
  now rewrite skipn_app, skipn_all, Nat.sub_diag.
Qed.

Lemma copyright_keeps_extra_hyphens_witness :
  copyright_of (hyphens 5 ++ [nl] ++ lit "C 2025") = lit "--" ++ [nl] ++ lit "C 2025".
Proof.
  rewrite (copyright_keeps_extra_hyphens 5 ([nl] ++ lit "C 2025")) by lia.
  reflexivity.
Defined.

(** ** The <pre> element, again *)

Lemma search_from_complete fl s r (n p q : nat) (m : rmatch) :
  p <= q <= p + n ->
  match_at fl s r q = Some m ->
  exists m', search_from fl s r n p = Some m'.
Proof.
  revert p. induction n as [|n IH]; intros p Hq Hm; simpl.
  - assert (q = p) by lia. subst. rewrite Hm. eauto.
  - destruct (match_at fl s r p) as [m0|] eqn:E; [eauto|].
    apply IH; auto. assert (q <> p) by congruence. lia.
Qed.

(** A text with the two delimiters has a match of [pre_regex]. *)
Lemma pre_regex_complete html :
  has_pre html -> exists m, search DOTALL html pre_regex = Some m.
Proof.
  intros (a & attr & b & c & Heq & Hattr).
  assert (S0 : skipn (length a) html
               = lit "<pre" ++ attr ++ [">"%char] ++ b ++ lit "</pre>" ++ c).
  { rewrite Heq. now apply skipn_app_exact. }
  assert (S1 : skipn (length a + 4) html
               = attr ++ [">"%char] ++ b ++ lit "</pre>" ++ c).
  { rewrite Nat.add_comm, <- skipn_skipn, S0. reflexivity. }
  assert (S2 : skipn (length a + 4 + length attr) html
               = [">"%char] ++ b ++ lit "</pre>" ++ c).
  { rewrite Nat.add_comm, <- skipn_skipn, S1. now apply skipn_app_exact. }
  set (x := S (length a + 4 + length attr)).
  assert (S3 : skipn x html = b ++ lit "</pre>" ++ c).
  { unfold x. change (S (length a + 4 + length attr))
      with (1 + (length a + 4 + length attr)).
    rewrite <- skipn_skipn, S2. reflexivity. }
  assert (S4 : skipn (x + length b) html = lit "</pre>" ++ c).
  { rewrite Nat.add_comm, <- skipn_skipn, S3. now apply skipn_app_exact. }
  set (st0 := start_state (length a)).
  set (st3 := mv st0 x).
  assert (Hmem : In (mv (close_group 1 x (mv st3 (x + length b)))
                        (x + length b + 6))
                    (ends DOTALL html pre_regex st0)).
  { unfold pre_regex.
    apply in_Seq. exists (mv st0 (length a + 4)). split.
    { apply in_Word; [discriminate|]. split; auto.
      cbn [pos st0 start_state]. rewrite S0. apply starts_with_app. }
    apply in_Seq. exists (mv st0 (length a + 4 + length attr)). split.
    { apply (in_Star DOTALL html Greedy (Cls not_gt) not_gt); [apply charlike_Cls|].
      exists (length attr). cbn [pos mv]. split; auto.
      rewrite S1. cbn [app]. rewrite span_len_app_stop; auto. }
    apply in_Seq. exists st3. split.
    { apply in_Chr. cbn [pos mv]. split; auto.
      rewrite nth_error_skipn_hd, S2. reflexivity. }
    apply in_Seq. exists (close_group 1 x (mv st3 (x + length b))). split.
    { apply in_Grp. exists (mv st3 (x + length b)). split; auto.
      apply (in_Star DOTALL html Lazy Dot _ _ _ (charlike_Dot DOTALL html)).
      exists (length b). cbn [pos mv st3]. split; auto.
      rewrite S3. 
      replace (span_len _ _) with (length (b ++ lit "</pre>" ++ c))
        by (symmetry; apply span_len_true).
      rewrite length_app. lia. }
    apply in_Word; [discriminate|]. cbn [pos close_group mv].
    split; [rewrite S4; apply starts_with_app | reflexivity]. }
  destruct (In_hd_error _ _ _ Hmem) as (y & Hy).
  apply (search_from_complete DOTALL html pre_regex (length html) 0 (length a)
           (match_of (length a) y)).
  - rewrite Heq, length_app. lia.
  - unfold match_at. fold st0. now rewrite Hy.
Qed.

(** X3.  The run fails with [EnvelopeNotFound] exactly
    when the text of the input file has no "<pre", characters other than
    ">", ">", and a later "</pre>". *)
Theorem envelope_not_found_iff (w : world) (input_path output_path : string) :
  (forall html, read_pre html = Raise EnvelopeNotFound <-> ~ has_pre html)
  /\ (process_document w input_path output_path = Aborted EnvelopeNotFound
      <-> exists html, files w input_path = Some html /\ ~ has_pre html).
Proof.
  assert (H : forall html,
             read_pre html = Raise EnvelopeNotFound <-> ~ has_pre html).
  { intros html. split; [|apply read_pre_not_found].
    intros Hr Hp. apply pre_regex_complete in Hp as (m & Hm).
    unfold read_pre in Hr. rewrite Hm in Hr.
    destruct (strip (group_text html m 1)); discriminate. }
  split; [exact H|].
  unfold process_document, read_payload.
  destruct (files w input_path) as [html|]; split.
  - intros Hp. exists html. split; auto. apply H.
    destruct (read_pre html) as [t|e]; [|congruence].
    destruct (writable w output_path); discriminate.
  - intros (h & Hh & Hno). inversion Hh; subst.
    apply H in Hno. now rewrite Hno.
  - discriminate.
  - intros (h & Hh & _). discriminate.
Qed.

Lemma envelope_not_found_iff_witness :
  ~ has_pre (lit "no envelope")
  /\ exists html,
       files (one_file (lit "</pre><pre>") true) "orig.html" = Some html
       /\ ~ has_pre html.
Proof.
  split.
  - apply (proj1 (envelope_not_found_iff (one_file [] true) "a" "b")
             (lit "no envelope")).
    reflexivity.
  - apply (proj2 (envelope_not_found_iff (one_file (lit "</pre><pre>") true)
                    "orig.html" "aow.json")).
    reflexivity.
Defined.

(** X4.  The payload is the stripped text between the
    first ">" after the first "<pre" and the first "</pre>" after it; what
    follows that "</pre>", further <pre> elements included, is ignored, and so
    is what stands between "<pre" and ">". *)
Theorem payload_of_first_pre (html a attr b c : text) :
  first_occurrence (lit "<pre") html a
    (attr ++ [">"%char] ++ b ++ lit "</pre>" ++ c) ->
  forallb not_gt attr = true ->
  (forall j, j < length b -> ~ occurs_at (lit "</pre>") (b ++ lit "</pre>" ++ c) j) ->
  strip b <> [] ->
  read_pre html = Ok (strip b)
  /\ forall w input_path output_path,
       files w input_path = Some html ->
       writable w output_path = true ->
       process_document w input_path output_path
       = Written output_path (parse_text (strip b)).
Proof.
  intros Hfirst Hattr Hb Hne.
  assert (H : read_pre html = Ok (strip b)).
  { rewrite (read_pre_enclosed html a attr b c Hfirst Hattr Hb).
    destruct (strip b); [congruence | reflexivity]. }
  split; auto.
  intros w i o Hf Hw. unfold process_document, read_payload.
  now rewrite Hf, H, Hw.
Qed.

Lemma payload_of_first_pre_witness :
  read_pre (lit "<p><pre id=x> a </pre><pre>b</pre>") = Ok (lit "a").
Proof.
  apply (payload_of_first_pre (lit "<p><pre id=x> a </pre><pre>b</pre>")
           (lit "<p>") (lit " id=x") (lit " a ") (lit "<pre>b</pre>")).
  - apply (first_occurrence_check (lit "<pre") (lit "<p>")
             (lit " id=x" ++ [">"%char] ++ lit " a " ++ lit "</pre>"
                ++ lit "<pre>b</pre>")).
    reflexivity.
  - reflexivity.
  - intros j Hj Hocc.
    apply occurs_at_iff in Hocc; [|simpl in *; lia].
    simpl in Hj.
    destruct j as [|[|[|j]]]; try discriminate. lia.
  - discriminate.
Defined.

(** The reported match of [pre_regex]: its group contains no "</pre>". *)
Lemma pre_regex_match html p st :
  hd_error (ends DOTALL html pre_regex (start_state p)) = Some st ->
  exists x e,
    caps st = [(1, (x, e))]
    /\ forall j, x <= j < e -> starts_with (lit "</pre>") (skipn j html) = false.
Proof.
  unfold pre_regex. intros H.
  apply hd_Seq in H as (x1 & H1 & H).
  apply in_Word in H1 as [_ ->]; [|discriminate].
  apply hd_Seq in H as (x2 & H2 & H).
  apply (in_Star DOTALL html Greedy (Cls not_gt) not_gt) in H2 as (k & _ & ->);
    [|apply charlike_Cls].
  apply hd_Seq in H as (x3 & H3 & H). apply in_Chr in H3 as [_ ->].
  apply (hd_lazy_group DOTALL html 1 Dot _ _ _ _ (charlike_Dot DOTALL html)) in H
    as (i & _ & Hy & Hj).
  rewrite ends_Word in Hy by discriminate.
  cbn [pos caps mv close_group start_state] in *.
  set (x := S (p + length (lit "<pre") + k)) in *.
  destruct (starts_with (lit "</pre>") (skipn (x + i) html)); [|discriminate].
  inversion Hy; subst st. exists x, (x + i). split; [reflexivity|].
  intros j Hjx. specialize (Hj (j - x)).
  rewrite ends_Word in Hj by discriminate.
  cbn [pos caps mv close_group] in Hj.
  replace (x + (j - x)) with j in Hj by lia.
  destruct (starts_with (lit "</pre>") (skipn j html)); auto.
  assert (Hlt : j - x < i) by lia. specialize (Hj Hlt). discriminate.
Qed.

Lemma slice_infix (s : text) (a b : nat) :
  s = firstn a s ++ slice s a b ++ skipn (b - a) (skipn a s).
Proof. unfold slice. now rewrite !firstn_skipn. Qed.

Lemma absent_slice (sep s : text) (x e : nat) :
  (forall j, x <= j < e -> starts_with sep (skipn j s) = false) ->
  sep <> [] ->
  absent sep (slice s x e).
Proof.
  intros Hno Hsep i Hocc.
  pose proof (occurs_at_bound _ _ _ Hocc) as Hb.
  unfold slice in Hb. rewrite length_firstn in Hb.
  assert (Hlen : 0 < length sep) by (destruct sep; [congruence | simpl; lia]).
  destruct Hocc as (a' & b' & E & Hi).
  assert (Hs : skipn (x + i) s = sep ++ b' ++ skipn (e - x) (skipn x s)).
  { rewrite Nat.add_comm, <- skipn_skipn.
    rewrite <- (firstn_skipn (e - x) (skipn x s)) at 1.
    fold (slice s x e). rewrite E, <- !app_assoc.
    now apply skipn_app_exact. }
  pose proof (starts_with_app sep (b' ++ skipn (e - x) (skipn x s))) as Ht.
  rewrite <- Hs, (Hno (x + i)) in Ht by lia. discriminate.
Qed.

(** X5.  Whatever text the run goes on to parse is taken from the
    input as it stands: it is a non-empty part of the input, has no white
    space at either end, and contains no "</pre>". *)
Theorem payload_invariants (html t : text) :
  read_pre html = Ok t ->
  t <> []
  /\ strip t = t
  /\ absent (lit "</pre>") t
  /\ exists l r, html = l ++ t ++ r.
Proof.
  unfold read_pre. intros H.
  destruct (search DOTALL html pre_regex) as [m|] eqn:Hm; [|discriminate].
  destruct (strip (group_text html m 1)) as [|c u] eqn:Hs; [discriminate|].
  inversion H; subst t. rewrite <- Hs.
  split; [rewrite Hs; discriminate|].
  split; [apply strip_idem|].
  unfold search in Hm. apply search_from_sound in Hm as (q & _ & Hm).
  apply match_at_inv in Hm as (st & Hst & ->).
  apply pre_regex_match in Hst as (x & e & Hcaps & Hno).
  assert (Hg : group_text html (match_of q st) 1 = slice html x e).
  { unfold group_text, group, match_of. cbn [m_caps]. rewrite Hcaps. reflexivity. }
  rewrite Hg. split.
  - apply absent_strip, absent_slice; [auto | discriminate].
  - destruct (strip_split (slice html x e)) as (l & r & E & _).
    exists (firstn x html ++ l), (r ++ skipn (e - x) (skipn x html)).
    rewrite (slice_infix html x e) at 1. rewrite E at 1.
    now rewrite <- !app_assoc.
Qed.

Lemma payload_invariants_witness :
  absent (lit "</pre>") (lit "I. A").
Proof.
  apply (payload_invariants (lit "<pre> I. A </pre></pre>") (lit "I. A")).
  reflexivity.
Defined.

(** ** The order of the matches, and what the output keeps of the text *)

Lemma chain_spans fl s r (lo : nat) ms :
  chain fl s r lo ms ->
  spans_from lo (map (fun m => (m_start m, m_end m)) ms).
Proof.
  revert lo. induction ms as [|m ms IH]; intros lo Hc; simpl; auto.
  destruct Hc as (H1 & H2 & _ & H4). auto.
Qed.

Lemma line_matches block m :
  In m (finditer MULTILINE_DOTALL block line_regex) ->
  exists d1 d2 a,
    line_span block (m_start m) d1 d2 a (m_end m)
    /\ group_text block m 1 = slice block a (m_end m).
Proof.
  intros Hm.
  pose proof (finditer_chain MULTILINE_DOTALL block _ (line_regex_advancing block))
    as Hc.
  destruct (chain_in _ _ _ _ _ _ Hc Hm) as (_ & _ & Hat).
  apply match_at_inv in Hat as (st & H & Heq).
  apply line_match in H as (d1 & d2 & a & e & Hspan & ->).
  rewrite Heq. exists d1, d2, a. split; auto.
Qed.

(** X6.  The entries that [findall] returns for a
    content block come from numbered lines of the block, in the order of the
    text: each entry is the text after the marker of a line (white space, a
    number, a period, white space) at the start of a line, and the stretches
    from which the entries come, marker included, do not overlap. *)
Theorem numbered_lines_in_order (block : text) :
  exists spans : list (nat * nat),
    spans_from 0 spans
    /\ Forall2 (fun pe raw =>
                  exists d1 d2 a,
                    line_span block (fst pe) d1 d2 a (snd pe)
                    /\ raw = slice block a (snd pe))
               spans (find_lines block).
Proof.
  exists (map (fun m => (m_start m, m_end m))
              (finditer MULTILINE_DOTALL block line_regex)).
  split.
  - apply (chain_spans MULTILINE_DOTALL block line_regex).
    apply finditer_chain, line_regex_advancing.
  - unfold find_lines. apply Forall2_map_same.
    intros m Hm. apply line_matches in Hm as (d1 & d2 & a & Hspan & Hg).
    exists d1, d2, a. auto.
Qed.

(** X7.  The chapters come from stretches of the body
    that do not overlap and follow each other in the order of the output:
    each stretch runs from the numeral of a chapter to the end of its content
    block, so no numbered line is counted for two chapters. *)
Theorem chapters_do_not_overlap (body : text) :
  exists spans : list (nat * nat),
    spans_from 0 spans
    /\ Forall2 (fun pe ch =>
                  exists w p2 q,
                    chapter_span body (fst pe) w p2 q (snd pe)
                    /\ ch = {| chapter_number := w;
                               chapter_title := strip (slice body p2 q);
                               content := map strip
                                            (find_lines (slice body (S q) (snd pe))) |})
               spans (find_chapters body).
Proof.
  exists (map (fun m => (m_start m, m_end m))
              (finditer MULTILINE body chapter_regex)).
  split.
  - apply (chain_spans MULTILINE body chapter_regex).
    apply finditer_chain, chapter_regex_advancing.
  - unfold find_chapters. apply Forall2_map_same.
    intros m Hm. apply chapter_matches in Hm as (w & p2 & q & e & Hspan & Heq).
    assert (He : m_end m = e) by (rewrite Heq; reflexivity).
    exists w, p2, q. cbn [fst snd]. rewrite He. split; auto.
    rewrite Heq. now apply chapter_of_span.
Qed.

(** X8.  In the record that a run dumps, the copyright, the
    titles and the entries have no white space at either end, and a title
    contains no newline. *)
Theorem written_texts_trimmed (w : world) (input_path output_path path : string)
    (data : document) :
  process_document w input_path output_path = Written path data ->
  strip (copyright data) = copyright data
  /\ forall ch, In ch (chapters data) ->
       strip (chapter_title ch) = chapter_title ch
       /\ ~ In nl (chapter_title ch)
       /\ forall e, In e (content ch) -> strip e = e.
Proof.
  unfold process_document.
  destruct (read_payload w input_path) as [full_text|e]; [|discriminate].
  destruct (writable w output_path); [|discriminate].
  intros H. inversion H; subst. clear H.
  unfold parse_text. destruct (split_document full_text) as [main footer].
  cbn [chapters copyright]. split; [apply strip_idem|].
  intros ch Hch.
  apply find_chapters_In in Hch as (p & x & p2 & q & e & Hspan & ->).
  cbn [chapter_title content]. split; [apply strip_idem|]. split.
  - intros Hin. apply In_strip in Hin.
    pose proof (cs_title _ _ _ _ _ _ Hspan) as Ht.
    rewrite forallb_forall in Ht. apply Ht in Hin.
    unfold not_nl in Hin. rewrite Ascii.eqb_refl in Hin. discriminate.
  - intros e0 He. apply in_map_iff in He as (raw & <- & _). apply strip_idem.
Qed.

Lemma written_texts_trimmed_witness :
  strip (lit "C") = lit "C".
Proof.
  apply (written_texts_trimmed
           (one_file (html_of (lit "I. A" ++ [nl] ++ lit "1. a" ++ [nl]
                                 ++ lit "THE END --- C")) true)
           "orig.html" "aow.json" "aow.json"
           (parse_text (lit "I. A" ++ [nl] ++ lit "1. a" ++ [nl]
                          ++ lit "THE END --- C"))).
  vm_compute. reflexivity.
Defined.

(** ** Text without numbered lines *)

Lemma line_span_digit_dot block p d1 d2 a e :
  line_span block p d1 d2 a e ->
  nth_error block d2 = Some "."%char /\ digit_before block d2 = true.
Proof.
  intros H. split; [apply H|].
  pose proof (ls_number_len _ _ _ _ _ _ H) as Hlen.
  pose proof (ls_dot _ _ _ _ _ _ H) as Hdot.
  destruct d2 as [|i]; [lia|]. simpl.
  assert (Hi : i < length block).
  { assert (S i < length block) by (apply nth_error_Some; congruence). lia. }
  destruct (nth_error block i) as [c|] eqn:E.
  - apply (forallb_slice is_digit block d1 (S i) (ls_number _ _ _ _ _ _ H) i c);
      [lia | auto].
  - apply nth_error_None in E. lia.
Qed.

Lemma digit_before_slice (s : text) (a b j : nat) :
  j < b - a ->
  digit_before (slice s a b) j = true -> digit_before s (a + j) = true.
Proof.
  intros Hj. destruct j as [|i]; simpl; [discriminate|].
  rewrite nth_error_slice by lia.
  now rewrite Nat.add_succ_r.
Qed.

(** X9.  A numbered line needs a digit right before a
    period: a content block in which no period follows a digit has no
    entries, and in a body of that kind every chapter has an empty
    content. *)
Theorem text_without_numbers_has_no_entries (body : text) :
  (forall j, nth_error body j = Some "."%char -> digit_before body j = false) ->
  find_lines body = []
  /\ forall ch, In ch (find_chapters body) -> content ch = [].
Proof.
  intros Hno.
  assert (Hnone : forall s,
             (forall j, nth_error s j = Some "."%char -> digit_before s j = false) ->
             find_lines s = []).
  { intros s Hs. destruct (find_lines s) as [|raw l] eqn:E; auto.
    assert (Hin : In raw (find_lines s)) by (rewrite E; now left).
    apply find_lines_In in Hin as (p & d1 & d2 & a & e & Hspan & _).
    apply line_span_digit_dot in Hspan as [Hdot Hdig].
    rewrite (Hs _ Hdot) in Hdig. discriminate. }
  split; [now apply Hnone|].
  intros ch Hch.
  apply find_chapters_In in Hch as (p & w & p2 & q & e & Hspan & ->).
  cbn [content]. rewrite Hnone; auto.
  intros j Hj.
  assert (Hlt : j < e - S q).
  { assert (Hs : j < length (slice body (S q) e))
      by (apply nth_error_Some; congruence).
    unfold slice in Hs. rewrite length_firstn in Hs. lia. }
  rewrite nth_error_slice in Hj by auto.
  destruct (digit_before (slice body (S q) e) j) eqn:Hd; auto.
  apply digit_before_slice in Hd; auto.
  rewrite (Hno _ Hj) in Hd. discriminate.
Qed.

Lemma text_without_numbers_has_no_entries_witness :
  find_lines (lit "I. A" ++ [nl] ++ lit "a.") = [].
Proof.
  apply (text_without_numbers_has_no_entries (lit "I. A" ++ [nl] ++ lit "a.")).
  intros j Hj.
  do 8 (destruct j as [|j]; [simpl in *; first [reflexivity | discriminate]|]).
  destruct j; discriminate.
Defined.

(** ** The sample file *)

(** X10.  The file that [create_dummy_file] writes holds the sample text
    without a <pre> element around it, so [process_document] rejects it with
    [EnvelopeNotFound], whatever else the file system holds and whatever the
    output path; the other files are left as they were. *)
Theorem dummy_file_is_rejected (w w' : world) (path output_path : string) :
  create_dummy_file w path = Some w' ->
  files w' path = Some (strip dummy_content)
  /\ (forall p, p <> path -> files w' p = files w p)
  /\ process_document w' path output_path = Aborted EnvelopeNotFound.
Proof.
  unfold create_dummy_file, write_text.
  destruct (writable w path); [|discriminate].
  intros H. inversion H; subst w'. clear H. cbn [files].
  assert (Hf : (if String.eqb path path then Some (strip dummy_content)
                else files w path) = Some (strip dummy_content))
    by now rewrite String.eqb_refl.
  split; [exact Hf|]. split.
  - intros p Hp. apply String.eqb_neq in Hp. now rewrite Hp.
  - unfold process_document, read_payload. cbn [files]. rewrite Hf.
    assert (Hr : read_pre (strip dummy_content) = Raise EnvelopeNotFound)
      by (vm_compute; reflexivity).
    now rewrite Hr.
Qed.

Lemma dummy_file_is_rejected_witness :
  main {| files := fun p => if String.eqb p "orig.html"
                            then Some (strip dummy_content) else None;
          writable := fun _ => true |}
  = Aborted EnvelopeNotFound.
Proof.
  apply (dummy_file_is_rejected
           {| files := fun _ => None; writable := fun _ => true |}
           {| files := fun p => if String.eqb p "orig.html"
                                then Some (strip dummy_content) else None;
              writable := fun _ => true |}
           "orig.html" "aow.json").
  reflexivity.
Defined.

(** ** Entries that come back *)

Lemma digit_not_space (c : ascii) : is_digit c = true -> is_space c = false.
Proof.
  destruct c as [[] [] [] [] [] [] [] []]; intros H; vm_compute in H |- *;
    congruence.
Qed.

Lemma string_of_uint_digits (d : Decimal.uint) :
  forallb is_digit (lit (DecimalString.NilEmpty.string_of_uint d)) = true.
Proof. induction d; simpl; auto. Qed.

Lemma revapp_nonnil (d acc : Decimal.uint) :
  acc <> Decimal.Nil -> Decimal.revapp d acc <> Decimal.Nil.
Proof.
  revert acc; induction d; intros acc H; simpl; auto; apply IHd; discriminate.
Qed.

Lemma to_little_uint_nonnil (n : nat) (acc : Decimal.uint) :
  acc <> Decimal.Nil -> Nat.to_little_uint n acc <> Decimal.Nil.
Proof.
  revert acc; induction n as [|n IH]; intros acc H; simpl; auto.
  apply IH. destruct acc; discriminate.
Qed.

Lemma to_uint_nonnil (n : nat) : Nat.to_uint n <> Decimal.Nil.
Proof.
  unfold Nat.to_uint, Decimal.rev.
  pose proof (to_little_uint_nonnil n Decimal.zero) as H.
  destruct (Nat.to_little_uint n Decimal.zero);
    [exfalso; apply H; [discriminate | reflexivity] | ..];
    simpl; apply revapp_nonnil; discriminate.
Qed.

Lemma line_marker_digits (i : nat) :
  exists dig, dig <> [] /\ forallb is_digit dig = true
              /\ line_marker i = dig ++ lit ". ".
Proof.
  exists (lit (DecimalString.NilEmpty.string_of_uint (Nat.to_uint i))).
  split; [|split; [apply string_of_uint_digits | reflexivity]].
  pose proof (to_uint_nonnil i) as H.
  destruct (Nat.to_uint i); [congruence | ..]; discriminate.
Qed.

Lemma ends_Plus_greedy_head fl s r p st :
  charlike fl s r p ->
  1 <= span_len p (skipn (pos st) s) ->
  exists l,
    ends fl s (Plus Greedy r) st
    = mv st (pos st + span_len p (skipn (pos st) s)) :: l.
Proof.
  intros Hc Hspan.
  change (ends fl s (Plus Greedy r) st)
    with (flat_map (ends fl s (Star Greedy r)) (ends fl s r st)).
  rewrite (Hc st). unfold one_char.
  destruct (skipn (pos st) s) as [|c t] eqn:E; simpl in Hspan; [lia|].
  destruct (skipn_cons_inv _ _ _ _ _ E) as [Hn Ht].
  rewrite Hn. simpl span_len.
  destruct (p c) eqn:Hp; [|lia].
  cbn [flat_map].
  destruct (ends_Star_greedy_head fl s r p (mv st (S (pos st))) Hc) as (l & Hl).
  rewrite Hl. cbn [pos mv caps]. rewrite <- Ht.
  exists (l ++ []). simpl. f_equal. unfold mv. f_equal. lia.
Qed.

Lemma finditer_from_hit fl s r (n p resume : nat) (m : rmatch) :
  resume <= p -> match_at fl s r p = Some m -> p < m_end m ->
  finditer_from fl s r n p resume
  = m :: match n with
         | 0 => []
         | S n' => finditer_from fl s r n' (S p) (m_end m)
         end.
Proof.
  intros Hr Hm Hlt.
  assert (H1 : (p <? resume) = false) by (apply Nat.ltb_ge; lia).
  assert (H2 : (p <? m_end m) = true) by (apply Nat.ltb_lt; lia).
  destruct n; simpl; now rewrite H1, Hm, H2.
Qed.

Lemma finditer_from_miss fl s r (n p resume : nat) :
  p < resume \/ match_at fl s r p = None ->
  finditer_from fl s r n p resume
  = match n with
    | 0 => []
    | S n' => finditer_from fl s r n' (S p) resume
    end.
Proof.
  intros H. destruct (Nat.ltb_spec p resume) as [Hlt|Hge].
  - apply Nat.ltb_lt in Hlt. destruct n; simpl; now rewrite Hlt.
  - destruct H as [H|H]; [lia|].
    assert (H1 : (p <? resume) = false) by (apply Nat.ltb_ge; lia).
    destruct n; simpl; now rewrite H1, H.
Qed.

Lemma finditer_from_skip fl s r (k n p resume : nat) :
  (forall j, p <= j < p + k -> j < resume \/ match_at fl s r j = None) ->
  finditer_from fl s r (k + n) p resume = finditer_from fl s r n (p + k) resume.
Proof.
  revert p. induction k as [|k IH]; intros p H.
  - now rewrite Nat.add_0_r.
  - change (S k + n) with (S (k + n)).
    rewrite finditer_from_miss by (apply H; lia).
    rewrite IH; [f_equal; lia|].
    intros j Hj. apply H. lia.
Qed.

Lemma line_regex_needs_line_start s p :
  at_line_start MULTILINE_DOTALL s p = false ->
  match_at MULTILINE_DOTALL s line_regex p = None.
Proof.
  intros H. destruct (match_at MULTILINE_DOTALL s line_regex p) eqn:E; auto.
  apply match_at_inv in E as (st & E & _).
  apply line_match in E as (d1 & d2 & a & e & Hs & _).
  rewrite (ls_line _ _ _ _ _ _ Hs) in H. discriminate.
Qed.

Lemma line_regex_not_at_end s p :
  length s <= p -> match_at MULTILINE_DOTALL s line_regex p = None.
Proof.
  intros H. destruct (match_at MULTILINE_DOTALL s line_regex p) eqn:E; auto.
  apply match_at_inv in E as (st & E & _).
  apply line_match in E as (d1 & d2 & a & e & Hs & _).
  pose proof (ls_dot _ _ _ _ _ _ Hs) as Hd.
  assert (d2 < length s) by (apply nth_error_Some; congruence).
  pose proof (ls_indent_len _ _ _ _ _ _ Hs).
  pose proof (ls_number_len _ _ _ _ _ _ Hs). lia.
Qed.

Lemma span_len_pos p (s : text) (q : nat) :
  1 <= span_len p (skipn q s) ->
  exists c, nth_error s q = Some c /\ p c = true.
Proof.
  rewrite nth_error_skipn_hd.
  destruct (skipn q s) as [|c t]; simpl; [lia|].
  destruct (p c) eqn:E; [eauto | lia].
Qed.

(** What the text looks like where the lookahead of the pattern of the
    numbered lines succeeds. *)
Lemma line_stop_inv s st x :
  In x (ends MULTILINE_DOTALL s line_stop st) ->
  match skipn (pos st) s with
  | [] => True
  | c :: t =>
      (c = nl /\ exists k c', nth_error t k = Some c'
                              /\ (is_digit c' = true \/ c' = "I"%char))
      \/ c = "V"%char \/ c = "X"%char
      \/ (c = "I"%char
          /\ exists c' t', t = c' :: t'
               /\ (c' = "I"%char \/ c' = "V"%char \/ c' = "X"%char))
  end.
Proof.
  intros H. apply in_Alts in H as (r' & Hr & H).
  assert (Hword : forall w y, w <> [] ->
            In y (ends MULTILINE_DOTALL s (Word w) st) ->
            exists b, skipn (pos st) s = w ++ b).
  { intros w y Hw Hin. apply in_Word in Hin as [Hin _]; auto.
    now apply starts_with_iff. }
  cbn [In] in Hr.
  repeat (destruct Hr as [<-|Hr]); try contradiction;
    try (apply Hword in H as (b & ->); [|discriminate]; cbn [lit list_ascii_of_string app]).
  - apply in_Seq in H as (x1 & H1 & H). apply in_Chr in H1 as [Hc ->].
    apply in_Seq in H as (x2 & H2 & H).
    apply (in_Star MULTILINE_DOTALL s Greedy space is_space) in H2
      as (k & _ & ->); [|apply charlike_Cls].
    apply in_Seq in H as (x3 & H3 & _).
    apply (in_Plus MULTILINE_DOTALL s Greedy digit is_digit) in H3
      as (k1 & Hk1 & _); [|apply charlike_Cls].
    cbn [pos mv] in Hk1.
    destruct (span_len_pos is_digit s (S (pos st) + k)) as (c' & Hc' & Hd); [lia|].
    rewrite (nth_error_skipn_cons _ _ _ _ Hc). left. split; auto.
    exists k, c'. rewrite nth_error_skipn. auto.
  - apply in_Seq in H as (x1 & H1 & H). apply in_Chr in H1 as [Hc ->].
    apply in_Seq in H as (x2 & H2 & H).
    apply (in_Star MULTILINE_DOTALL s Greedy space is_space) in H2
      as (k & _ & ->); [|apply charlike_Cls].
    apply in_Chr in H as [HI _]. cbn [pos mv] in HI.
    rewrite (nth_error_skipn_cons _ _ _ _ Hc). left. split; auto.
    exists k, "I"%char. rewrite nth_error_skipn. auto.
  - right; right; right. split; auto. eauto.
  - right; right; right. split; auto. eauto.
  - right; right; right. split; auto. eauto 6.
  - auto.
  - auto.
  - auto.
  - auto.
  - right; right; right. split; auto. eauto 6.
  - auto.
  - auto.
  - auto.
  - apply in_Seq in H as (x1 & H1 & _).
    apply Hword in H1 as (b & ->); [|discriminate].
    cbn [lit list_ascii_of_string app]. auto.
  - apply in_EndZ in H as [H _]. rewrite skipn_all2 by lia. exact I.
Qed.

Lemma plain_entry_no_stop s st (e rest : text) (j : nat) :
  plain_entry e -> j < length e ->
  match rest with [] => True | c :: _ => is_space c = true end ->
  skipn (pos st) s = skipn j e ++ rest ->
  ends MULTILINE_DOTALL s line_stop st = [].
Proof.
  intros (_ & _ & Hnl & HV & HX & HII) Hj Hrest Hs.
  destruct (ends MULTILINE_DOTALL s line_stop st) as [|x l] eqn:E; auto.
  exfalso.
  assert (Hin : In x (ends MULTILINE_DOTALL s line_stop st))
    by (rewrite E; now left).
  apply line_stop_inv in Hin. rewrite Hs in Hin.
  assert (Hsplit : e = firstn j e ++ skipn j e) by now rewrite firstn_skipn.
  destruct (skipn j e) as [|c t] eqn:Ee.
  { apply (f_equal (@length ascii)) in Hsplit.
    rewrite length_app, length_firstn in Hsplit. simpl in Hsplit. lia. }
  assert (Hc : In c e).
  { rewrite Hsplit. apply in_app_iff. right. now left. }
  cbn [app] in Hin.
  destruct Hin as [[-> _] | [-> | [-> | [-> (c' & t' & Ht & Hc')]]]]; auto.
  destruct t as [|c2 t2]; cbn [app] in Ht.
  - rewrite Ht in Hrest.
    destruct Hc' as [-> | [-> | ->]]; vm_compute in Hrest; discriminate.
  - inversion Ht; subst c' t'.
    assert (Hc2 : In c2 e).
    { rewrite Hsplit. apply in_app_iff. right. right. now left. }
    destruct Hc' as [-> | [-> | ->]]; auto.
    apply (HII j). exists (firstn j e), t2. split; [exact Hsplit|].
    rewrite length_firstn. lia.
Qed.

Lemma blank_no_stop s st :
  skipn (pos st) s <> [] ->
  forallb is_space (skipn (pos st) s) = true ->
  ends MULTILINE_DOTALL s line_stop st = [].
Proof.
  intros Hne Hsp.
  destruct (ends MULTILINE_DOTALL s line_stop st) as [|x l] eqn:E; auto.
  exfalso.
  assert (Hin : In x (ends MULTILINE_DOTALL s line_stop st))
    by (rewrite E; now left).
  apply line_stop_inv in Hin.
  destruct (skipn (pos st) s) as [|c t]; [congruence|].
  cbn [forallb] in Hsp. apply andb_prop in Hsp as [Hc Ht].
  destruct Hin as [[_ (k & c' & Hk & Hc')] | [-> | [-> | [-> _]]]];
    try (vm_compute in Hc; discriminate).
  apply nth_error_In in Hk. rewrite forallb_forall in Ht.
  apply Ht in Hk. destruct Hc' as [Hd | ->].
  - rewrite (digit_not_space _ Hd) in Hk. discriminate.
  - vm_compute in Hk. discriminate.
Qed.

Lemma line_stop_at_end s st :
  pos st = length s -> In st (ends MULTILINE_DOTALL s line_stop st).
Proof.
  intros H. apply in_Alts. exists EndZ. split.
  - cbn [In]. tauto.
  - now apply in_EndZ.
Qed.

Lemma dropwhile_to_digit (ind dig rest : text) :
  forallb is_space ind = true -> dig <> [] -> forallb is_digit dig = true ->
  dropwhile is_space (ind ++ dig ++ rest) = dig ++ rest.
Proof.
  intros Hind Hne Hdig. rewrite dropwhile_app_all by auto.
  apply dropwhile_fix. destruct dig as [|c dig]; [congruence|].
  simpl in Hdig. apply andb_prop in Hdig as [Hc _].
  simpl. now apply digit_not_space.
Qed.

Lemma line_stop_before_number s st (ind dig rest : text) :
  forallb is_space ind = true ->
  dig <> [] -> forallb is_digit dig = true ->
  skipn (pos st) s = nl :: ind ++ dig ++ "."%char :: rest ->
  exists x, In x (ends MULTILINE_DOTALL s line_stop st).
Proof.
  intros Hind Hne Hdig Hs. apply line_stop_next.
  destruct (skipn_cons_inv _ _ _ _ _ Hs) as [Hn Ht].
  unfold numbered_line_next. rewrite Hn, Ascii.eqb_refl. cbv zeta.
  rewrite <- Ht, dropwhile_to_digit by auto.
  rewrite span_len_app_stop by auto.
  rewrite skipn_app_exact by reflexivity.
  assert (Hl : 1 <= length dig) by (destruct dig; [congruence | simpl; lia]).
  apply Nat.leb_le in Hl. rewrite Hl.
  apply (starts_with_app ["."%char] rest).
Qed.

Lemma ahead_line_stop_hd s st :
  (exists x, In x (ends MULTILINE_DOTALL s line_stop st)) ->
  hd_error (ends MULTILINE_DOTALL s (Ahead line_stop) st) = Some st.
Proof.
  intros (x & Hx).
  change (ends MULTILINE_DOTALL s (Ahead line_stop) st)
    with (match ends MULTILINE_DOTALL s line_stop st with
          | [] => []
          | st' :: _ => [{| pos := pos st; caps := caps st' |}]
          end).
  destruct (ends MULTILINE_DOTALL s line_stop st) as [|y l] eqn:E; [destruct Hx|].
  rewrite (group_free_caps MULTILINE_DOTALL s line_stop eq_refl st y)
    by (rewrite E; now left).
  now destruct st.
Qed.

Lemma span_len_app_head p (w t : text) :
  forallb p w = true ->
  match t with [] => True | c :: _ => p c = false end ->
  span_len p (w ++ t) = length w.
Proof.
  intros Hw Ht. destruct t as [|c t].
  - rewrite app_nil_r. apply Nat.le_antisymm; [apply span_len_length|].
    apply span_len_le. split; auto. now rewrite firstn_all.
  - now apply span_len_app_stop.
Qed.

(** The match of the pattern at the start of a numbered line with a plain
    entry: the group is the entry when another numbered line follows, and
    the entry with the white space after it when the block ends there. *)
Lemma numbered_line_match (pre ind dig gap e rest : text) :
  (pre = [] \/ exists pre', pre = pre' ++ [nl]) ->
  forallb is_space ind = true ->
  dig <> [] -> forallb is_digit dig = true ->
  gap <> [] -> forallb is_space gap = true ->
  plain_entry e ->
  forall dl,
  (forallb is_space rest = true /\ dl = length rest
   \/ dl = 0 /\ exists ind' dig' rest',
        forallb is_space ind' = true /\ dig' <> []
        /\ forallb is_digit dig' = true
        /\ rest = nl :: ind' ++ dig' ++ "."%char :: rest') ->
  let s := pre ++ (ind ++ dig ++ "."%char :: gap ++ e) ++ rest in
  let a := length pre + length ind + length dig + 1 + length gap in
  let i := length e + dl in
  match_at MULTILINE_DOTALL s line_regex (length pre)
  = Some {| m_start := length pre; m_end := a + i; m_caps := [(1, (a, a + i))] |}.
Proof.
  intros Hpre Hind Hne Hdig Hgne Hgap He dl Hrest s a i.
  set (p := length pre).
  set (d1 := p + length ind).
  set (d2 := d1 + length dig).
  assert (Hs : s = pre ++ ind ++ dig ++ "."%char :: gap ++ e ++ rest).
  { unfold s. repeat (rewrite <- app_assoc || rewrite <- app_comm_cons).
    reflexivity. }
  assert (T0 : skipn p s = ind ++ dig ++ "."%char :: gap ++ e ++ rest).
  { rewrite Hs. now apply skipn_app_exact. }
  assert (T1 : skipn d1 s = dig ++ "."%char :: gap ++ e ++ rest).
  { unfold d1. rewrite Nat.add_comm, <- skipn_skipn, T0.
    now apply skipn_app_exact. }
  assert (T2 : skipn d2 s = "."%char :: gap ++ e ++ rest).
  { unfold d2. rewrite Nat.add_comm, <- skipn_skipn, T1.
    now apply skipn_app_exact. }
  assert (T2' : skipn (S d2) s = gap ++ e ++ rest).
  { change (S d2) with (1 + d2). rewrite <- skipn_skipn, T2. reflexivity. }
  assert (Ha : a = S d2 + length gap) by (unfold a, d2, d1, p; lia).
  assert (T3 : forall j, skipn (a + j) s = skipn j (e ++ rest)).
  { intros j. rewrite Ha.
    replace (S d2 + length gap + j) with (j + (length gap + S d2)) by lia.
    rewrite <- !skipn_skipn, T2'. f_equal. now apply skipn_app_exact. }
  pose proof He as (Hene & Hstrip & _).
  assert (Hhead : match e with [] => True | c :: _ => is_space c = false end).
  { rewrite <- Hstrip. apply strip_head. }
  assert (Hrhead : match rest with [] => True | c :: _ => is_space c = true end).
  { destruct Hrest as [[Hr _] | (_ & ind' & dig' & rest' & _ & _ & _ & ->)];
      [|reflexivity].
    destruct rest; auto. simpl in Hr. now apply andb_prop in Hr as [Hc _]. }
  assert (Hline : at_line_start MULTILINE_DOTALL s p = true).
  { unfold p. destruct Hpre as [-> | (pre' & ->)]; [reflexivity|].
    rewrite length_app, Nat.add_comm. cbn [length plus at_line_start].
    rewrite Hs, <- !app_assoc.
    rewrite nth_error_app2, Nat.sub_diag by lia. reflexivity. }
  unfold match_at.
  assert (Hhd : hd_error (ends MULTILINE_DOTALL s line_regex (start_state p))
                = Some {| pos := a + i; caps := [(1, (a, a + i))] |});
    [|now rewrite Hhd].
  unfold line_regex.
  eapply hd_Seq_first.
  { cbn [ends pos start_state]. rewrite Hline. reflexivity. }
  destruct (ends_Star_greedy_head MULTILINE_DOTALL s space is_space
              (start_state p) (charlike_Cls MULTILINE_DOTALL s is_space))
    as (l & Hl).
  eapply hd_Seq_first; [exact Hl|]. clear Hl l.
  cbn [pos start_state]. rewrite T0.
  assert (Hsp0 : span_len is_space (ind ++ dig ++ "."%char :: gap ++ e ++ rest)
                 = length ind).
  { apply span_len_app_head; auto.
    destruct dig as [|d dig']; [congruence|].
    simpl in Hdig. apply andb_prop in Hdig as [Hd _].
    simpl. now apply digit_not_space. }
  rewrite Hsp0. fold d1.
  assert (Hspd : span_len is_digit (skipn d1 s) = length dig).
  { rewrite T1. apply span_len_app_stop; auto. }
  assert (Hlen : 1 <= length dig) by (destruct dig; [congruence | simpl; lia]).
  destruct (ends_Plus_greedy_head MULTILINE_DOTALL s digit is_digit
              (mv {| pos := p; caps := [] |} d1)
              (charlike_Cls MULTILINE_DOTALL s is_digit))
    as (l & Hl); [cbn [pos mv]; lia|].
  eapply hd_Seq_first; [exact Hl|]. clear Hl l.
  cbn [pos mv caps]. rewrite Hspd. fold d2.
  eapply hd_Seq_first.
  { apply ends_Chr_here. cbn [pos mv].
    rewrite nth_error_skipn_hd, T2. reflexivity. }
  cbn [pos mv caps].
  assert (Hsps : span_len is_space (skipn (S d2) s) = length gap).
  { rewrite T2'. apply span_len_app_head; auto.
    destruct e as [|c0 e0]; [congruence|]. exact Hhead. }
  assert (Hglen : 1 <= length gap) by (destruct gap; [congruence | simpl; lia]).
  destruct (ends_Plus_greedy_head MULTILINE_DOTALL s space is_space
              (mv (mv (mv {| pos := p; caps := [] |} d1) d2) (S d2))
              (charlike_Cls MULTILINE_DOTALL s is_space))
    as (l & Hl); [cbn [pos mv]; lia|].
  eapply hd_Seq_first; [exact Hl|]. clear Hl l.
  cbn [pos mv caps]. rewrite Hsps, <- Ha.
  unfold mv. cbn [pos caps].
  assert (Hlast : forall st, pos st = a + i ->
            exists x, In x (ends MULTILINE_DOTALL s line_stop st)).
  { intros st Hst.
    destruct Hrest as [[Hr Hdl] | (Hdl & ind' & dig' & rest' & Hi' & Hne' & Hd' & Hr)].
    - exists st. apply line_stop_at_end. rewrite Hst, Hs, Ha.
      unfold i, d2, d1, p. rewrite !length_app. cbn [length].
      rewrite !length_app. lia.
    - apply (line_stop_before_number s st ind' dig' rest'); auto.
      rewrite Hst. unfold i. rewrite Hdl, T3.
      rewrite Nat.add_0_r, skipn_app_exact by reflexivity. exact Hr. }
  apply (hd_lazy_group_first MULTILINE_DOTALL s 1 Dot
           (fun c => dotall MULTILINE_DOTALL || negb (Ascii.eqb c nl))
           (Ahead line_stop) _ _ i).
  - apply charlike_Dot.
  - cbn [pos]. rewrite <- (Nat.add_0_r a), T3. simpl skipn.
    replace (span_len _ _) with (length (e ++ rest))
      by (symmetry; apply span_len_true).
    rewrite length_app. unfold i.
    destruct Hrest as [[_ ->] | [-> _]]; lia.
  - intros j Hj. cbn [pos close_group mv caps].
    apply ends_Ahead_nil.
    destruct (Nat.lt_ge_cases j (length e)) as [Hje|Hje].
    + apply (plain_entry_no_stop s _ e rest j); auto.
      cbn [pos close_group mv]. rewrite T3, skipn_app.
      replace (j - length e) with 0 by lia. reflexivity.
    + destruct Hrest as [[Hr Hdl] | [Hdl _]]; [|unfold i in Hj; lia].
      assert (Hsk : skipn (a + j) s = skipn (j - length e) rest).
      { rewrite T3, skipn_app, skipn_all2 by lia. reflexivity. }
      apply blank_no_stop; cbn [pos close_group mv]; rewrite Hsk.
      * intros Hnil. apply (f_equal (@length ascii)) in Hnil.
        rewrite length_skipn in Hnil. simpl in Hnil. unfold i in Hj. lia.
      * rewrite forallb_forall in Hr. apply forallb_forall.
        intros c Hc. apply Hr.
        rewrite <- (firstn_skipn (j - length e) rest).
        apply in_app_iff. now right.
  - cbn [pos close_group mv caps].
    apply ahead_line_stop_hd. apply Hlast. reflexivity.
Qed.

Lemma finditer_from_none fl s r (n p resume : nat) :
  (forall j, p <= j -> match_at fl s r j = None) ->
  finditer_from fl s r n p resume = [].
Proof.
  revert p. induction n as [|n IH]; intros p H.
  - rewrite finditer_from_miss; auto.
  - rewrite finditer_from_miss by auto. apply IH. intros j Hj. apply H. lia.
Qed.

Lemma line_regex_needs_digit s p :
  (forall j c, p <= j -> nth_error s j = Some c -> is_digit c = false) ->
  match_at MULTILINE_DOTALL s line_regex p = None.
Proof.
  intros H. destruct (match_at MULTILINE_DOTALL s line_regex p) eqn:E; auto.
  apply match_at_inv in E as (st & E & _).
  apply line_match in E as (d1 & d2 & a & e & Hs & _).
  assert (Hd2 : d2 < length s).
  { apply nth_error_Some. rewrite (ls_dot _ _ _ _ _ _ Hs). discriminate. }
  destruct (slice_head is_digit s d1 d2 (ls_number _ _ _ _ _ _ Hs)
              (ls_number_len _ _ _ _ _ _ Hs)) as (c & Hc & Hd); [lia|].
  rewrite (H d1 c (ls_indent_len _ _ _ _ _ _ Hs) Hc) in Hd. discriminate.
Qed.

Lemma strip_entry_blank (e w : text) :
  e <> [] -> strip e = e -> forallb is_space w = true -> strip (e ++ w) = e.
Proof.
  intros Hne Hs Hw.
  assert (Hhead : match e with [] => True | c :: _ => is_space c = false end)
    by (rewrite <- Hs; apply strip_head).
  destruct e as [|c e']; [congruence|].
  assert (Hl : forall t, lstrip (c :: t) = c :: t)
    by (intros t; unfold lstrip; simpl; now rewrite Hhead).
  unfold strip in *. rewrite Hl in Hs.
  change ((c :: e') ++ w) with (c :: (e' ++ w)). rewrite Hl.
  transitivity (rstrip (c :: e')); [|exact Hs]. unfold rstrip.
  change (c :: e' ++ w) with ((c :: e') ++ w).
  rewrite rev_app_distr, dropwhile_app_all; auto.
  apply forallb_forall. intros x Hx. apply in_rev in Hx.
  rewrite forallb_forall in Hw. auto.
Qed.

(** The scan of a block of numbered lines with plain entries finds the
    entries, one for each line. *)
Lemma lines_text_scan (l : list line_src) :
  Forall line_ok l ->
  forall tail pre resume,
    forallb is_space tail = true ->
    (pre = [] \/ exists pre', pre = pre' ++ [nl]) ->
    resume <= length pre ->
    map strip
      (map (fun m => group_text (pre ++ lines_text l tail) m 1)
         (finditer_from MULTILINE_DOTALL (pre ++ lines_text l tail) line_regex
            (length (lines_text l tail)) (length pre) resume))
    = map l_entry l.
Proof.
  induction 1 as [|x l Hx Hl IH]; intros tail pre resume Htail Hpre Hres.
  - cbn [lines_text map]. rewrite finditer_from_none; [reflexivity|].
    intros j Hj. apply line_regex_needs_digit. intros j' c Hj' Hc.
    rewrite nth_error_app2 in Hc by lia. apply nth_error_In in Hc.
    rewrite forallb_forall in Htail. apply Htail in Hc.
    destruct (is_digit c) eqn:Hd; auto.
    rewrite (digit_not_space _ Hd) in Hc. discriminate.
  - destruct x as [ind dig gap e].
    destruct Hx as (Hind & Hne & Hdig & (Hgne & Hgap & _) & He).
    cbn [l_indent l_number l_gap l_entry] in Hind, Hne, Hdig, Hgne, Hgap, He.
    pose proof He as (Hene & Hstrip & Hnl & _).
    assert (Hlen : 1 <= length e) by (destruct e; [congruence | simpl; lia]).
    set (a := length pre + length ind + length dig + 1 + length gap).
    set (L := ind ++ dig ++ "."%char :: gap ++ e).
    assert (HL : length L = length ind + length dig + 1 + length gap + length e).
    { unfold L. rewrite !length_app. cbn [length]. rewrite length_app. lia. }
    assert (Hgroup : forall s i w,
              s = (pre ++ ind ++ dig ++ "."%char :: gap) ++ e ++ w ->
              forallb is_space (firstn (i - length e) w) = true ->
              length e <= i ->
              strip (group_text s
                       {| m_start := length pre; m_end := a + i;
                          m_caps := [(1, (a, a + i))] |} 1) = e).
    { intros s i w -> Hw Hi.
      unfold group_text, group. cbn [m_caps span_of Nat.eqb option_map fst snd].
      unfold slice. replace (a + i - a) with i by lia.
      rewrite skipn_app_exact
        by (rewrite !length_app; cbn [length]; unfold a; lia).
      rewrite firstn_app, firstn_all2 by lia.
      now apply strip_entry_blank. }
    destruct l as [|y l'].
    + (* the last line *)
      cbn [lines_text]. change (line_text _) with L.
      set (s := pre ++ L ++ tail).
      pose proof (numbered_line_match pre ind dig gap e tail Hpre Hind Hne Hdig
                    Hgne Hgap He (length tail) (or_introl (conj Htail eq_refl)))
        as Hm.
      cbv zeta in Hm. fold L s a in Hm.
      assert (Hslen : length s = a + (length e + length tail)).
      { unfold s. rewrite !length_app, HL. unfold a. lia. }
      replace (length (L ++ tail))
        with (S ((length s - S (length pre)) + 0))
        by (rewrite length_app, HL, Hslen; unfold a; lia).
      rewrite (finditer_from_hit _ _ _ _ _ _ _ Hres Hm)
        by (cbn [m_end]; unfold a; lia).
      cbn [m_end]. rewrite finditer_from_skip.
      * rewrite finditer_from_miss
          by (right; apply line_regex_not_at_end; lia).
        cbn [map]. f_equal.
        apply (Hgroup s _ tail).
        -- unfold s, L. repeat (rewrite <- app_assoc || rewrite <- app_comm_cons).
           reflexivity.
        -- replace (length e + length tail - length e) with (length tail) by lia.
           now rewrite firstn_all.
        -- lia.
      * intros j Hj. left. lia.
    + (* a line with another one after it *)
      change (lines_text ({| l_indent := ind; l_number := dig; l_gap := gap;
                             l_entry := e |} :: y :: l') tail)
        with (L ++ nl :: lines_text (y :: l') tail).
      set (R := lines_text (y :: l') tail) in *.
      set (s := pre ++ L ++ nl :: R).
      assert (HR : exists ind' dig' rest',
                 forallb is_space ind' = true /\ dig' <> []
                 /\ forallb is_digit dig' = true
                 /\ nl :: R = nl :: ind' ++ dig' ++ "."%char :: rest').
      { apply Forall_inv in Hl. destruct Hl as (Hi' & Hn' & Hd' & _).
        exists (l_indent y), (l_number y),
          (l_gap y ++ l_entry y
             ++ match l' with [] => tail | _ :: _ => nl :: lines_text l' tail end).
        repeat split; auto. unfold R. cbn [lines_text]. unfold line_text.
        repeat (rewrite <- app_assoc || rewrite <- app_comm_cons). reflexivity. }
      pose proof (numbered_line_match pre ind dig gap e (nl :: R) Hpre Hind Hne
                    Hdig Hgne Hgap He 0 (or_intror (conj eq_refl HR))) as Hm.
      cbv zeta in Hm. fold L s a in Hm. rewrite Nat.add_0_r in Hm.
      assert (Hs : s = (pre ++ ind ++ dig ++ "."%char :: gap) ++ e ++ nl :: R).
      { unfold s, L. repeat (rewrite <- app_assoc || rewrite <- app_comm_cons).
        reflexivity. }
      assert (Ha : length (pre ++ ind ++ dig ++ "."%char :: gap) = a).
      { rewrite !length_app. cbn [length]. unfold a. lia. }
      replace (length (L ++ nl :: R)) with (S (length L + length R))
        by (rewrite length_app; cbn [length]; lia).
      rewrite (finditer_from_hit _ _ _ _ _ _ _ Hres Hm)
        by (cbn [m_end]; unfold a; lia).
      cbn [m_end]. rewrite finditer_from_skip.
      * cbn [map]. f_equal.
        -- rewrite <- (Nat.add_0_r (length e)) at 1 2.
           apply (Hgroup s _ (nl :: R)); [exact Hs | | lia].
           rewrite Nat.add_0_r, Nat.sub_diag. reflexivity.
        -- replace s with ((pre ++ L ++ [nl]) ++ R)
             by (unfold s; repeat (rewrite <- app_assoc || rewrite <- app_comm_cons);
                 reflexivity).
           replace (S (length pre) + length L) with (length (pre ++ L ++ [nl]))
             by (rewrite !length_app; cbn [length]; lia).
           apply IH; auto.
           ++ right. exists (pre ++ L). now rewrite <- !app_assoc.
           ++ rewrite !length_app, HL. cbn [length]. unfold a. lia.
      * intros j Hj.
        destruct (Nat.lt_ge_cases j (a + length e)) as [Hlt|Hge]; [now left|].
        right. apply line_regex_needs_line_start.
        assert (Hje : j = S (a + (length e - 1))) by (rewrite HL in Hj; unfold a in *; lia).
        rewrite Hje. cbn [at_line_start multiline MULTILINE_DOTALL andb].
        rewrite Hs, nth_error_app2 by lia.
        replace (a + (length e - 1) - length (pre ++ ind ++ dig ++ "."%char :: gap))
          with (length e - 1) by lia.
        rewrite nth_error_app1 by lia.
        destruct (nth_error e (length e - 1)) as [c|] eqn:Ec.
        -- destruct (Ascii.eqb_spec c nl) as [->|Hc]; auto.
           exfalso. apply Hnl. eapply nth_error_In; eauto.
        -- apply nth_error_None in Ec. lia.
Qed.

(** The entries of a block of numbered lines with plain entries. *)
Lemma find_lines_of_lines_text (l : list line_src) (tail : text) :
  Forall line_ok l -> forallb is_space tail = true ->
  map strip (find_lines (lines_text l tail)) = map l_entry l.
Proof.
  intros Hl Ht. unfold find_lines, finditer.
  apply (lines_text_scan l Hl tail [] 0); [auto | now left | simpl; lia].
Qed.

Lemma numbered_block_lines_text (l : list (text * text)) :
  numbered_block l
  = lines_text (map (fun de => {| l_indent := []; l_number := fst de;
                                  l_gap := lit " "; l_entry := snd de |}) l)
               match l with [] => [] | _ :: _ => [nl] end.
Proof.
  induction l as [|de l IH]; [reflexivity|].
  unfold numbered_block in *. cbn [map concat lines_text]. rewrite IH.
  unfold line_text. cbn [l_indent l_number l_gap l_entry].
  destruct l as [|de' l]; cbn [map lines_text];
    repeat (rewrite <- app_assoc || rewrite <- app_comm_cons); reflexivity.
Qed.

Lemma reinsert_markers_numbered (entries : list text) (k : nat) :
  Forall plain_entry entries ->
  exists l,
    Forall numbered_line l /\ map snd l = entries
    /\ numbered_block l
       = concat (map (fun ie => line_marker (fst ie) ++ snd ie ++ [nl])
                     (combine (seq k (length entries)) entries)).
Proof.
  intros H. revert k. induction H as [|e entries He _ IH]; intros k.
  - exists []. repeat split; constructor.
  - destruct (IH (S k)) as (l & Hl & Hsnd & Hb).
    destruct (line_marker_digits k) as (dig & Hne & Hdig & Hmk).
    exists ((dig, e) :: l). split; [|split].
    + constructor; auto. repeat split; auto; apply He.
    + simpl. now rewrite Hsnd.
    + unfold numbered_block in *. cbn [length seq combine map concat fst snd].
      rewrite Hb, Hmk. now rewrite <- !app_assoc.
Qed.

(** X11.  Entries that are not empty, have no
    white space at either end, are single lines and contain no "V", no "X"
    and no "II" come back: written out as numbered lines, with the markers
    1., 2., ... or with any other numbers, they are what the script finds in
    the block, in the same order. *)
Theorem plain_entries_round_trip :
  (forall entries, Forall plain_entry entries ->
     map strip (find_lines (reinsert_markers entries)) = entries)
  /\ (forall l, Forall numbered_line l ->
        map strip (find_lines (numbered_block l)) = map snd l).
Proof.
  assert (H : forall l, Forall numbered_line l ->
                map strip (find_lines (numbered_block l)) = map snd l).
  { intros l Hl. rewrite numbered_block_lines_text.
    rewrite find_lines_of_lines_text.
    - now rewrite map_map.
    - apply Forall_forall. intros x Hx.
      apply in_map_iff in Hx as (de & <- & Hde).
      rewrite Forall_forall in Hl. destruct (Hl _ Hde) as (H1 & H2 & H3).
      unfold line_ok. cbn [l_indent l_number l_gap l_entry].
      split; [reflexivity|]. split; [exact H1|]. split; [exact H2|].
      split; [|exact H3].
      split; [discriminate|]. split; [reflexivity|].
      simpl. intros [H|[]]. discriminate.
    - now destruct l. }
  split; auto.
  intros entries He.
  destruct (reinsert_markers_numbered entries 1 He) as (l & Hl & Hsnd & Hb).
  unfold reinsert_markers. rewrite <- Hb, <- Hsnd. now apply H.
Qed.

Lemma plain_entries_round_trip_witness :
  map strip (find_lines (reinsert_markers [lit "foo"; lit "bar baz"]))
  = [lit "foo"; lit "bar baz"].
Proof.
  apply (proj1 plain_entries_round_trip [lit "foo"; lit "bar baz"]).
  repeat constructor; try discriminate;
    try (apply absent_check; reflexivity);
    simpl; intros H; repeat (destruct H as [H|H]; [discriminate|]); exact H.
Defined.

(** ** Which numbered lines are found *)

(** The pattern of the numbered lines has a match wherever a numbered line
    starts: its group can run to the end of the block. *)
Lemma line_regex_complete s p :
  marker_at s p = true ->
  exists m, match_at MULTILINE_DOTALL s line_regex p = Some m.
Proof.
  unfold marker_at. intros H. apply andb_prop in H as [Hline H].
  cbv zeta in H. rewrite dropwhile_span, !skipn_skipn in H.
  set (k0 := span_len is_space (skipn p s)) in *.
  set (n := span_len is_digit (skipn (k0 + p) s)) in *.
  apply andb_prop in H as [H Hsp]. apply andb_prop in H as [Hn Hdot].
  apply Nat.leb_le in Hn, Hsp. apply starts_with_one in Hdot.
  destruct (span_len_pos is_space s (S n + (k0 + p)) Hsp) as (c & Hc & _).
  assert (Hlen : S n + (k0 + p) < length s) by (apply nth_error_Some; congruence).
  set (st := start_state p).
  set (a := S (S (p + k0 + n))).
  assert (Hmem : In {| pos := length s; caps := [(1, (a, length s))] |}
                    (ends MULTILINE_DOTALL s line_regex st)).
  { unfold line_regex.
    apply in_Seq. exists st. split; [now apply in_Caret|].
    apply in_Seq. exists (mv st (p + k0)). split.
    { apply (in_Star MULTILINE_DOTALL s Greedy space is_space);
        [apply charlike_Cls|].
      exists k0. split; [reflexivity | reflexivity]. }
    apply in_Seq. exists (mv st (p + k0 + n)). split.
    { apply (in_Plus MULTILINE_DOTALL s Greedy digit is_digit);
        [apply charlike_Cls|].
      exists n. cbn [pos mv]. rewrite (Nat.add_comm p k0). fold n.
      split; [lia | reflexivity]. }
    apply in_Seq. exists (mv st (S (p + k0 + n))). split.
    { apply in_Chr. cbn [pos mv]. split; [|reflexivity].
      rewrite <- Hdot. f_equal. lia. }
    apply in_Seq. exists (mv st a). split.
    { apply (in_Plus MULTILINE_DOTALL s Greedy space is_space);
        [apply charlike_Cls|].
      exists 1. cbn [pos mv].
      replace (S (p + k0 + n)) with (S n + (k0 + p)) by lia.
      split; [lia|]. unfold a, mv. cbn [caps]. f_equal. lia. }
    apply in_Seq.
    exists (close_group 1 a (mv st (length s))). split.
    { apply in_Grp. exists (mv st (length s)). split; [|reflexivity].
      apply (in_Star MULTILINE_DOTALL s Lazy Dot _ _ _
               (charlike_Dot MULTILINE_DOTALL s)).
      exists (length s - a). cbn [pos mv]. split.
      - replace (span_len _ _) with (length (skipn a s))
          by (symmetry; apply span_len_true).
        rewrite length_skipn. lia.
      - unfold mv. cbn [caps]. f_equal. unfold a. lia. }
    apply in_Ahead.
    destruct (In_hd_error _ _ _
                (line_stop_at_end s (close_group 1 a (mv st (length s))) eq_refl))
      as (x & Hx).
    exists x. split; auto.
    rewrite (group_free_caps MULTILINE_DOTALL s line_stop eq_refl
               (close_group 1 a (mv st (length s))) x (hd_error_In _ _ _ Hx)).
    reflexivity. }
  destruct (In_hd_error _ _ _ Hmem) as (y & Hy).
  exists (match_of p y). unfold match_at. fold st. now rewrite Hy.
Qed.

Lemma marker_at_next s p :
  marker_at s (S p) = true -> numbered_line_next s p = true.
Proof.
  unfold marker_at, numbered_line_next. intros H.
  apply andb_prop in H as [Hline H]. cbv zeta in H |- *.
  cbn [at_line_start multiline MULTILINE_DOTALL andb] in Hline.
  destruct (nth_error s p) as [c|]; [|discriminate].
  rewrite Hline. apply andb_prop in H as [H _]. exact H.
Qed.

(** The span of a class in a text, read off the positions of the text. *)
Lemma span_len_exact p (s : text) (a b : nat) :
  a <= b <= length s ->
  forallb p (slice s a b) = true ->
  (forall c, nth_error s b = Some c -> p c = false) ->
  span_len p (skipn a s) = b - a.
Proof.
  intros Hab Hall Hstop.
  assert (Hsplit : skipn a s = slice s a b ++ skipn b s).
  { unfold slice. rewrite <- (firstn_skipn (b - a) (skipn a s)) at 1.
    rewrite skipn_skipn. now replace (b - a + a) with b by lia. }
  rewrite Hsplit, span_len_app_head; [|exact Hall|].
  - unfold slice. rewrite length_firstn, length_skipn. lia.
  - pose proof (nth_error_skipn_hd _ s b) as Hhd.
    destruct (skipn b s) as [|c t]; [exact I | apply Hstop; exact Hhd].
Qed.

Lemma span_len_first p (t : text) (j : nat) (c : ascii) :
  nth_error t j = Some c -> p c = false -> span_len p t <= j.
Proof.
  revert j. induction t as [|x t IH]; intros j Hj Hc; simpl; [lia|].
  destruct j as [|j]; simpl in Hj.
  - inversion Hj; subst. rewrite Hc. lia.
  - destruct (p x); [|lia]. specialize (IH j Hj Hc). lia.
Qed.

Lemma forallb_slice_prefix p (s : text) (a x b : nat) :
  a <= x <= b -> forallb p (slice s a b) = true -> forallb p (slice s a x) = true.
Proof.
  intros H Hall. rewrite (slice_app s a x b H), forallb_app in Hall.
  now apply andb_prop in Hall as [Hall _].
Qed.

(** Where the parts of a numbered line are, read from the start of a match
    of the pattern. *)
Lemma line_span_marker (block : text) (p0 d1 d2 a e : nat) :
  line_span block p0 d1 d2 a e ->
  dropwhile is_space (skipn p0 block) = skipn d1 block
  /\ span_len is_digit (skipn d1 block) = d2 - d1
  /\ marker_at block p0 = true.
Proof.
  intros Hspan.
  pose proof (ls_indent_len _ _ _ _ _ _ Hspan) as H1.
  pose proof (ls_number_len _ _ _ _ _ _ Hspan) as H2.
  pose proof (ls_space_len _ _ _ _ _ _ Hspan) as H3.
  pose proof (ls_text _ _ _ _ _ _ Hspan) as H4.
  pose proof (ls_dot _ _ _ _ _ _ Hspan) as Hdot.
  assert (Hd2 : d2 < length block) by (apply nth_error_Some; congruence).
  assert (Hk0 : span_len is_space (skipn p0 block) = d1 - p0).
  { apply span_len_exact; [lia | apply Hspan |].
    intros c Hc. apply digit_not_space.
    apply (forallb_slice is_digit block d1 d2 (ls_number _ _ _ _ _ _ Hspan) d1 c);
      [lia | exact Hc]. }
  assert (Hdrop : dropwhile is_space (skipn p0 block) = skipn d1 block).
  { rewrite dropwhile_span, Hk0, skipn_skipn. f_equal. lia. }
  assert (Hn : span_len is_digit (skipn d1 block) = d2 - d1).
  { apply span_len_exact; [lia | apply Hspan |].
    intros c Hc. rewrite Hdot in Hc. inversion Hc. reflexivity. }
  split; [exact Hdrop|]. split; [exact Hn|].
  unfold marker_at. rewrite (ls_line _ _ _ _ _ _ Hspan). cbn [andb]. cbv zeta.
  rewrite Hdrop, Hn, !skipn_skipn.
  replace (d2 - d1 + d1) with d2 by lia.
  replace (S (d2 - d1) + d1) with (S d2) by lia.
  apply andb_true_iff. split; [apply andb_true_iff; split|].
  - apply Nat.leb_le. lia.
  - now apply starts_with_one.
  - apply Nat.leb_le. apply span_len_le. split.
    + rewrite length_skipn. lia.
    + replace (firstn 1 (skipn (S d2) block)) with (slice block (S d2) (S (S d2)))
        by (unfold slice; f_equal; lia).
      apply (forallb_slice_prefix is_space block (S d2) (S (S d2)) a);
        [lia | apply Hspan].
Qed.

(** A marker whose white space runs over a newline has no text on its own
    line. *)
Lemma line_span_empty_marker (block : text) (p0 d1 d2 a e j : nat) :
  line_span block p0 d1 d2 a e ->
  S d2 <= j < a -> nth_error block j = Some nl ->
  marker_has_text block p0 = false.
Proof.
  intros Hspan Hj Hnl.
  destruct (line_span_marker block p0 d1 d2 a e Hspan) as (Hdrop & Hn & _).
  pose proof (ls_number_len _ _ _ _ _ _ Hspan) as H2.
  unfold marker_has_text. cbv zeta.
  rewrite Hdrop, Hn, skipn_skipn.
  replace (S (d2 - d1) + d1) with (S d2) by lia.
  apply negb_false_iff.
  set (k := span_len not_nl (skipn (S d2) block)).
  assert (Hk : k <= j - S d2).
  { apply (span_len_first not_nl _ _ nl).
    - rewrite nth_error_skipn. now replace (S d2 + (j - S d2)) with j by lia.
    - unfold not_nl. now rewrite Ascii.eqb_refl. }
  replace (firstn k (skipn (S d2) block)) with (slice block (S d2) (S d2 + k))
    by (unfold slice; f_equal; lia).
  apply (forallb_slice_prefix is_space block (S d2) (S d2 + k) a);
    [lia | apply Hspan].
Qed.

(** X12.  Which numbered lines are found.  Wherever a numbered line starts,
    a match of the pattern that gives an entry, and that starts at a
    numbered line itself, covers that place in one of two ways.  Either the
    match starts on that line or on blank lines before it, so that the number
    and the entry found are those of the line.  Or the line stands in the
    white space after the period of an earlier numbered line that has no text
    of its own, and is swallowed: it is no entry of its own, the text of the
    earlier entry begins with it.  In a block where every numbered line has
    text on its own line, the first case always holds. *)
Theorem numbered_line_found (block : text) (p : nat) :
  marker_at block p = true ->
  exists p0 d1 d2 a e,
    line_span block p0 d1 d2 a e
    /\ In (slice block a e) (find_lines block)
    /\ marker_at block p0 = true
    /\ (p0 <= p <= d1
        \/ (S d2 < p <= a /\ marker_has_text block p0 = false))
    /\ (no_empty_entries block = true -> p0 <= p <= d1).
Proof.
  intros Hmk.
  destruct (line_regex_complete block p Hmk) as (m' & Hm').
  assert (Hp : p <= length block).
  { apply match_at_inv in Hm' as (st & H & _).
    apply line_match in H as (d1 & d2 & a & e & Hs & _).
    destruct Hs. lia. }
  destruct (finditer_from_covers MULTILINE_DOTALL block line_regex
              (length block) 0 0 p m' (line_regex_advancing block))
    as (m & Hm & Hcov); auto; [lia | lia |].
  fold (finditer MULTILINE_DOTALL block line_regex) in Hm.
  destruct (line_matches block m Hm) as (d1 & d2 & a & Hspan & Hg).
  exists (m_start m), d1, d2, a, (m_end m).
  destruct (line_span_marker block _ _ _ _ _ Hspan) as (_ & _ & Hmk0).
  assert (Hcase : m_start m <= p <= d1
                  \/ (S d2 < p <= a
                      /\ marker_has_text block (m_start m) = false)).
  { destruct p as [|p']; [left; destruct Hspan; lia|].
    assert (Hnl : nth_error block p' = Some nl).
    { unfold marker_at in Hmk. apply andb_prop in Hmk as [Hline _].
      cbn [at_line_start multiline MULTILINE_DOTALL andb] in Hline.
      destruct (nth_error block p') as [c|]; [|discriminate].
      apply Ascii.eqb_eq in Hline. now subst. }
    assert (Ha : S p' <= a).
    { destruct (Nat.le_gt_cases (S p') a) as [|Hgt]; auto. exfalso.
      pose proof (ls_no_next _ _ _ _ _ _ Hspan p' ltac:(lia)) as Hno.
      rewrite (marker_at_next _ _ Hmk) in Hno. discriminate. }
    destruct (Nat.le_gt_cases (S p') d1) as [Hle|Hgt]; [left; lia|].
    destruct (Nat.le_gt_cases (S p') (S d2)) as [Hle2|Hgt2].
    - exfalso. destruct (Nat.eq_dec p' d2) as [->|Hne].
      + rewrite (ls_dot _ _ _ _ _ _ Hspan) in Hnl. discriminate.
      + pose proof (forallb_slice is_digit block d1 d2
                      (ls_number _ _ _ _ _ _ Hspan) p' nl ltac:(lia) Hnl) as Hd.
        discriminate.
    - right. split; [lia|].
      apply (line_span_empty_marker block _ d1 d2 a _ p' Hspan); [lia | exact Hnl]. }
  split; [exact Hspan|]. split.
  { rewrite <- Hg. unfold find_lines.
    apply (in_map (fun m0 => group_text block m0 1)). exact Hm. }
  split; [exact Hmk0|]. split; [exact Hcase|].
  intros Hne. destruct Hcase as [|[_ Hempty]]; auto. exfalso.
  unfold no_empty_entries in Hne. rewrite forallb_forall in Hne.
  assert (Hm0 : m_start m <= length block) by (destruct Hspan; lia).
  specialize (Hne (m_start m) ltac:(apply in_seq; lia)).
  rewrite Hmk0, Hempty in Hne. discriminate.
Qed.

Lemma numbered_line_found_witness :
  exists p0 d1 d2 a e,
    line_span block_with_X p0 d1 d2 a e
    /\ In (slice block_with_X a e) (find_lines block_with_X)
    /\ marker_at block_with_X p0 = true
    /\ (p0 <= 6 <= d1
        \/ (S d2 < 6 <= a /\ marker_has_text block_with_X p0 = false))
    /\ (no_empty_entries block_with_X = true -> p0 <= 6 <= d1).
Proof.
  apply (numbered_line_found block_with_X 6). reflexivity.
Defined.

(** A numbered line without text takes the next numbered line as its
    entry. *)
Lemma empty_marker_takes_next_line :
  marker_at block_empty_entry 9 = true
  /\ no_empty_entries block_empty_entry = false
  /\ find_lines block_empty_entry = [lit "a"; lit "3. c"].
Proof. vm_compute. repeat split; reflexivity. Qed.

(** ** Chapters as they are written *)

Lemma line_heads_blank (b : bool) (w : text) :
  forallb is_space w = true -> line_heads b w = true.
Proof.
  revert b. induction w as [|c w IH]; intros b H; [reflexivity|].
  cbn [forallb] in H. apply andb_prop in H as [Hc Hw].
  cbn [line_heads]. rewrite Hc, IH by auto. now destruct b.
Qed.

Lemma line_heads_blank_app (b : bool) (w : text) (d : ascii) (y : text) :
  forallb is_space w = true -> is_digit d = true ->
  line_heads b (w ++ d :: y) = line_heads false y.
Proof.
  intros Hw Hd. revert b. induction w as [|c w IH]; intros b.
  - cbn [app line_heads]. rewrite Hd, orb_true_r.
    assert (Hn : Ascii.eqb d nl = false).
    { destruct (Ascii.eqb_spec d nl) as [->|]; auto;
        vm_compute in Hd; discriminate. }
    rewrite Hn. now destruct b.
  - cbn [forallb] in Hw. apply andb_prop in Hw as [Hc Hw].
    cbn [app line_heads]. rewrite Hc, IH by auto. now destruct b.
Qed.

Lemma line_heads_no_nl (x y : text) :
  ~ In nl x -> line_heads false (x ++ y) = line_heads false y.
Proof.
  induction x as [|c x IH]; intros H; [reflexivity|].
  cbn [app line_heads].
  assert (Hn : Ascii.eqb c nl = false).
  { destruct (Ascii.eqb_spec c nl) as [->|]; auto. exfalso. apply H. now left. }
  rewrite Hn. apply IH. intros Hin. apply H. now right.
Qed.

Lemma digits_no_nl (dig : text) : forallb is_digit dig = true -> ~ In nl dig.
Proof.
  intros H Hin. rewrite forallb_forall in H. apply H in Hin.
  vm_compute in Hin. discriminate.
Qed.

Lemma lines_text_heads (l : list line_src) (tail : text) (b : bool) :
  Forall line_ok l -> forallb is_space tail = true ->
  line_heads b (lines_text l tail) = true.
Proof.
  intros Hl Ht. revert b. induction Hl as [|x l Hx Hl IH]; intros b.
  - now apply line_heads_blank.
  - destruct x as [ind dig gap e].
    destruct Hx as (Hind & Hne & Hdig & (_ & _ & Hgnl) & (_ & _ & Henl & _)).
    cbn [l_indent l_number l_gap l_entry] in Hind, Hne, Hdig, Hgnl, Henl.
    cbn [lines_text]. unfold line_text. cbn [l_indent l_number l_gap l_entry].
    destruct dig as [|d dig]; [congruence|].
    cbn [forallb] in Hdig. apply andb_prop in Hdig as [Hd Hdig].
    repeat (rewrite <- app_assoc || rewrite <- app_comm_cons).
    rewrite line_heads_blank_app by auto.
    rewrite (line_heads_no_nl dig) by now apply digits_no_nl.
    change ("."%char :: gap ++ e ++ match l with [] => tail | _ :: _ => nl :: lines_text l tail end)
      with (["."%char] ++ gap ++ e ++ match l with [] => tail | _ :: _ => nl :: lines_text l tail end).
    rewrite (line_heads_no_nl ["."%char])
      by (simpl; intros [H|[]]; discriminate).
    rewrite (line_heads_no_nl gap), (line_heads_no_nl e) by auto.
    destruct l as [|y l'].
    + now apply line_heads_blank.
    + cbn [line_heads]. rewrite Ascii.eqb_refl. apply IH.
Qed.

Lemma line_heads_nth (t : text) (b : bool) (j : nat) (c : ascii) :
  line_heads b t = true ->
  nth_error t j = Some c ->
  (j = 0 /\ b = true \/ exists j', j = S j' /\ nth_error t j' = Some nl) ->
  is_space c || is_digit c = true.
Proof.
  revert b j. induction t as [|x t IH]; intros b j H Hc Hj.
  - destruct j; discriminate.
  - cbn [line_heads] in H. apply andb_prop in H as [Hx Ht].
    destruct j as [|j].
    + destruct Hj as [[_ ->] | (j' & Hj' & _)]; [|discriminate].
      simpl in Hc. inversion Hc; subst. exact Hx.
    + simpl in Hc. apply (IH (Ascii.eqb x nl) j Ht Hc).
      destruct Hj as [[Hj _] | (j' & Hj' & Hn)]; [discriminate|].
      inversion Hj'; subst j'.
      destruct j as [|j].
      * left. split; auto. simpl in Hn. inversion Hn. apply Ascii.eqb_refl.
      * right. exists j. split; auto.
Qed.

Lemma numerals_head (w : text) :
  In w numerals ->
  exists c t, w = c :: t /\ is_space c = false /\ is_digit c = false.
Proof.
  intros H. cbn [numerals map In] in H.
  repeat (destruct H as [<-|H]; [eexists; eexists; split; [reflexivity|];
                                 split; reflexivity|]).
  destruct H.
Qed.

Lemma numerals_no_dot (w : text) : In w numerals -> ~ In "."%char w.
Proof.
  intros H. cbn [numerals map In] in H.
  repeat (destruct H as [<-|H];
          [simpl; intros Hin;
           repeat (destruct Hin as [Hin|Hin]; [discriminate|]); exact Hin|]).
  destruct H.
Qed.

Lemma numeral_unique (w w' X : text) :
  ~ In "."%char w -> ~ In "."%char w' ->
  firstn (length w') (w ++ "."%char :: X) = w' ->
  nth_error (w ++ "."%char :: X) (length w') = Some "."%char ->
  w' = w.
Proof.
  intros Hw Hw' Hf Hn.
  destruct (Nat.lt_trichotomy (length w') (length w)) as [Hlt|[Heq|Hgt]].
  - exfalso. rewrite nth_error_app1 in Hn by auto.
    apply Hw. eapply nth_error_In; eauto.
  - rewrite Heq, firstn_app, Nat.sub_diag, firstn_all in Hf.
    cbn [firstn] in Hf. now rewrite app_nil_r in Hf.
  - exfalso. apply Hw'. rewrite <- Hf.
    rewrite firstn_app. apply in_app_iff. right.
    destruct (length w' - length w) as [|k] eqn:E; [lia|].
    cbn [firstn]. now left.
Qed.

(** The match of [chapter_regex] at a chapter that is written as above: it
    ends with the block of the chapter, and gives the chapter. *)
Lemma chapter_src_match (pre w gap title : text) (lines : list line_src)
    (T rest : text) :
  (pre = [] \/ exists pre', pre = pre' ++ [nl]) ->
  In w numerals -> gap_ok gap -> title_ok title ->
  Forall line_ok lines -> forallb is_space T = true ->
  let B := lines_text lines T in
  let head := w ++ "."%char :: gap ++ title ++ [nl] in
  (rest = []
   \/ (exists w' X, In w' numerals /\ rest = w' ++ "."%char :: X)
      /\ exists Y, head ++ B = Y ++ [nl]) ->
  let s := pre ++ head ++ B ++ rest in
  exists m,
    match_at MULTILINE s chapter_regex (length pre) = Some m
    /\ m_end m = length pre + length head + length B
    /\ chapter_of s m
       = {| chapter_number := w; chapter_title := title;
            content := map l_entry lines |}.
Proof.
  intros Hpre Hw (Hgne & Hgap & Hgnl) (Htne & Htstrip & Htnl) Hlines HT
    B head Hrest s.
  set (p := length pre).
  set (P1 := p + length w).
  set (g := S P1 + length gap).
  set (q := g + length title).
  set (e := S q + length B).
  assert (Hs : s = pre ++ w ++ "."%char :: gap ++ title ++ nl :: B ++ rest).
  { unfold s, head. repeat (rewrite <- app_assoc || rewrite <- app_comm_cons).
    reflexivity. }
  assert (Hhead : length head = length w + 1 + length gap + length title + 1).
  { unfold head. rewrite !length_app. cbn [length]. rewrite !length_app.
    cbn [length]. lia. }
  assert (Hslen : length s = e + length rest).
  { unfold s. rewrite !length_app, Hhead. unfold e, q, g, P1, p. lia. }
  assert (K0 : skipn p s = w ++ "."%char :: gap ++ title ++ nl :: B ++ rest).
  { rewrite Hs. now apply skipn_app_exact. }
  assert (K1 : skipn (S P1) s = gap ++ title ++ nl :: B ++ rest).
  { unfold P1. replace (S (p + length w)) with (1 + (length w + p)) by lia.
    rewrite <- !skipn_skipn, K0, skipn_app_exact by reflexivity. reflexivity. }
  assert (K2 : skipn g s = title ++ nl :: B ++ rest).
  { unfold g. rewrite Nat.add_comm, <- skipn_skipn, K1.
    now apply skipn_app_exact. }
  assert (K3 : skipn q s = nl :: B ++ rest).
  { unfold q. rewrite Nat.add_comm, <- skipn_skipn, K2.
    now apply skipn_app_exact. }
  assert (K4 : skipn (S q) s = B ++ rest).
  { change (S q) with (1 + q). now rewrite <- skipn_skipn, K3. }
  assert (K5 : skipn e s = rest).
  { unfold e. rewrite Nat.add_comm, <- skipn_skipn, K4.
    now apply skipn_app_exact. }
  assert (Hnth : forall a x t k, skipn a s = x ++ t -> k < length x ->
                                 nth_error s (a + k) = nth_error x k).
  { intros a x t k Ha Hk.
    rewrite <- nth_error_skipn, Ha. now apply nth_error_app1. }
  assert (Hq : nth_error s q = Some nl).
  { rewrite nth_error_skipn_hd, K3. reflexivity. }
  assert (Hline : at_line_start MULTILINE s p = true).
  { unfold p. destruct Hpre as [-> | (pre' & ->)]; [reflexivity|].
    rewrite length_app, Nat.add_comm. cbn [length plus at_line_start].
    rewrite Hs, <- !app_assoc.
    rewrite nth_error_app2, Nat.sub_diag by lia. reflexivity. }
  assert (Hthead : exists c0 t0, title = c0 :: t0 /\ is_space c0 = false).
  { pose proof (strip_head title) as Hh. rewrite Htstrip in Hh.
    destruct title as [|c0 t0]; [congruence|]. eauto. }
  destruct Hthead as (c0 & t0 & Ht0 & Hc0).
  assert (Hg : nth_error s g = Some c0).
  { rewrite nth_error_skipn_hd, K2, Ht0. reflexivity. }
  assert (Hnonl : forall j c, S P1 <= j < q -> nth_error s j = Some c -> c <> nl).
  { intros j c Hj Hc ->.
    replace j with (S P1 + (j - S P1)) in Hc by lia.
    rewrite (Hnth (S P1) (gap ++ title) (nl :: B ++ rest)) in Hc.
    - apply nth_error_In in Hc. apply in_app_iff in Hc as [Hc|Hc]; auto.
    - rewrite K1. now rewrite <- app_assoc.
    - rewrite length_app. unfold q, g in Hj. lia. }
  (* the block has no line that begins with a numeral *)
  assert (HP1 : forall j, S q <= j < e -> content_stop s j = false).
  { intros j Hj. unfold content_stop.
    assert (Hne : (j =? length s) = false) by (apply Nat.eqb_neq; lia).
    rewrite Hne, orb_false_r. unfold numeral_line.
    destruct (at_line_start MULTILINE s j) eqn:Hl; [|reflexivity].
    cbn [andb].
    destruct (nth_error B (j - S q)) as [c|] eqn:Ec;
      [|apply nth_error_None in Ec; unfold e in Hj; lia].
    assert (Hcj : nth_error s j = Some c).
    { replace j with (S q + (j - S q)) by lia.
      rewrite (Hnth (S q) B rest); auto. unfold e in Hj. lia. }
    assert (Hok : is_space c || is_digit c = true).
    { apply (line_heads_nth B true (j - S q) c); auto.
      - now apply lines_text_heads.
      - destruct j as [|j0]; [lia|].
        cbn [at_line_start multiline MULTILINE andb] in Hl.
        destruct (nth_error s j0) as [x|] eqn:Ex; [|discriminate].
        apply Ascii.eqb_eq in Hl. subst x.
        destruct (Nat.eq_dec j0 q) as [->|Hne0].
        + left. split; [lia | reflexivity].
        + right. exists (j0 - S q). split; [lia|].
          replace j0 with (S q + (j0 - S q)) in Ex by lia.
          rewrite (Hnth (S q) B rest) in Ex; auto. unfold e in Hj. lia. }
    destruct (existsb (fun w1 => starts_with (w1 ++ ["."%char]) (skipn j s))
                numerals) eqn:Ex; [|reflexivity].
    exfalso.
    apply existsb_exists in Ex as (w0 & Hw0 & Hst).
    destruct (numerals_head w0 Hw0) as (x & t & -> & Hx1 & Hx2).
    rewrite (nth_error_skipn_cons _ _ _ _ Hcj) in Hst.
    cbn [app starts_with] in Hst. apply andb_prop in Hst as [Hxc _].
    apply Ascii.eqb_eq in Hxc. subst x.
    rewrite Hx1, Hx2 in Hok. discriminate. }
  assert (HP2 : content_stop s e = true).
  { unfold content_stop.
    destruct Hrest as [Hr | ((w' & X & Hw' & Hr) & (Y & HY))].
    - rewrite Hr in Hslen. simpl in Hslen.
      replace (e =? length s) with true by (symmetry; apply Nat.eqb_eq; lia).
      apply orb_true_r.
    - apply orb_true_iff. left. unfold numeral_line.
      apply andb_true_iff. split.
      + assert (He : e = S (length pre + length Y)).
        { apply (f_equal (@length ascii)) in HY.
          rewrite !length_app in HY. cbn [length] in HY.
          unfold e, q, g, P1, p. rewrite Hhead in HY. lia. }
        assert (Hs2 : s = (pre ++ Y) ++ nl :: rest).
        { unfold s. rewrite (app_assoc head B rest), HY.
          repeat (rewrite <- app_assoc || rewrite <- app_comm_cons).
          reflexivity. }
        rewrite He. cbn [at_line_start multiline MULTILINE andb].
        rewrite <- length_app, Hs2, nth_error_app2, Nat.sub_diag by lia.
        reflexivity.
      + apply existsb_exists. exists w'. split; auto.
        rewrite K5, Hr.
        change (w' ++ "."%char :: X) with (w' ++ ["."%char] ++ X).
        rewrite app_assoc. apply starts_with_app. }
  (* there is a match, and it is this one *)
  destruct (chapter_regex_complete s p w q Hline Hw) as (m & Hm).
  { rewrite K0. change (w ++ "."%char :: gap ++ title ++ nl :: B ++ rest)
      with (w ++ ["."%char] ++ gap ++ title ++ nl :: B ++ rest).
    rewrite app_assoc. apply starts_with_app. }
  { destruct gap as [|g0 gap']; [congruence|].
    exists g0. split.
    - replace (p + length w + 1) with (S P1) by (unfold P1; lia).
      rewrite nth_error_skipn_hd, K1. reflexivity.
    - cbn [forallb] in Hgap. now apply andb_prop in Hgap as [Hg0 _]. }
  { assert (1 <= length gap) by (destruct gap; [congruence | simpl; lia]).
    unfold q, g, P1. lia. }
  { exact Hq. }
  exists m. split; [exact Hm|].
  apply match_at_inv in Hm as (st & Hst & ->).
  apply chapter_match in Hst as (w' & p2 & q' & e' & Hspan & ->).
  assert (Ew : w' = w).
  { apply (numeral_unique w w' (gap ++ title ++ nl :: B ++ rest)).
    - now apply numerals_no_dot.
    - apply numerals_no_dot, Hspan.
    - rewrite <- K0. pose proof (cs_label _ _ _ _ _ _ Hspan) as Hl.
      unfold slice in Hl. now rewrite Nat.add_comm, Nat.add_sub in Hl.
    - rewrite <- K0, nth_error_skipn. apply Hspan. }
  subst w'. fold P1 in Hspan.
  pose proof (cs_space_len _ _ _ _ _ _ Hspan) as Hp2lo.
  fold P1 in Hp2lo. replace (P1 + 1) with (S P1) in Hp2lo by lia.
  assert (Hp2 : p2 <= g).
  { destruct (Nat.le_gt_cases p2 g) as [|Hgt]; auto. exfalso.
    pose proof (forallb_slice is_space s _ _ (cs_space _ _ _ _ _ _ Hspan)
                  g c0 ltac:(fold P1; lia) Hg) as Hx.
    rewrite Hc0 in Hx. discriminate. }
  assert (Eq : q' = q).
  { pose proof (cs_title_len _ _ _ _ _ _ Hspan) as Hq'.
    pose proof (cs_newline _ _ _ _ _ _ Hspan) as Hnl'.
    destruct (Nat.lt_trichotomy q' q) as [Hlt|[Heq|Hgt]]; auto; exfalso.
    - apply (Hnonl q' nl); auto. lia.
    - pose proof (forallb_slice not_nl s _ _ (cs_title _ _ _ _ _ _ Hspan)
                    q nl ltac:(unfold q in *; lia) Hq) as Hx.
      unfold not_nl in Hx. rewrite Ascii.eqb_refl in Hx. discriminate. }
  subst q'.
  assert (Ee : e' = e).
  { pose proof (cs_content _ _ _ _ _ _ Hspan) as Hc.
    destruct (Nat.lt_trichotomy e' e) as [Hlt|[Heq|Hgt]]; auto; exfalso.
    - pose proof (cs_stop _ _ _ _ _ _ Hspan) as Hx.
      rewrite HP1 in Hx by lia. discriminate.
    - pose proof (cs_first _ _ _ _ _ _ Hspan e ltac:(unfold e in *; lia)) as Hx.
      rewrite HP2 in Hx. discriminate. }
  subst e'.
  split.
  { cbn [m_end match_of pos]. unfold e, q, g, P1, p. rewrite Hhead. lia. }
  rewrite (chapter_of_span _ _ _ _ _ _ Hspan). f_equal.
  - (* the title *)
    set (k := p2 - S P1).
    assert (Hk : k <= length gap) by (unfold k, g in *; lia).
    assert (Hsk : skipn p2 s = (skipn k gap ++ title) ++ nl :: B ++ rest).
    { replace p2 with (k + S P1) by (unfold k; lia).
      rewrite <- skipn_skipn, K1, skipn_app.
      replace (k - length gap) with 0 by lia.
      cbn [skipn]. now rewrite <- app_assoc. }
    unfold slice. rewrite Hsk.
    replace (q - p2) with (length (skipn k gap ++ title))
      by (rewrite length_app, length_skipn; unfold q, g, k in *; lia).
    rewrite firstn_app, Nat.sub_diag, firstn_all. cbn [firstn].
    rewrite app_nil_r, strip_app_blank_l; auto.
    apply forallb_forall. intros x Hx. rewrite forallb_forall in Hgap.
    apply Hgap. rewrite <- (firstn_skipn k gap). apply in_app_iff. now right.
  - (* the entries *)
    unfold slice. rewrite K4.
    replace (e - S q) with (length B) by (unfold e; lia).
    rewrite firstn_app, Nat.sub_diag, firstn_all. cbn [firstn].
    rewrite app_nil_r. now apply find_lines_of_lines_text.
Qed.

Lemma chapter_regex_not_at_end s p :
  length s <= p -> match_at MULTILINE s chapter_regex p = None.
Proof.
  intros H. destruct (match_at MULTILINE s chapter_regex p) eqn:E; auto.
  apply match_at_inv in E as (st & E & _).
  apply chapter_match in E as (w & p2 & q & e & Hs & _).
  pose proof (cs_dot _ _ _ _ _ _ Hs) as Hd.
  assert (p + length w < length s) by (apply nth_error_Some; congruence).
  lia.
Qed.

Lemma lines_with_newlines (l : list line_src) (blank : text) :
  concat (map (fun x => line_text x ++ [nl]) l) ++ blank
  = lines_text l match l with [] => blank | _ :: _ => nl :: blank end.
Proof.
  induction l as [|x l IH]; [reflexivity|].
  cbn [map concat lines_text]. rewrite <- !app_assoc, IH.
  destruct l as [|y l']; reflexivity.
Qed.

Lemma lines_with_newlines_end (l : list line_src) :
  l <> [] ->
  exists Y, concat (map (fun x => line_text x ++ [nl]) l) = Y ++ [nl].
Proof.
  intros H. destruct (exists_last H) as (l0 & x & ->).
  rewrite map_app, concat_app. cbn [map concat].
  exists (concat (map (fun x0 => line_text x0 ++ [nl]) l0) ++ line_text x).
  now rewrite app_nil_r, <- app_assoc.
Qed.

Lemma chapter_text_ends_nl (c : chapter_src) :
  blank_ok (c_blank c) -> exists Y, chapter_text c = Y ++ [nl].
Proof.
  intros (_ & [Hb | (b' & Hb)]); unfold chapter_text; rewrite Hb.
  - rewrite app_nil_r. destruct (c_lines c) as [|x l] eqn:El.
    + cbn [map concat]. rewrite app_nil_r. unfold chapter_head.
      exists (c_numeral c ++ "."%char :: c_gap c ++ c_title c).
      repeat (rewrite <- app_assoc || rewrite <- app_comm_cons). reflexivity.
    + destruct (lines_with_newlines_end (x :: l)) as (Y & ->); [discriminate|].
      exists (chapter_head c ++ Y). now rewrite <- app_assoc.
  - exists (chapter_head c
            ++ concat (map (fun x => line_text x ++ [nl]) (c_lines c)) ++ b').
    now rewrite <- !app_assoc.
Qed.

Lemma body_text_numeral (cs : list chapter_src) (last : chapter_src) :
  Forall chapter_ok cs -> chapter_ok last ->
  exists w' X, In w' numerals /\ body_text cs last = w' ++ "."%char :: X.
Proof.
  intros Hcs Hlast. unfold body_text. destruct Hcs as [|c cs Hc _].
  - exists (c_numeral last). eexists. split; [apply Hlast|].
    cbn [map concat app]. unfold last_chapter_text, chapter_head.
    repeat (rewrite <- app_assoc || rewrite <- app_comm_cons). reflexivity.
  - exists (c_numeral c). eexists. split; [apply Hc|].
    cbn [map concat]. unfold chapter_text, chapter_head.
    repeat (rewrite <- app_assoc || rewrite <- app_comm_cons). reflexivity.
Qed.

(** The scan of a body of chapters that are written as above finds the
    chapters, one for each. *)
Lemma body_text_scan (cs : list chapter_src) (last : chapter_src) :
  Forall chapter_ok cs -> chapter_ok last ->
  forall pre resume,
    (pre = [] \/ exists pre', pre = pre' ++ [nl]) ->
    resume <= length pre ->
    map (chapter_of (pre ++ body_text cs last))
      (finditer_from MULTILINE (pre ++ body_text cs last) chapter_regex
         (length (body_text cs last)) (length pre) resume)
    = map parsed_chapter (cs ++ [last]).
Proof.
  intros Hcs Hlast. induction Hcs as [|c cs Hc Hcs IH]; intros pre resume Hpre Hres.
  - (* the last chapter *)
    destruct Hlast as (Hw & Hgap & Htitle & Hlines & _).
    destruct (chapter_src_match pre (c_numeral last) (c_gap last) (c_title last)
                (c_lines last) [] [] Hpre Hw Hgap Htitle Hlines eq_refl
                (or_introl eq_refl)) as (m & Hm & Hend & Hch).
    unfold body_text. cbn [map concat app].
    unfold last_chapter_text, chapter_head.
    set (head := c_numeral last ++ "."%char :: c_gap last ++ c_title last ++ [nl])
      in *.
    set (B := lines_text (c_lines last) []) in *.
    rewrite app_nil_r in Hm, Hch.
    set (s := pre ++ head ++ B) in *.
    assert (Hhl : 1 <= length head).
    { unfold head. rewrite length_app.
      destruct (c_numeral last); cbn [length]; lia. }
    assert (Hsl : length s = length pre + length head + length B)
      by (unfold s; rewrite !length_app; lia).
    replace (length (head ++ B)) with (S ((length s - S (length pre)) + 0))
      by (rewrite length_app; lia).
    rewrite (finditer_from_hit _ _ _ _ _ _ _ Hres Hm) by lia.
    rewrite finditer_from_skip by (intros j Hj; left; lia).
    rewrite finditer_from_miss
      by (right; apply chapter_regex_not_at_end; lia).
    cbn [map app]. now rewrite Hch.
  - (* a chapter with another one after it *)
    destruct Hc as (Hw & Hgap & Htitle & Hlines & Hblank).
    pose proof (chapter_text_ends_nl c Hblank) as (Y & HY).
    set (T := match c_lines c with
              | [] => c_blank c
              | _ :: _ => nl :: c_blank c
              end).
    assert (HT : forallb is_space T = true).
    { unfold T. destruct Hblank as [Hb _]. now destruct (c_lines c). }
    assert (Htext : chapter_text c
                    = (c_numeral c ++ "."%char :: c_gap c ++ c_title c ++ [nl])
                      ++ lines_text (c_lines c) T).
    { unfold chapter_text, chapter_head, T. now rewrite lines_with_newlines. }
    destruct (chapter_src_match pre (c_numeral c) (c_gap c) (c_title c)
                (c_lines c) T (body_text cs last) Hpre Hw Hgap Htitle Hlines HT)
      as (m & Hm & Hend & Hch).
    { right. split; [now apply body_text_numeral|].
      exists Y. transitivity (chapter_text c); [symmetry; exact Htext | exact HY]. }
    assert (Hsx : pre ++ (c_numeral c ++ "."%char :: c_gap c ++ c_title c ++ [nl])
                      ++ lines_text (c_lines c) T ++ body_text cs last
                  = pre ++ chapter_text c ++ body_text cs last).
    { rewrite Htext. f_equal. apply app_assoc. }
    cbv zeta in Hm, Hch, Hend. rewrite Hsx in Hm, Hch. clear Hsx.
    assert (Hcl2 : m_end m = length pre + length (chapter_text c)).
    { rewrite Hend, Htext.
      rewrite (length_app (c_numeral c ++ "."%char :: c_gap c ++ c_title c ++ [nl])).
      lia. }
    clear Hend.
    replace (body_text (c :: cs) last)
      with (chapter_text c ++ body_text cs last)
      by (unfold body_text; cbn [map concat]; now rewrite <- app_assoc).
    set (s := pre ++ chapter_text c ++ body_text cs last) in *.
    assert (Hcl : 1 <= length (chapter_text c)).
    { rewrite HY, length_app. cbn [length]. lia. }
    replace (length (chapter_text c ++ body_text cs last))
      with (S ((length (chapter_text c) - 1) + length (body_text cs last)))
      by (rewrite length_app; lia).
    rewrite (finditer_from_hit _ _ _ _ _ _ _ Hres Hm) by lia.
    rewrite finditer_from_skip by (intros j Hj; left; lia).
    cbn [map app]. rewrite Hch. f_equal.
    replace s with ((pre ++ chapter_text c) ++ body_text cs last)
      by (unfold s; now rewrite <- app_assoc).
    replace (S (length pre) + (length (chapter_text c) - 1))
      with (length (pre ++ chapter_text c))
      by (rewrite length_app; lia).
    rewrite Hcl2, <- length_app. apply IH.
    + right. exists (pre ++ Y). now rewrite HY, app_assoc.
    + lia.
Qed.

Lemma lines_text_last (l : list line_src) :
  l <> [] -> Forall line_ok l ->
  exists X e, lines_text l [] = X ++ e /\ e <> [] /\ strip e = e.
Proof.
  intros Hne Hl. induction Hl as [|x l Hx Hl IH]; [congruence|].
  destruct l as [|y l'].
  - exists (l_indent x ++ l_number x ++ "."%char :: l_gap x), (l_entry x).
    destruct Hx as (_ & _ & _ & _ & (He1 & He2 & _)).
    split; [|auto]. cbn [lines_text]. unfold line_text.
    repeat (rewrite <- app_assoc || rewrite <- app_comm_cons).
    now rewrite app_nil_r.
  - destruct IH as (X & e & HX & He); [discriminate|].
    exists (line_text x ++ nl :: X), e. split; [|exact He].
    change (lines_text (x :: y :: l') [])
      with (line_text x ++ nl :: lines_text (y :: l') []).
    rewrite HX. repeat (rewrite <- app_assoc || rewrite <- app_comm_cons).
    reflexivity.
Qed.

Lemma strip_fixed (s X e t : text) (c0 : ascii) :
  s = c0 :: t -> is_space c0 = false ->
  s = X ++ e -> e <> [] -> strip e = e ->
  strip s = s.
Proof.
  intros Hs Hc0 HX Hne He.
  unfold strip. assert (Hl : lstrip s = s).
  { rewrite Hs. unfold lstrip. simpl. now rewrite Hc0. }
  rewrite Hl, HX. unfold rstrip. rewrite rev_app_distr.
  pose proof (strip_last e) as Hlast. rewrite He in Hlast.
  destruct (rev e) as [|x r] eqn:Er.
  - apply (f_equal (@rev ascii)) in Er. rewrite rev_involutive in Er.
    simpl in Er. congruence.
  - cbn [app dropwhile]. rewrite Hlast.
    change (x :: r ++ rev X) with ((x :: r) ++ rev X).
    now rewrite <- Er, <- rev_app_distr, rev_involutive.
Qed.

Lemma body_text_stripped (cs : list chapter_src) (last : chapter_src) :
  Forall chapter_ok cs -> chapter_ok last -> c_lines last <> [] ->
  body_text cs last <> [] /\ strip (body_text cs last) = body_text cs last.
Proof.
  intros Hcs Hlast Hne.
  destruct (body_text_numeral cs last Hcs Hlast) as (w' & X & Hw' & Hb).
  destruct (numerals_head w' Hw') as (c0 & t & -> & Hc0 & _).
  split; [rewrite Hb; discriminate|].
  destruct Hlast as (_ & _ & _ & Hlines & _).
  destruct (lines_text_last (c_lines last) Hne Hlines) as (Z & e & HZ & He1 & He2).
  apply (strip_fixed _ (concat (map chapter_text cs) ++ chapter_head last ++ Z)
           e (t ++ "."%char :: X) c0); auto.
  unfold body_text, last_chapter_text. rewrite HZ.
  now rewrite <- !app_assoc.
Qed.

(** X13.  For a body made of chapters in the
    format of the sample file (a numeral of the list, a period, a gap, a
    title, then numbered lines with plain entries, indented or not, and
    blank lines between the chapters) the script finds exactly these
    chapters, with their titles and their entries in order.  With
    'THE END' after the body and a footer after it, the record that is dumped
    has these chapters and the copyright of the footer. *)
Theorem well_formed_document_parsed (cs : list chapter_src) (last : chapter_src) :
  Forall chapter_ok cs -> chapter_ok last ->
  find_chapters (body_text cs last) = map parsed_chapter (cs ++ [last])
  /\ (c_lines last <> [] ->
      forall ws footer,
        forallb is_space ws = true ->
        let payload := (body_text cs last ++ ws) ++ lit "THE END" ++ footer in
        first_occurrence (lit "THE END") payload (body_text cs last ++ ws) footer ->
        parse_text payload
        = {| meta := the_meta;
             chapters := map parsed_chapter (cs ++ [last]);
             copyright := copyright_of (strip footer) |}
        /\ forall w input_path output_path,
             read_payload w input_path = Ok payload ->
             writable w output_path = true ->
             process_document w input_path output_path
             = Written output_path
                 {| meta := the_meta;
                    chapters := map parsed_chapter (cs ++ [last]);
                    copyright := copyright_of (strip footer) |}).
Proof.
  intros Hcs Hlast.
  assert (Hfind : find_chapters (body_text cs last)
                  = map parsed_chapter (cs ++ [last])).
  { unfold find_chapters, finditer.
    apply (body_text_scan cs last Hcs Hlast [] 0); [now left | simpl; lia]. }
  split; [exact Hfind|].
  intros Hne ws footer Hws payload Hfirst.
  destruct (body_text_stripped cs last Hcs Hlast Hne) as (Hbne & Hbs).
  assert (Hparse : parse_text payload
                   = {| meta := the_meta;
                        chapters := map parsed_chapter (cs ++ [last]);
                        copyright := copyright_of (strip footer) |}).
  { unfold parse_text. rewrite (split_document_found _ _ _ Hfirst).
    rewrite (strip_entry_blank _ ws Hbne Hbs Hws), Hfind. reflexivity. }
  split; [exact Hparse|].
  intros w i o Hread Hw. unfold process_document.
  now rewrite Hread, Hw, Hparse.
Qed.

(** ** The sample text *)

Ltac not_in_text :=
  let H := fresh "H" in
  simpl; intros H; repeat (destruct H as [H|H]; [discriminate|]); exact H.

Ltac plain_entry_holds :=
  split; [discriminate|];
  split; [vm_compute; reflexivity|];
  split; [not_in_text|];
  split; [not_in_text|];
  split; [not_in_text|];
  apply absent_check; vm_compute; reflexivity.

Ltac gap_holds :=
  split; [discriminate | split; [reflexivity | not_in_text]].

Ltac line_holds :=
  split; [reflexivity|];
  split; [discriminate|];
  split; [reflexivity|];
  split; [gap_holds | plain_entry_holds].

Ltac chapter_holds :=
  split; [cbn; tauto|];
  split; [gap_holds|];
  split; [split; [discriminate | split; [vm_compute; reflexivity | not_in_text]]|];
  split; [repeat (constructor; [line_holds|]); constructor|];
  split; [reflexivity | first [left; reflexivity | right; exists []; reflexivity]].

Lemma sample_chapters_ok : Forall chapter_ok sample_chapters /\ chapter_ok sample_last.
Proof.
  split; [repeat (constructor; [chapter_holds|]); constructor | chapter_holds].
Qed.

Lemma well_formed_document_parsed_witness :
  (body_text sample_chapters sample_last ++ [nl; nl])
    ++ lit "THE END" ++ sample_footer
  = strip dummy_content
  /\ parse_text ((body_text sample_chapters sample_last ++ [nl; nl])
                   ++ lit "THE END" ++ sample_footer)
     = {| meta := the_meta;
          chapters := map parsed_chapter (sample_chapters ++ [sample_last]);
          copyright := copyright_of (strip sample_footer) |}.
Proof.
  split; [vm_compute; reflexivity|].
  apply (proj2 (well_formed_document_parsed sample_chapters sample_last
                  (proj1 sample_chapters_ok) (proj2 sample_chapters_ok))).
  - discriminate.
  - reflexivity.
  - apply (first_occurrence_check (lit "THE END")
             (body_text sample_chapters sample_last ++ [nl; nl]) sample_footer).
    vm_compute. reflexivity.
Defined.

(** * The segmenter against its contract *)

(** ** Lines and labels *)

Lemma line_end_first (body : text) (j n : nat) :
  j <= n -> nth_error body n = Some nl -> line_end body j <= n.
Proof.
  intros Hj Hn. unfold line_end.
  destruct (Nat.le_gt_cases (span_len not_nl (skipn j body)) (n - j)) as [|Hgt];
    [lia|].
  exfalso.
  assert (Hle : S n - j <= span_len not_nl (skipn j body)) by lia.
  apply span_slice in Hle.
  pose proof (forallb_slice _ _ _ _ Hle n nl ltac:(lia) Hn) as Hx.
  unfold not_nl in Hx. now rewrite Ascii.eqb_refl in Hx.
Qed.

Lemma line_end_nl (body : text) (j : nat) :
  line_end body j < length body ->
  nth_error body (line_end body j) = Some nl.
Proof.
  intros H. unfold line_end in *.
  destruct (nth_error body (j + span_len not_nl (skipn j body))) as [c|] eqn:E.
  - rewrite <- nth_error_skipn in E. apply span_len_stop in E.
    unfold not_nl in E. apply negb_false_iff, Ascii.eqb_eq in E. now subst.
  - apply nth_error_None in E. lia.
Qed.

Lemma line_end_no_nl (body : text) (j : nat) :
  forallb not_nl (slice body j (line_end body j)) = true.
Proof. apply span_slice. unfold line_end. lia. Qed.

Lemma numerals_starts_unique (w w' t : text) :
  In w numerals -> In w' numerals ->
  starts_with (w ++ ["."%char]) t = true ->
  starts_with (w' ++ ["."%char]) t = true ->
  w' = w.
Proof.
  intros Hw Hw' Hs Hs'.
  apply starts_with_iff in Hs as (b & ->).
  apply starts_with_iff in Hs' as (b' & Hb').
  assert (E : w ++ "."%char :: b = w' ++ "."%char :: b').
  { rewrite <- !app_assoc in Hb'. exact Hb'. }
  apply (numeral_unique w w' b).
  - now apply numerals_no_dot.
  - now apply numerals_no_dot.
  - rewrite E.
    now rewrite firstn_app, Nat.sub_diag, firstn_all, firstn_0, app_nil_r.
  - rewrite E. now rewrite nth_error_app2, Nat.sub_diag by lia.
Qed.

Lemma label_at_unique (body : text) (p : nat) (w : text) :
  In w numerals ->
  starts_with (w ++ ["."%char]) (skipn p body) = true ->
  label_at body p = w.
Proof.
  intros Hw Hs. unfold label_at.
  destruct (find (fun w0 => starts_with (w0 ++ ["."%char]) (skipn p body)) numerals)
    as [w0|] eqn:E.
  - apply find_some in E as [Hw0 Hs0].
    now apply (numerals_starts_unique w w0 (skipn p body)).
  - pose proof (find_none _ _ E w Hw) as Hx. cbv beta in Hx. congruence.
Qed.

(** What a chapter-start line is, in terms of the label that stands there. *)
Lemma chapter_start_label (body : text) (p : nat) :
  chapter_start body p = true ->
  at_line_start MULTILINE body p = true
  /\ In (label_at body p) numerals
  /\ starts_with (label_at body p ++ ["."%char]) (skipn p body) = true
  /\ exists c, nth_error body (p + length (label_at body p) + 1) = Some c
               /\ is_space c = true.
Proof.
  unfold chapter_start. intros H. apply andb_prop in H as [Hl Hex].
  apply existsb_exists in Hex as (w & Hw & Hws).
  apply andb_prop in Hws as [Hs Hsp].
  rewrite (label_at_unique body p w Hw Hs).
  destruct (nth_error body (p + length w + 1)) as [c|]; [|discriminate].
  repeat split; auto. now exists c.
Qed.

(** The numeral and the period of a line hold no newline. *)
Lemma label_no_nl (body : text) (p : nat) (w : text) (j : nat) :
  In w numerals ->
  starts_with (w ++ ["."%char]) (skipn p body) = true ->
  p <= j < p + length w + 1 ->
  nth_error body j <> Some nl.
Proof.
  intros Hw Hs Hj Hn.
  apply starts_with_iff in Hs as (b & Hb).
  replace j with (p + (j - p)) in Hn by lia.
  rewrite <- nth_error_skipn, Hb in Hn.
  rewrite nth_error_app1 in Hn by (rewrite length_app; simpl; lia).
  apply nth_error_In in Hn. apply in_app_iff in Hn as [Hn|[Hn|[]]].
  - now apply (numerals_no_nl w Hw).
  - discriminate.
Qed.

(** The title of a chapter-start line that has one. *)
Lemma has_title_spec (body : text) (p : nat) :
  chapter_start body p = true -> has_title body p = true ->
  let a := p + length (label_at body p) + 1 in
  a + 1 < line_end body a
  /\ forallb not_nl (slice body a (line_end body a)) = true
  /\ forallb is_space (slice body a (line_end body a)) = false.
Proof.
  intros Hstart Ht a.
  destruct (chapter_start_label body p Hstart) as (_ & _ & _ & c & Hc & Hsp).
  fold a in Hc. unfold has_title in Ht. fold a in Ht.
  apply negb_true_iff in Ht.
  split; [|split; [apply line_end_no_nl | exact Ht]].
  apply forallb_false_ex in Ht as (i & x & Hi & Hx).
  assert (Hlen : i < line_end body a - a).
  { assert (Hs : nth_error (slice body a (line_end body a)) i <> None)
      by congruence.
    apply nth_error_Some in Hs. unfold slice in Hs.
    rewrite length_firstn in Hs. lia. }
  rewrite nth_error_slice in Hi by exact Hlen.
  destruct i as [|i]; [|lia].
  rewrite Nat.add_0_r in Hi. congruence.
Qed.

(** ** Sorted lists of positions *)

Lemma StronglySorted_seq (a n : nat) : StronglySorted lt (seq a n).
Proof.
  revert a. induction n as [|n IH]; intros a; simpl; constructor; auto.
  apply Forall_forall. intros x Hx. apply in_seq in Hx. lia.
Qed.

Lemma StronglySorted_filter (f : nat -> bool) (l : list nat) :
  StronglySorted lt l -> StronglySorted lt (filter f l).
Proof.
  induction 1 as [|a l Hs IH Hall]; simpl; [constructor|].
  destruct (f a); auto. constructor; auto.
  apply Forall_forall. intros x Hx. apply filter_In in Hx as [Hx _].
  rewrite Forall_forall in Hall. auto.
Qed.

Lemma sorted_same_elements (l1 l2 : list nat) :
  StronglySorted lt l1 -> StronglySorted lt l2 ->
  (forall x, In x l1 <-> In x l2) ->
  l1 = l2.
Proof.
  intros H1. revert l2. induction H1 as [|a l1 Hs1 IH Hall1]; intros l2 H2 Hiff.
  - destruct l2 as [|b l2]; auto.
    exfalso. apply (proj2 (Hiff b)). now left.
  - destruct H2 as [|b l2 Hs2 Hall2].
    + exfalso. apply (proj1 (Hiff a)). now left.
    + rewrite Forall_forall in Hall1, Hall2.
      assert (Hab : a = b).
      { destruct (proj1 (Hiff a) (or_introl eq_refl)) as [Hb|Hb]; auto.
        destruct (proj2 (Hiff b) (or_introl eq_refl)) as [Ha|Ha]; auto.
        specialize (Hall1 _ Ha). specialize (Hall2 _ Hb). lia. }
      subst b. f_equal. apply IH; auto.
      intros x. split; intros Hx.
      * destruct (proj1 (Hiff x) (or_intror Hx)) as [Hb|Hb]; auto.
        specialize (Hall1 _ Hx). lia.
      * destruct (proj2 (Hiff x) (or_intror Hx)) as [Hb|Hb]; auto.
        specialize (Hall2 _ Hx). lia.
Qed.

Lemma find_seq_first (f : nat -> bool) (a n e : nat) :
  a <= e < a + n -> (forall j, a <= j < e -> f j = false) -> f e = true ->
  find f (seq a n) = Some e.
Proof.
  revert a. induction n as [|n IH]; intros a He Hno Hf; [lia|].
  simpl. destruct (Nat.eq_dec a e) as [->|Hne].
  - now rewrite Hf.
  - rewrite Hno by lia. apply IH; [lia | | auto].
    intros j Hj. apply Hno. lia.
Qed.

Lemma find_seq_none (f : nat -> bool) (a n : nat) :
  (forall j, a <= j < a + n -> f j = false) -> find f (seq a n) = None.
Proof.
  revert a. induction n as [|n IH]; intros a Hno; [reflexivity|].
  simpl. rewrite Hno by lia. apply IH. intros j Hj. apply Hno. lia.
Qed.

Lemma titles_not_blank_at (body : text) :
  titles_not_blank body = true ->
  forall p, chapter_start body p = true -> p <= length body ->
            has_title body p = true.
Proof.
  intros Htitles p Hp Hpl. unfold titles_not_blank in Htitles.
  rewrite forallb_forall in Htitles.
  specialize (Htitles p ltac:(apply in_seq; lia)). now rewrite Hp in Htitles.
Qed.

(** ** Where the chapters start *)

(** Every match of [chapter_regex] starts at a chapter-start line that ends
    with a newline. *)
Lemma chapter_line_sound (body : text) (m : rmatch) :
  In m (finditer MULTILINE body chapter_regex) ->
  In (m_start m) (chapter_lines body).
Proof.
  intros Hm. apply chapter_matches in Hm as (w & p2 & q & e & Hspan & _).
  pose proof (chapter_span_start _ _ _ _ _ _ Hspan) as Hstart.
  assert (Hq : q < length body).
  { apply nth_error_Some. rewrite (cs_newline _ _ _ _ _ _ Hspan). discriminate. }
  pose proof (cs_space_len _ _ _ _ _ _ Hspan) as H1.
  pose proof (cs_title_len _ _ _ _ _ _ Hspan) as H2.
  unfold chapter_lines. apply filter_In. split; [apply in_seq; lia|].
  rewrite Hstart. cbn [andb]. unfold ends_with_newline. apply Nat.ltb_lt.
  pose proof (line_end_first body (m_start m) q ltac:(lia)
                (cs_newline _ _ _ _ _ _ Hspan)).
  lia.
Qed.

(** In a body whose chapter-start lines have titles, every chapter-start
    line that ends with a newline starts a match. *)
Lemma chapter_line_emitted (body : text) (p : nat) :
  titles_not_blank body = true ->
  In p (chapter_lines body) ->
  In p (map m_start (finditer MULTILINE body chapter_regex)).
Proof.
  intros Htitles Hp. unfold chapter_lines in Hp.
  apply filter_In in Hp as [Hseq Hp]. apply in_seq in Hseq.
  apply andb_prop in Hp as [Hstart Hend].
  unfold ends_with_newline in Hend. apply Nat.ltb_lt in Hend.
  pose proof (titles_not_blank_at body Htitles) as Htitle.
  destruct (chapter_start_label body p Hstart) as (Hl & Hw & Hs & Hsp).
  set (w := label_at body p) in *.
  destruct (has_title_spec body p Hstart (Htitle p Hstart ltac:(lia)))
    as (Hn & Hline & Hblank).
  fold w in Hn, Hline, Hblank.
  set (a := p + length w + 1) in *.
  set (n := line_end body a) in *.
  assert (Hnl : nth_error body n = Some nl).
  { apply line_end_nl. fold n.
    pose proof (line_end_nl body p Hend) as HL.
    assert (HLa : a <= line_end body p).
    { destruct (Nat.le_gt_cases a (line_end body p)) as [|Hgt]; auto. exfalso.
      apply (label_no_nl body p w (line_end body p) Hw Hs); auto.
      unfold line_end. unfold a in Hgt. unfold line_end in Hgt. lia. }
    pose proof (line_end_first body a (line_end body p) HLa HL). fold n in H. lia. }
  destruct (chapter_regex_complete body p w n Hl Hw Hs Hsp) as (m' & Hm');
    [unfold a in Hn; lia | exact Hnl |].
  destruct (finditer_from_covers MULTILINE body chapter_regex
              (length body) 0 0 p m' (chapter_regex_advancing body))
    as (m & Hm & Hcov); auto; [lia | lia |].
  fold (finditer MULTILINE body chapter_regex) in Hm.
  apply in_map_iff. exists m. split; auto.
  destruct (Nat.eq_dec (m_start m) p) as [|Hne]; auto. exfalso.
  apply chapter_matches in Hm as (w' & p2 & q & e & Hspan & Heq).
  assert (He : m_end m = e) by (rewrite Heq; reflexivity).
  rewrite He in Hcov. clear He Heq.
  set (p' := m_start m) in *.
  (* the line start [p] is not in the block of the match *)
  assert (Hpq : p <= q).
  { destruct (Nat.le_gt_cases p q) as [|Hgt]; auto. exfalso.
    pose proof (cs_first _ _ _ _ _ _ Hspan p ltac:(lia)) as Hns.
    unfold content_stop, numeral_line in Hns.
    apply orb_false_iff in Hns as [Hns _].
    rewrite Hl in Hns. cbn [andb] in Hns.
    assert (Hex : existsb (fun w0 => starts_with (w0 ++ ["."%char]) (skipn p body))
                    numerals = true).
    { apply existsb_exists. exists w. auto. }
    congruence. }
  (* nor in the line of the match, which has a title *)
  assert (Hq : q < length body).
  { apply nth_error_Some. rewrite (cs_newline _ _ _ _ _ _ Hspan). discriminate. }
  pose proof (chapter_span_start _ _ _ _ _ _ Hspan) as Hstart'.
  pose proof (label_at_unique body p' w' (cs_numeral _ _ _ _ _ _ Hspan)
                (chapter_span_label _ _ _ _ _ _ Hspan)) as Hlab.
  destruct (has_title_spec body p' Hstart' (Htitle p' Hstart' ltac:(lia)))
    as (Hn' & Hline' & Hblank').
  rewrite Hlab in Hn', Hline', Hblank'.
  set (a' := p' + length w' + 1) in *.
  set (n' := line_end body a') in *.
  pose proof (cs_space_len _ _ _ _ _ _ Hspan) as Hp2.
  pose proof (cs_title_len _ _ _ _ _ _ Hspan) as Hp2q.
  assert (Hn'q : n' <= q).
  { apply line_end_first; [unfold a'; lia | apply Hspan]. }
  assert (Hnl' : nth_error body n' = Some nl) by (apply line_end_nl; fold n'; lia).
  destruct (chapter_span_title_line body p' w' p2 q e n' Hspan) as [Hqn _];
    auto; [unfold a' in Hn'; lia|].
  destruct p as [|p0]; [lia|].
  unfold at_line_start in Hl. cbn [multiline MULTILINE andb] in Hl.
  destruct (nth_error body p0) as [x|] eqn:Ex; [|discriminate].
  apply Ascii.eqb_eq in Hl. subst x.
  destruct (Nat.lt_ge_cases p0 a') as [Hin|Hout].
  - apply (label_no_nl body p' w' p0 (cs_numeral _ _ _ _ _ _ Hspan)
             (chapter_span_label _ _ _ _ _ _ Hspan)); auto.
    unfold a' in Hin. lia.
  - pose proof (forallb_slice _ _ _ _ Hline' p0 nl ltac:(lia) Ex) as Hx.
    unfold not_nl in Hx. now rewrite Ascii.eqb_refl in Hx.
Qed.

(** The matches of [chapter_regex] start at the chapter-start lines that end
    with a newline, one at each. *)
Lemma chapter_starts_eq (body : text) :
  titles_not_blank body = true ->
  map m_start (finditer MULTILINE body chapter_regex) = chapter_lines body.
Proof.
  intros Htitles. apply sorted_same_elements.
  - apply (chain_sorted MULTILINE body chapter_regex 0).
    apply finditer_chain, chapter_regex_advancing.
  - apply StronglySorted_filter, StronglySorted_seq.
  - intros p. split.
    + intros Hp. apply in_map_iff in Hp as (m & <- & Hm).
      now apply chapter_line_sound.
    + now apply chapter_line_emitted.
Qed.

(** ** What each chapter holds *)

Lemma next_start_spec (body : text) (j e : nat) :
  j <= e <= length body ->
  (forall i, j <= i < e -> chapter_start body i = false) ->
  e = length body \/ chapter_start body e = true ->
  next_start body j = e.
Proof.
  intros He Hno Hstop. unfold next_start.
  destruct Hstop as [->|Hst].
  - rewrite find_seq_none; auto. intros i Hi. apply Hno. lia.
  - assert (e < length body).
    { destruct (Nat.eq_dec e (length body)) as [->|]; [|lia].
      apply chapter_start_label in Hst as (_ & _ & _ & c & Hc & _).
      assert (Hx : nth_error body (length body + length (label_at body (length body)) + 1)
                   <> None) by congruence.
      apply nth_error_Some in Hx. lia. }
    rewrite (find_seq_first _ j (length body - j) e); auto. lia.
Qed.

Lemma chapter_start_numeral_line (body : text) (p : nat) :
  chapter_start body p = true -> numeral_line body p = true.
Proof.
  intros H. destruct (chapter_start_label body p H) as (Hl & Hw & Hs & _).
  unfold numeral_line. rewrite Hl. cbn [andb].
  apply existsb_exists. eauto.
Qed.

(** The label and the title of a match are those of its line. *)
Lemma chapter_span_title (body : text) (p : nat) (w : text) (p2 q e : nat) :
  has_title body p = true ->
  chapter_span body p w p2 q e ->
  w = label_at body p
  /\ q = line_end body (p + length w + 1)
  /\ strip (slice body p2 q) = strip (slice body (p + length w + 1) q).
Proof.
  intros Htitle Hspan.
  pose proof (chapter_span_start _ _ _ _ _ _ Hspan) as Hstart.
  pose proof (label_at_unique body p w (cs_numeral _ _ _ _ _ _ Hspan)
                (chapter_span_label _ _ _ _ _ _ Hspan)) as Hlab.
  assert (Hq : q < length body).
  { apply nth_error_Some. rewrite (cs_newline _ _ _ _ _ _ Hspan). discriminate. }
  pose proof (cs_space_len _ _ _ _ _ _ Hspan) as Hp2.
  pose proof (cs_title_len _ _ _ _ _ _ Hspan) as Hp2q.
  destruct (has_title_spec body p Hstart Htitle) as (Hn & Hline & Hblank).
  rewrite Hlab in Hn, Hline, Hblank.
  set (a := p + length w + 1) in *.
  set (n := line_end body a) in *.
  assert (Hnq : n <= q) by (apply line_end_first; [lia | apply Hspan]).
  assert (Hnl : nth_error body n = Some nl) by (apply line_end_nl; fold n; lia).
  destruct (chapter_span_title_line body p w p2 q e n Hspan) as [Hqn Hstrip];
    auto; [unfold a in Hn; lia|].
  split; [now symmetry|]. split; [exact Hqn|]. now rewrite Hstrip, Hqn.
Qed.

(** The block of a match ends at the next chapter-start line, or with the
    body, when no other line begins with a numeral and a period. *)
Lemma chapter_span_block (body : text) (p : nat) (w : text) (p2 q e : nat) :
  numeral_lines_spaced body = true ->
  chapter_span body p w p2 q e ->
  e = next_start body (S q).
Proof.
  intros Hspaced Hspan. symmetry.
  pose proof (cs_content _ _ _ _ _ _ Hspan) as Hc.
  apply next_start_spec; auto.
  - intros i Hi.
    destruct (chapter_start body i) eqn:E; auto.
    pose proof (cs_first _ _ _ _ _ _ Hspan i Hi) as Hns.
    unfold content_stop in Hns. apply orb_false_iff in Hns as [Hns _].
    rewrite (chapter_start_numeral_line body i E) in Hns. discriminate.
  - pose proof (cs_stop _ _ _ _ _ _ Hspan) as Hst.
    unfold content_stop in Hst. apply orb_true_iff in Hst as [Hst|Hst].
    + right. unfold numeral_lines_spaced in Hspaced.
      rewrite forallb_forall in Hspaced.
      specialize (Hspaced e ltac:(apply in_seq; lia)).
      now rewrite Hst in Hspaced.
    + left. now apply Nat.eqb_eq.
Qed.

(** The chapters of a body are those of its contract. *)
Lemma find_chapters_refines (body : text) :
  titles_not_blank body = true ->
  numeral_lines_spaced body = true ->
  find_chapters body = segmenter_spec body.
Proof.
  intros Htitles Hspaced. unfold segmenter_spec.
  rewrite <- (chapter_starts_eq body Htitles), map_map.
  unfold find_chapters. apply map_ext_in. intros m Hm.
  apply chapter_matches in Hm as (w & p2 & q & e & Hspan & Heq).
  rewrite Heq at 1. rewrite (chapter_of_span _ _ _ _ _ _ Hspan).
  assert (Htitle : has_title body (m_start m) = true).
  { apply (titles_not_blank_at body Htitles).
    - eapply chapter_span_start; eauto.
    - destruct Hspan. lia. }
  destruct (chapter_span_title body _ w p2 q e Htitle Hspan)
    as (Hw & Hq & Hstrip).
  pose proof (chapter_span_block body _ w p2 q e Hspaced Hspan) as He.
  unfold chapter_at. cbv zeta. rewrite <- Hw, <- Hq, <- He, Hstrip.
  reflexivity.
Qed.

(** ** The chapters and the lines they start at *)

Lemma chapter_of_match (body : text) (m : rmatch) :
  In m (finditer MULTILINE body chapter_regex) ->
  exists w p2 q e,
    chapter_span body (m_start m) w p2 q e
    /\ chapter_of body m
       = {| chapter_number := w;
            chapter_title := strip (slice body p2 q);
            content := map strip (find_lines (slice body (S q) e)) |}.
Proof.
  intros Hm. apply chapter_matches in Hm as (w & p2 & q & e & Hspan & Heq).
  exists w, p2, q, e. split; auto.
  rewrite Heq at 1. now apply chapter_of_span.
Qed.

(** Each chapter against the place where its match starts. *)
Lemma chapters_at_positions (body : text) :
  Forall2 (fun p ch =>
             chapter_start body p = true
             /\ ends_with_newline body p = true
             /\ In (chapter_number ch) numerals
             /\ chapter_number ch = label_at body p
             /\ (has_title body p = true ->
                 chapter_title ch = chapter_title (chapter_at body p)))
          (chapter_positions body) (find_chapters body).
Proof.
  unfold chapter_positions, find_chapters. apply Forall2_map_same.
  intros m Hm.
  pose proof (chapter_line_sound body m Hm) as Hline.
  unfold chapter_lines in Hline. apply filter_In in Hline as [_ Hline].
  apply andb_prop in Hline as [Hstart Hend].
  destruct (chapter_of_match body m Hm) as (w & p2 & q & e & Hspan & ->).
  cbn [chapter_number chapter_title].
  pose proof (label_at_unique body (m_start m) w (cs_numeral _ _ _ _ _ _ Hspan)
                (chapter_span_label _ _ _ _ _ _ Hspan)) as Hlab.
  split; [exact Hstart|]. split; [exact Hend|].
  split; [apply Hspan|]. split; [now symmetry|].
  intros Htitle.
  destruct (chapter_span_title body _ w p2 q e Htitle Hspan) as (Hw & Hq & Hstrip).
  unfold chapter_at. cbv zeta. cbn [chapter_title].
  now rewrite <- Hw, <- Hq.
Qed.

Lemma no_chapter_starts (body : text) :
  count_chapter_starts body = 0 -> find_chapters body = [].
Proof.
  intros H0. unfold find_chapters.
  destruct (finditer MULTILINE body chapter_regex) as [|m ms] eqn:E; auto.
  exfalso.
  assert (Hm : In m (finditer MULTILINE body chapter_regex))
    by (rewrite E; now left).
  pose proof (chapter_line_sound body m Hm) as Hl.
  unfold chapter_lines in Hl. apply filter_In in Hl as [_ Hl].
  apply andb_prop in Hl as [Hstart _].
  apply chapter_line_sound in Hm. unfold chapter_lines in Hm.
  apply filter_In in Hm as [Hseq _].
  unfold count_chapter_starts in H0. apply length_zero_iff_nil in H0.
  assert (Hf : In (m_start m) (filter (chapter_start body) (seq 0 (S (length body)))))
    by (apply filter_In; auto).
  rewrite H0 in Hf. destruct Hf.
Qed.

Lemma numerals_no_digit (w : text) :
  In w numerals -> forallb (fun c => negb (is_digit c)) w = true.
Proof.
  intros H.
  assert (Hall : forallb (fun x => forallb (fun c => negb (is_digit c)) x) numerals
                 = true) by reflexivity.
  rewrite forallb_forall in Hall. auto.
Qed.

(** The claim C2 fails on the code where a chapter-start line is the last
    line of the body and no newline ends it: the line starts no chapter. *)
Lemma chapter_segmenter_counterexample :
  chapter_start (lit "I. A") 0 = true
  /\ find_chapters (lit "I. A") = [].
Proof. vm_compute. split; reflexivity. Qed.

(** C2, amended.  A chapter starts only at a chapter-start line (a line
    start, one of the 13 numerals, a period and white space) that ends with a
    newline; its number is the numeral that stands there, and its title is
    the stripped remainder of that line when that remainder is not blank.  In
    a body where no chapter-start line has a blank title, the chapters start
    at exactly the chapter-start lines that end with a newline.  If moreover
    every line of the body that begins with a numeral and a period is a
    chapter-start line, the chapters are those of the contract: for each such
    line, in order, the numeral, the stripped remainder of the line, and the
    entries of the block that runs from the next line up to the next
    chapter-start line or the end of the body. *)
Theorem chapter_segmenter (body : text) :
  Forall2 (fun p ch =>
             chapter_start body p = true
             /\ ends_with_newline body p = true
             /\ In (chapter_number ch) numerals
             /\ chapter_number ch = label_at body p
             /\ (has_title body p = true ->
                 chapter_title ch = chapter_title (chapter_at body p)))
          (chapter_positions body) (find_chapters body)
  /\ (titles_not_blank body = true ->
      forall p, p <= length body ->
        (In p (chapter_positions body)
         <-> chapter_start body p = true /\ ends_with_newline body p = true))
  /\ (titles_not_blank body = true ->
      numeral_lines_spaced body = true ->
      find_chapters body = segmenter_spec body).
Proof.
  split; [apply chapters_at_positions|]. split.
  - intros Htitles p Hp. unfold chapter_positions.
    rewrite (chapter_starts_eq body Htitles). unfold chapter_lines.
    rewrite filter_In, andb_true_iff, in_seq. intuition lia.
  - apply find_chapters_refines.
Qed.

Lemma chapter_segmenter_witness :
  (In 12 (chapter_positions body_repeated)
   <-> chapter_start body_repeated 12 = true
       /\ ends_with_newline body_repeated 12 = true)
  /\ find_chapters body_repeated = segmenter_spec body_repeated.
Proof.
  split.
  - apply (proj1 (proj2 (chapter_segmenter body_repeated)) eq_refl 12).
    vm_compute. repeat constructor.
  - apply (proj2 (proj2 (chapter_segmenter body_repeated))); reflexivity.
Defined.

(** C3, amended.  The chapters are emitted in the order of the places where
    their matches start; these places increase strictly, each is the start of
    a chapter-start line that ends with a newline, and the chapter carries
    the numeral that stands there, whatever its value.  A body without
    chapter-start lines has no chapters.  In a body where no chapter-start
    line has a blank title, the chapters correspond one to one, in order, to
    the chapter-start lines that end with a newline: there are as many
    chapters as such lines, and two lines with the same numeral give two
    chapters.  When every chapter-start line has a title that is not blank
    and a newline after it, the number of chapters is the number of
    chapter-start lines. *)
Theorem chapters_in_order (body : text) :
  StronglySorted lt (chapter_positions body)
  /\ Forall2 (fun p ch =>
                In p (chapter_lines body)
                /\ chapter_number ch = label_at body p)
             (chapter_positions body) (find_chapters body)
  /\ (count_chapter_starts body = 0 -> find_chapters body = [])
  /\ (titles_not_blank body = true ->
      chapter_positions body = chapter_lines body
      /\ length (find_chapters body) = length (chapter_lines body)
      /\ map chapter_number (find_chapters body)
         = map (label_at body) (chapter_lines body))
  /\ (well_formed_body body = true ->
      length (find_chapters body) = count_chapter_starts body).
Proof.
  assert (Hsorted : StronglySorted lt (chapter_positions body)).
  { apply (chain_sorted MULTILINE body chapter_regex 0).
    apply finditer_chain, chapter_regex_advancing. }
  assert (Hnum : map chapter_number (find_chapters body)
                 = map (label_at body) (chapter_positions body)).
  { unfold chapter_positions, find_chapters. rewrite !map_map.
    apply map_ext_in. intros m Hm.
    destruct (chapter_of_match body m Hm) as (w & p2 & q & e & Hspan & ->).
    cbn [chapter_number]. symmetry.
    apply label_at_unique; [apply Hspan | eapply chapter_span_label; eauto]. }
  split; [exact Hsorted|]. split; [|split; [|split]].
  - unfold chapter_positions, find_chapters. apply Forall2_map_same.
    intros m Hm. split; [now apply chapter_line_sound|].
    destruct (chapter_of_match body m Hm) as (w & p2 & q & e & Hspan & ->).
    cbn [chapter_number]. symmetry.
    apply label_at_unique; [apply Hspan | eapply chapter_span_label; eauto].
  - apply no_chapter_starts.
  - intros Htitles.
    assert (Heq : chapter_positions body = chapter_lines body)
      by (apply chapter_starts_eq; auto).
    split; [exact Heq|]. rewrite <- Heq. split; [|exact Hnum].
    unfold chapter_positions, find_chapters. now rewrite !length_map.
  - intros Hwf. apply Nat.le_antisymm.
    + unfold find_chapters, count_chapter_starts.
      rewrite length_map, <- (length_map m_start).
      apply NoDup_incl_length; [now apply StronglySorted_lt_NoDup|].
      intros p Hp. apply in_map_iff in Hp as (m & <- & Hm).
      apply chapter_line_sound in Hm. unfold chapter_lines in Hm.
      apply filter_In in Hm as [Hseq Hm]. apply andb_prop in Hm as [Hm _].
      apply filter_In. auto.
    + unfold find_chapters, count_chapter_starts.
      rewrite length_map, <- (length_map m_start).
      apply NoDup_incl_length; [apply NoDup_filter, seq_NoDup|].
      intros p Hp. apply filter_In in Hp as [Hp Hs]. apply in_seq in Hp.
      apply chapter_start_emitted; auto. lia.
Qed.

Lemma chapters_in_order_witness :
  find_chapters (lit "no chapter here") = []
  /\ (chapter_positions body_repeated = chapter_lines body_repeated
      /\ length (find_chapters body_repeated) = length (chapter_lines body_repeated)
      /\ map chapter_number (find_chapters body_repeated)
         = map (label_at body_repeated) (chapter_lines body_repeated))
  /\ length (find_chapters body_repeated) = count_chapter_starts body_repeated.
Proof.
  split; [|split].
  - apply (proj1 (proj2 (proj2 (chapters_in_order (lit "no chapter here"))))).
    reflexivity.
  - apply (proj1 (proj2 (proj2 (proj2 (chapters_in_order body_repeated))))).
    reflexivity.
  - apply (proj2 (proj2 (proj2 (proj2 (chapters_in_order body_repeated))))).
    reflexivity.
Defined.

(** The body with the numeral [I] twice has three chapters, in the order of
    the text. *)
Lemma repeated_numeral_chapters :
  map chapter_number (find_chapters body_repeated) = [lit "II"; lit "I"; lit "I"]
  /\ map chapter_title (find_chapters body_repeated) = [lit "A"; lit "B"; lit "C"].
Proof. vm_compute. split; reflexivity. Qed.

(** A numeral that is not in the list starts no chapter. *)
Lemma numeral_XIV_not_recognized :
  chapter_start (lit "XIV. A" ++ [nl] ++ lit " 1. x" ++ [nl]) 0 = false
  /\ find_chapters (lit "XIV. A" ++ [nl] ++ lit " 1. x" ++ [nl]) = [].
Proof. vm_compute. split; reflexivity. Qed.

(** ** Two bodies outside the contract *)

(** When the title of a chapter-start line is blank, the white space after
    the period runs over the end of the line, and the next line is taken as
    the title. *)
Lemma blank_title_takes_next_line :
  titles_not_blank body_blank_title = false
  /\ chapter_lines body_blank_title = [0; 4]
  /\ chapter_positions body_blank_title = [0]
  /\ find_chapters body_blank_title
     = [{| chapter_number := lit "I";
           chapter_title := lit "II. B";
           content := [] |}].
Proof. vm_compute. repeat split; reflexivity. Qed.

(** When a line begins with a numeral and a period without white space
    after it, the block of the chapter stops at that line although no
    chapter starts there. *)
Lemma block_stops_at_unspaced_numeral :
  numeral_lines_spaced body_initials = false
  /\ chapter_lines body_initials = [0]
  /\ map (fun m => group_text body_initials m 3)
         (finditer MULTILINE body_initials chapter_regex)
     = [lit "1. x" ++ [nl]]
  /\ content (chapter_at body_initials 0) = [lit "x"; lit "y"]
  /\ map content (find_chapters body_initials) = [[lit "x"]].
Proof. vm_compute. repeat split; reflexivity. Qed.

(** ** The record that is written *)

(** C9.  The record that a run dumps has the three fields [meta], [chapters]
    and [copyright].  Its [meta] is the fixed record of the script, whatever
    the input.  The [chapter_number] of each chapter is the numeral label as
    it stands in the body at the place where the match of that chapter
    starts: the text at the start of that line is the label followed by a
    period, the label is one of the 13 numerals and the only one of them
    that stands there before a period, and it is kept as text, without a
    digit in it. *)
Theorem output_shape (w : world) (input_path output_path path : string)
    (data : document) :
  process_document w input_path output_path = Written path data ->
  exists full_text,
    read_payload w input_path = Ok full_text
    /\ path = output_path
    /\ meta data = {| name := lit "Art of War"; by_ := lit "Sun Tzu";
                      translated_by := lit "Lionel Giles" |}
    /\ copyright data = copyright_of (snd (split_document full_text))
    /\ Forall2 (fun p ch =>
                  at_line_start MULTILINE (fst (split_document full_text)) p = true
                  /\ In (chapter_number ch) numerals
                  /\ starts_with (chapter_number ch ++ ["."%char])
                                 (skipn p (fst (split_document full_text))) = true
                  /\ (forall w', In w' numerals ->
                        starts_with (w' ++ ["."%char])
                                    (skipn p (fst (split_document full_text))) = true ->
                        w' = chapter_number ch)
                  /\ forallb (fun c => negb (is_digit c)) (chapter_number ch) = true)
               (chapter_positions (fst (split_document full_text)))
               (chapters data).
Proof.
  unfold process_document.
  destruct (read_payload w input_path) as [full_text|e]; [|discriminate].
  destruct (writable w output_path); [|discriminate].
  intros H. inversion H; subst. exists full_text.
  unfold parse_text. destruct (split_document full_text) as [body footer].
  cbn [fst snd meta chapters copyright].
  split; [reflexivity|]. split; [reflexivity|]. split; [reflexivity|].
  split; [reflexivity|].
  unfold chapter_positions, find_chapters. apply Forall2_map_same.
  intros m Hm.
  destruct (chapter_of_match body m Hm) as (x & p2 & q & e & Hspan & ->).
  cbn [chapter_number].
  pose proof (cs_numeral _ _ _ _ _ _ Hspan) as Hx.
  pose proof (chapter_span_label _ _ _ _ _ _ Hspan) as Hs.
  split; [apply Hspan|]. split; [exact Hx|]. split; [exact Hs|]. split.
  - intros w' Hw' Hs'.
    now apply (numerals_starts_unique x w' (skipn (m_start m) body)).
  - now apply numerals_no_digit.
Qed.

Lemma output_shape_witness :
  exists full_text,
    read_payload (one_file html_scenario1 true) "orig.html" = Ok full_text
    /\ "aow.json"%string = "aow.json"%string
    /\ meta (parse_text scenario1)
       = {| name := lit "Art of War"; by_ := lit "Sun Tzu";
            translated_by := lit "Lionel Giles" |}
    /\ copyright (parse_text scenario1)
       = copyright_of (snd (split_document full_text))
    /\ Forall2 (fun p ch =>
                  at_line_start MULTILINE (fst (split_document full_text)) p = true
                  /\ In (chapter_number ch) numerals
                  /\ starts_with (chapter_number ch ++ ["."%char])
                                 (skipn p (fst (split_document full_text))) = true
                  /\ (forall w', In w' numerals ->
                        starts_with (w' ++ ["."%char])
                                    (skipn p (fst (split_document full_text))) = true ->
                        w' = chapter_number ch)
                  /\ forallb (fun c => negb (is_digit c)) (chapter_number ch) = true)
               (chapter_positions (fst (split_document full_text)))
               (chapters (parse_text scenario1)).
Proof.
  apply (output_shape (one_file html_scenario1 true) "orig.html" "aow.json").
  vm_compute. reflexivity.
Defined.
